(** * pdfrw: a shallow embedding of [pdfrw/pdfreader.py]

    The reader keeps an indirect-object table with lazily loaded
    placeholders, decodes cross-reference sections (classic tables and
    compressed streams), follows incremental-update chains, repairs stream
    lengths and flattens the page tree.  Each Python function of
    [PdfReader] is translated below under its own name; the theorems at the
    end of each part state the properties of the natural-language
    description against these definitions. *)

From Stdlib Require Import ZArith String Ascii List Bool Lia.
From stdpp Require Import base option gmap sets list strings fin_maps pretty.

Local Open Scope string_scope.
Local Open Scope Z_scope.
Local Open Scope list_scope.

(** ** Python built-ins used by the reader *)

Module Py.

Definition CR : ascii := ascii_of_nat 13.
Definition LF : ascii := ascii_of_nat 10.

(** Normalisation of a slice bound against a sequence of length [n]. *)
Definition norm (n i : Z) : Z :=
  if i <? 0 then Z.max (i + n) 0 else Z.min i n.

Definition len (s : string) : Z := Z.of_nat (String.length s).

(** [s[a:b]] *)
Definition slice (s : string) (a b : Z) : string :=
  let a' := norm (len s) a in
  let b' := norm (len s) b in
  String.substring (Z.to_nat a') (Z.to_nat (b' - a')) s.

(** [s[i]] for a non-negative or negative index; [None] is IndexError. *)
Definition index (s : string) (i : Z) : option ascii :=
  let j := if i <? 0 then i + len s else i in
  if (0 <=? j) && (j <? len s) then String.get (Z.to_nat j) s else None.

Fixpoint drop (n : nat) (s : string) : string :=
  match n, s with
  | O, _ => s
  | S n', String _ r => drop n' r
  | S _, EmptyString => EmptyString
  end.

Fixpoint find_loop (sub rest : string) (i : Z) (n : nat) {struct n} : Z :=
  match n with
  | O => -1
  | S n' =>
      if String.prefix sub rest then i
      else match rest with
           | EmptyString => -1
           | String _ r => find_loop sub r (i + 1) n'
           end
  end.

(** [s.find(sub, start, stop)] *)
Definition find (s sub : string) (start stop : Z) : Z :=
  let a := norm (len s) start in
  let b := norm (len s) stop in
  find_loop sub (drop (Z.to_nat a) s) a (Z.to_nat (b - len sub - a + 1)).

Definition is_digit_char (c : ascii) : bool :=
  let n := nat_of_ascii c in (48 <=? n)%nat && (n <=? 57)%nat.

Fixpoint all_digits (s : string) : bool :=
  match s with
  | EmptyString => true
  | String c r => is_digit_char c && all_digits r
  end.

(** [s.isdigit()] on a byte string. *)
Definition isdigit (s : string) : bool :=
  match s with
  | EmptyString => false
  | _ => all_digits s
  end.

Fixpoint digits_value (acc : Z) (s : string) : Z :=
  match s with
  | EmptyString => acc
  | String c r => digits_value (10 * acc + (Z.of_nat (nat_of_ascii c) - 48)) r
  end.

(** [int(s)] on a token (tokens carry no white space): an optional sign
    and a non-empty run of decimal digits; [None] is ValueError. *)
Definition int (s : string) : option Z :=
  match s with
  | String "-" r => if isdigit r then Some (- digits_value 0 r) else None
  | String "+" r => if isdigit r then Some (digits_value 0 r) else None
  | _ => if isdigit s then Some (digits_value 0 s) else None
  end.

Definition is_space (c : ascii) : bool :=
  let n := nat_of_ascii c in
  ((9 <=? n)%nat && (n <=? 13)%nat) || (n =? 32)%nat.

Fixpoint lstrip (s : string) : string :=
  match s with
  | String c r => if is_space c then lstrip r else s
  | EmptyString => EmptyString
  end.

Fixpoint rstrip (s : string) : string :=
  match s with
  | EmptyString => EmptyString
  | String c r =>
      match rstrip r with
      | EmptyString => if is_space c then EmptyString else String c EmptyString
      | r' => String c r'
      end
  end.

Definition endswith (s suf : string) : bool :=
  String.eqb (slice s (len s - len suf) (len s)) suf && (len suf <=? len s).

Fixpoint rfind_loop (sub rest : string) (i : Z) (n : nat) (best : Z) {struct n} : Z :=
  match n with
  | O => best
  | S n' =>
      let best' := if String.prefix sub rest then i else best in
      match rest with
      | EmptyString => best'
      | String _ r => rfind_loop sub r (i + 1) n' best'
      end
  end.

(** [s.rfind(sub, start)] *)
Definition rfind (s sub : string) (start : Z) : Z :=
  let a := norm (len s) start in
  rfind_loop sub (drop (Z.to_nat a) s) a (Z.to_nat (len s - len sub - a + 1)) (-1).

(** [s.split()]: the maximal runs of characters that are not white space. *)
Fixpoint split_aux (cur : string) (s : string) : list string :=
  match s with
  | EmptyString =>
      match cur with EmptyString => [] | _ => [cur] end
  | String c r =>
      if is_space c then
        match cur with
        | EmptyString => split_aux EmptyString r
        | _ => cur :: split_aux EmptyString r
        end
      else split_aux (cur +:+ String c EmptyString) r
  end.
Definition split (s : string) : list string := split_aux EmptyString s.

(** [s.splitlines()] for the line ends LF, CR and CR LF. *)
Fixpoint splitlines_aux (cur : string) (s : string) : list string :=
  match s with
  | EmptyString =>
      match cur with EmptyString => [] | _ => [cur] end
  | String c r =>
      if Ascii.eqb c LF then cur :: splitlines_aux EmptyString r
      else if Ascii.eqb c CR then
        match r with
        | String c' r' =>
            if Ascii.eqb c' LF then cur :: splitlines_aux EmptyString r'
            else cur :: splitlines_aux EmptyString r
        | EmptyString => [cur]
        end
      else splitlines_aux (cur +:+ String c EmptyString) r
  end.
Definition splitlines (s : string) : list string := splitlines_aux EmptyString s.

End Py.

(** ** Objects, the heap and the reader state *)

(** An object identity: (object number, generation number). *)
Abbreviation key := (Z * Z)%type.

(** Python objects live in a heap; a value is a reference into it, or
    [None] for Python's [None]. *)
Abbreviation loc := nat.
Abbreviation pyval := (option loc).

Inductive hbody :=
| PdfObject (text : string)
| PdfArray (items : list pyval)
| PdfDict (entries : gmap string loc) (_stream : option string)
| PdfIndirect (k : key).

Record hobj := HObj { body : hbody; indirect : option key }.

Inductive diag :=
| Warning (msg : string)
| Error (msg : string).

Inductive exn :=
| PdfParseError (msg : string)
| ValueError
| TypeError
| IndexError
| KeyError
| NameError
| AttributeError
| AssertionError
| StopIteration.

(** [PdfReader] together with its token source ([self.source]). *)
Record reader := Reader {
  heap : list hobj;
  indirect_objects : gmap key pyval;
  deferred_objects : gset key;
  fdata : string;
  floc : Z;
  tokstart : Z;
  obj_offsets : gmap key Z;
  all_offsets : list Z;
  log : list diag
}.

Inductive outcome (A : Type) :=
| Ok (a : A) (r : reader)
| Raise (e : exn) (r : reader)
| OutOfFuel.
Arguments Ok {A} a r.
Arguments Raise {A} e r.
Arguments OutOfFuel {A}.

Definition M (A : Type) : Type := reader -> outcome A.

#[global] Instance M_ret : MRet M := fun A a r => Ok a r.
#[global] Instance M_bind : MBind M := fun A B f m r =>
  match m r with
  | Ok a r' => f a r'
  | Raise e r' => Raise e r'
  | OutOfFuel => OutOfFuel
  end.

Definition raise {A} (e : exn) : M A := fun r => Raise e r.
Definition out_of_fuel {A} : M A := fun _ => OutOfFuel.
Definition get_reader : M reader := fun r => Ok r r.
Definition modify (f : reader -> reader) : M unit := fun r => Ok tt (f r).

Definition set_heap (h : list hobj) (r : reader) : reader :=
  Reader h (indirect_objects r) (deferred_objects r) (fdata r) (floc r)
         (tokstart r) (obj_offsets r) (all_offsets r) (log r).
Definition set_indirect_objects (t : gmap key pyval) (r : reader) : reader :=
  Reader (heap r) t (deferred_objects r) (fdata r) (floc r)
         (tokstart r) (obj_offsets r) (all_offsets r) (log r).
Definition set_deferred_objects (d : gset key) (r : reader) : reader :=
  Reader (heap r) (indirect_objects r) d (fdata r) (floc r)
         (tokstart r) (obj_offsets r) (all_offsets r) (log r).
Definition set_floc (p : Z) (r : reader) : reader :=
  Reader (heap r) (indirect_objects r) (deferred_objects r) (fdata r) p
         (tokstart r) (obj_offsets r) (all_offsets r) (log r).
Definition set_tokstart (p : Z) (r : reader) : reader :=
  Reader (heap r) (indirect_objects r) (deferred_objects r) (fdata r) (floc r)
         p (obj_offsets r) (all_offsets r) (log r).
Definition set_obj_offsets (m : gmap key Z) (r : reader) : reader :=
  Reader (heap r) (indirect_objects r) (deferred_objects r) (fdata r) (floc r)
         (tokstart r) m (all_offsets r) (log r).
Definition set_all_offsets (l : list Z) (r : reader) : reader :=
  Reader (heap r) (indirect_objects r) (deferred_objects r) (fdata r) (floc r)
         (tokstart r) (obj_offsets r) l (log r).
Definition set_log (l : list diag) (r : reader) : reader :=
  Reader (heap r) (indirect_objects r) (deferred_objects r) (fdata r) (floc r)
         (tokstart r) (obj_offsets r) (all_offsets r) l.

(** [source.warning], [source.error] only log; [source.exception] raises. *)
Definition warning (msg : string) : M unit :=
  modify (fun r => set_log (log r ++ [Warning msg]) r).
Definition error (msg : string) : M unit :=
  modify (fun r => set_log (log r ++ [Error msg]) r).
Definition exception {A} (msg : string) : M A := raise (PdfParseError msg).

(** Allocation of a fresh Python object. *)
Definition alloc (b : hbody) : M loc := fun r =>
  Ok (length (heap r)) (set_heap (heap r ++ [HObj b None]) r).

Definition deref (l : loc) : M hobj := fun r =>
  match heap r !! l with
  | Some o => Ok o r
  | None => Raise AttributeError r
  end.

(** [obj.indirect = key]; on [None] the assignment raises. *)
Definition set_indirect (v : pyval) (k : key) : M unit :=
  match v with
  | None => raise AttributeError
  | Some l =>
      o ← deref l;
      modify (fun r => set_heap (<[l := HObj (body o) (Some k)]> (heap r)) r)
  end.

(** ** The token source (external): the interface the reader consumes.
    [tok_next data p] is the token found when reading [data] from position
    [p], with the position where it starts and the position after it;
    [None] at the end of the input. *)
Class Tokenizer := { tok_next : string -> Z -> option (string * Z * Z) }.

Section Source.
Context `{Tokenizer}.

(** [source.next()] *)
Definition next : M string := fun r =>
  match tok_next (fdata r) (floc r) with
  | Some (tok, start, stop) => Ok tok (set_floc stop (set_tokstart start r))
  | None => Raise StopIteration r
  end.

(** One step of [for value in source]. *)
Definition iter_next : M (option string) := fun r =>
  match tok_next (fdata r) (floc r) with
  | Some (tok, start, stop) => Ok (Some tok) (set_floc stop (set_tokstart start r))
  | None => Ok None r
  end.

(** [source.multiple(n)] *)
Fixpoint multiple (n : nat) : M (list string) :=
  match n with
  | O => mret []
  | S n' =>
      t ← iter_next;
      match t with
      | None => mret []
      | Some tok => rest ← multiple n'; mret (tok :: rest)
      end
  end.
End Source.

(** ** The object value parser *)

(** Arguments of [int(...)]: a Python integer, a token, or a value. *)
Inductive arg :=
| AInt (z : Z)
| ATok (tok : string)
| AVal (v : pyval).

Definition int_of_token (tok : string) : M Z :=
  match Py.int tok with
  | Some z => mret z
  | None => raise ValueError
  end.

Definition py_int (a : arg) : M Z :=
  match a with
  | AInt z => mret z
  | ATok tok => int_of_token tok
  | AVal None => raise TypeError
  | AVal (Some l) =>
      o ← deref l;
      match body o with
      | PdfObject tok => int_of_token tok
      | _ => raise TypeError
      end
  end.

(** [self.indirect_objects.get(key)] *)
Definition table_get (k : key) (r : reader) : pyval :=
  match indirect_objects r !! k with
  | Some v => v
  | None => None
  end.

Definition findindirect (objnum gennum : arg) : M loc :=
  o ← py_int objnum;
  g ← py_int gennum;
  r ← get_reader;
  match table_get (o, g) r with
  | Some l => mret l
  | None =>
      l ← alloc (PdfIndirect (o, g));
      modify (fun r => set_indirect_objects (<[(o, g) := Some l]> (indirect_objects r)) r);;
      modify (fun r => set_deferred_objects ({[(o, g)]} ∪ deferred_objects r) r);;
      mret l
  end.

(** The dispatch table [self.special]. *)
Inductive special_fn := Sreaddict | Sreadarray | Sempty_obj | Sbadtoken.

Definition special (tok : string) : option special_fn :=
  if String.eqb tok "<<" then Some Sreaddict
  else if String.eqb tok "[" then Some Sreadarray
  else if String.eqb tok "endobj" then Some Sempty_obj
  else if existsb (String.eqb tok)
            ["\"; "("; ")"; "<"; ">"; "{"; "}"; "]"; ">>"; "%"]
       then Some Sbadtoken
  else None.

(** [source.floc = source.tokstart]; the Python function returns [None]. *)
Definition empty_obj : M pyval :=
  modify (fun r => set_floc (tokstart r) r);; mret None.

Definition badtoken {A} : M A := exception "Unexpected delimiter".

(** [value in ']R'] is a substring test. *)
Definition in_bracket_R (value : string) : bool :=
  existsb (String.eqb value) [EmptyString; "]"; "R"; "]R"].

(** [result.pop()] *)
Definition pop (result : list pyval) : M (pyval * list pyval) :=
  match reverse result with
  | [] => raise IndexError
  | v :: rest => mret (v, reverse rest)
  end.

(** [result[key] = value] on a PdfDict: assigning [None] deletes. *)
Definition dict_set (d : gmap string loc) (k : string) (v : pyval) : gmap string loc :=
  match v with
  | Some l => <[k := l]> d
  | None => delete k d
  end.

Definition startswith_slash (tok : string) : bool :=
  match tok with
  | String "/" _ => true
  | _ => false
  end.

Section Parser.
Context `{Tokenizer}.

Fixpoint readarray (fuel : nat) (result : list pyval) : M pyval :=
  match fuel with
  | O => out_of_fuel
  | S fuel' =>
      t ← iter_next;
      match t with
      | None => l ← alloc (PdfArray result); mret (Some l)
      | Some value =>
          if in_bracket_R value then
            if String.eqb value "]" then
              l ← alloc (PdfArray result); mret (Some l)
            else
              '(generation, result1) ← pop result;
              '(objnum, result2) ← pop result1;
              l ← findindirect (AVal objnum) (AVal generation);
              readarray fuel' (result2 ++ [Some l])
          else
            match special value with
            | Some Sreaddict =>
                v ← readdict_loop fuel' true EmptyString ∅;
                readarray fuel' (result ++ [v])
            | Some Sreadarray =>
                v ← readarray fuel' [];
                readarray fuel' (result ++ [v])
            | Some Sempty_obj =>
                v ← empty_obj;
                readarray fuel' (result ++ [v])
            | Some Sbadtoken => badtoken
            | None =>
                l ← alloc (PdfObject value);
                readarray fuel' (result ++ [Some l])
            end
      end
  end

(** The [while tok != '>>'] loop of [readdict]; [first] stands for the
    [tok = next()] before the loop, otherwise [tok] is the current token. *)
with readdict_loop (fuel : nat) (first : bool) (tok : string)
                   (result : gmap string loc) : M pyval :=
  match fuel with
  | O => out_of_fuel
  | S fuel' =>
      tok ← (if first then next else mret tok);
      if String.eqb tok ">>" then
        l ← alloc (PdfDict result None); mret (Some l)
      else if negb (startswith_slash tok) then
        error "Expected PDF /name object";;
        tok ← next;
        readdict_loop fuel' false tok result
      else
        let key := tok in
        value ← next;
        match special value with
        | Some f =>
            v ← match f with
                | Sreaddict => readdict_loop fuel' true EmptyString ∅
                | Sreadarray => readarray fuel' []
                | Sempty_obj => empty_obj
                | Sbadtoken => badtoken
                end;
            tok ← next;
            readdict_loop fuel' false tok (dict_set result key v)
        | None =>
            tok ← next;
            if Py.isdigit value && Py.isdigit tok then
              tok2 ← next;
              if negb (String.eqb tok2 "R") then
                error "Expected 'R' following two integers";;
                readdict_loop fuel' false tok2 result
              else
                l ← findindirect (ATok value) (ATok tok);
                tok ← next;
                readdict_loop fuel' false tok (dict_set result key (Some l))
            else
              l ← alloc (PdfObject value);
              readdict_loop fuel' false tok (dict_set result key (Some l))
        end
  end.

Definition readdict (fuel : nat) : M pyval := readdict_loop fuel true EmptyString ∅.

(** [func = self.special.get(tok); if func is not None: obj = func(source)] *)
Definition read_value (fuel : nat) (tok : string) : M pyval :=
  match special tok with
  | Some Sreaddict => readdict fuel
  | Some Sreadarray => readarray fuel []
  | Some Sempty_obj => empty_obj
  | Some Sbadtoken => badtoken
  | None => l ← alloc (PdfObject tok); mret (Some l)
  end.
End Parser.

(** ** Stream extraction *)

Definition update_body (l : loc) (f : hbody -> hbody) : M unit :=
  o ← deref l;
  modify (fun r => set_heap (<[l := HObj (f (body o)) (indirect o)]> (heap r)) r).

(** [obj._stream = data] *)
Definition set_raw_stream (l : loc) (data : string) : M unit :=
  update_body l (fun b =>
    match b with
    | PdfDict d _ => PdfDict d (Some data)
    | _ => b
    end).

(** Modelled from the spec: the [stream] property of [PdfDict]
    (pdfrw/objects.py is not part of the sources at hand): assigning it
    stores the raw bytes and refreshes [/Length]. *)
Definition set_stream (l : loc) (data : string) : M unit :=
  n ← alloc (PdfObject (pretty (Py.len data)));
  update_body l (fun b =>
    match b with
    | PdfDict d _ => PdfDict (<["/Length" := n]> d) (Some data)
    | _ => b
    end).

(** Modelled from the spec: attribute access on a [PdfDict]
    ([obj.Length]; pdfrw/objects.py is not part of the sources at hand):
    a missing key reads as [None]; an indirect reference is resolved
    through its loader and the resolved value is stored back. *)
Definition getattr (load : key -> M pyval) (l : loc) (name : string) : M pyval :=
  o ← deref l;
  match body o with
  | PdfDict d st =>
      match d !! name with
      | None => mret None
      | Some v =>
          ov ← deref v;
          match body ov with
          | PdfIndirect k =>
              rv ← load k;
              update_body l (fun b =>
                match b with
                | PdfDict d' st' => PdfDict (dict_set d' name rv) st'
                | _ => b
                end);;
              mret rv
          | _ => mret (Some v)
          end
      end
  | _ => raise AttributeError
  end.

Definition streamending : list string := ["endstream"; "endobj"].

Definition CRLF : string := String Py.CR (String Py.LF EmptyString).

Section Streams.
Context `{Tokenizer}.

Definition findstream (tok : string) : M Z :=
  r ← get_reader;
  let fdata := fdata r in
  let startstream := tokstart r + Py.len tok in
  match Py.index fdata startstream with
  | None => raise IndexError
  | Some c0 =>
      let gotcr := Ascii.eqb c0 Py.CR in
      let startstream := startstream + (if gotcr then 1 else 0) in
      match Py.index fdata startstream with
      | None => raise IndexError
      | Some c1 =>
          let gotlf := Ascii.eqb c1 Py.LF in
          let startstream := startstream + (if gotlf then 1 else 0) in
          (if negb gotlf then
             if negb gotcr then error "stream keyword not followed by \n"
             else warning "stream keyword terminated by \r without \n"
           else mret tt);;
          mret startstream
      end
  end.

(** The part of [readstream] below the fast path: the declared length does
    not match the distance between the stream and endstream keywords. *)
Definition repair_stream (obj : loc) (startstream length : Z) : M unit :=
  r ← get_reader;
  let fdata := fdata r in
  let target_endstream := startstream + length in
  let maxstream := Py.len fdata - 20 in
  let endstream := Py.find fdata "endstream" startstream maxstream in
  modify (set_floc startstream);;
  let room := endstream - startstream in
  if endstream <? 0 then error "Could not find endstream"
  else if (length =? room + 1)
          && String.eqb (Py.slice fdata (startstream - 2) startstream) CRLF
  then
    warning "stream keyword terminated by \r without \n";;
    set_raw_stream obj (Py.slice fdata (startstream - 1) (target_endstream - 1))
  else
    modify (set_floc endstream);;
    if room <? length then
      error "stream /Length attribute appears to be too big -- adjusting";;
      set_stream obj (Py.slice fdata startstream endstream)
    else if negb (String.eqb (Py.rstrip (Py.slice fdata target_endstream endstream))
                             EmptyString)
    then
      error "stream /Length attribute appears to be too small -- adjusting";;
      set_stream obj (Py.slice fdata startstream endstream)
    else
      let endobj := Py.find fdata "endobj" endstream maxstream in
      if endobj <? 0 then error "Could not find endobj after endstream"
      else if negb (String.eqb (Py.rstrip (Py.slice fdata endstream endobj)) "endstream")
      then error "Unexpected data between endstream and endobj"
      else error "Illegal endstream/endobj combination".

Definition readstream (load : key -> M pyval) (obj : loc) (startstream : Z) : M unit :=
  lenv ← getattr load obj "/Length";
  length ← py_int (AVal lenv);
  let target_endstream := startstream + length in
  modify (set_floc target_endstream);;
  endit ← multiple 2;
  r ← get_reader;
  set_raw_stream obj (Py.slice (fdata r) startstream target_endstream);;
  if bool_decide (endit = streamending) then mret tt
  else repair_stream obj startstream length.
End Streams.

(** ** The indirect-object table: lazy loading *)

Definition is_indirect (v : pyval) : M bool :=
  match v with
  | None => mret false
  | Some l =>
      o ← deref l;
      mret (match body o with PdfIndirect _ => true | _ => false end)
  end.

Definition is_dict (v : pyval) : M bool :=
  match v with
  | None => mret false
  | Some l =>
      o ← deref l;
      mret (match body o with PdfDict _ _ => true | _ => false end)
  end.

(** [self.indirect_objects[key] = obj] *)
Definition table_set (k : key) (v : pyval) : M unit :=
  modify (fun r => set_indirect_objects (<[k := v]> (indirect_objects r)) r).

(** [self.deferred_objects.remove(key)]: KeyError when [key] is absent. *)
Definition deferred_remove (k : key) : M unit := fun r =>
  if bool_decide (k ∈ deferred_objects r)
  then Ok tt (set_deferred_objects (deferred_objects r ∖ {[k]}) r)
  else Raise KeyError r.

(** ['%d %d obj' % (objnum, gennum)] *)
Definition objheader (k : key) : string :=
  pretty (fst k) +:+ " " +:+ pretty (snd k) +:+ " obj".

Definition header_ok (k : key) (objid : list string) : bool :=
  match objid with
  | [a; b; c] =>
      Py.isdigit a && bool_decide (Py.int a = Some (fst k))
      && (Py.isdigit b && bool_decide (Py.int b = Some (snd k)))
      && String.eqb c "obj"
  | _ => false
  end.

(** [fdata.find(LF + objheader) + 1 or fdata.find(CR + objheader) + 1] *)
Definition find_header (fdata hdr : string) : Z :=
  let a := Py.find fdata (String Py.LF hdr) 0 (Py.len fdata) + 1 in
  if a =? 0 then Py.find fdata (String Py.CR hdr) 0 (Py.len fdata) + 1 else a.

Section Loader.
Context `{Tokenizer}.

(** The header check of [loadindirect] and its recovery; [false] stands
    for the early [return None]. *)
Definition read_header (k : key) (offset : Z) : M bool :=
  modify (set_floc offset);;
  objid ← multiple 3;
  if header_ok k objid then mret true
  else
    modify (set_floc offset);;
    next;;
    r ← get_reader;
    let fdata := fdata r in
    let offset2 := find_header fdata (objheader k) in
    if offset2 =? 0 then
      warning "Expected indirect object";; mret false
    else
      match Py.index fdata (offset2 - 1) with
      | None => raise IndexError
      | Some c =>
          if 0 <? Py.find fdata (String c (objheader k)) offset2 (Py.len fdata) then
            warning "Expected indirect object";; mret false
          else
            warning "Indirect object found at incorrect offset";;
            modify (set_floc (offset2 + Py.len (objheader k)));;
            mret true
      end.

(** The end of [loadindirect], once the object is stored and marked:
    [endobj], a stream, or the repair of a missing delimiter. *)
Definition finish_object (load : key -> M pyval) (k : key) (obj : pyval) : M pyval :=
  tok ← next;
  if String.eqb tok "endobj" then mret obj
  else
    isdict ← is_dict obj;
    if isdict && String.eqb tok "stream" then
      match obj with
      | Some l =>
          start ← findstream tok;
          readstream load l start;;
          mret obj
      | None => mret obj
      end
    else
      o ← match obj with
          | Some l => deref l
          | None => mret (HObj (PdfArray []) None)
          end;
      obj' ← match body o with
             | PdfObject text =>
                 if Py.endswith text "endobj" then
                   error "No space or delimiter before endobj";;
                   alloc (PdfObject (Py.slice text 0 (-6)))
                 else
                   error "Expected 'endobj' token";;
                   alloc (PdfObject EmptyString)
             | _ =>
                 error "Expected 'endobj' token";;
                 alloc (PdfObject EmptyString)
             end;
      set_indirect (Some obj') k;;
      table_set k (Some obj');;
      mret (Some obj').

Fixpoint loadindirect (fuel : nat) (k : key) : M pyval :=
  match fuel with
  | O => out_of_fuel
  | S fuel' =>
      r ← get_reader;
      let result := table_get k r in
      isind ← is_indirect result;
      if negb isind then mret result
      else
        let offset := default 0 (obj_offsets r !! k) in
        if offset =? 0 then
          warning "Did not find PDF object";; mret None
        else
          ok ← read_header k offset;
          if negb ok then mret None
          else
            tok0 ← next;
            obj ← read_value fuel' tok0;
            table_set k obj;;
            deferred_remove k;;
            set_indirect obj k;;
            finish_object (loadindirect fuel') k obj
  end.

(** The [for key in new] loop of [read_all]. *)
Fixpoint load_each (fuel : nat) (keys : list key) : M unit :=
  match keys with
  | [] => mret tt
  | k :: rest => loadindirect fuel k;; load_each fuel rest
  end.

Fixpoint read_all_loop (fuel : nat) (prev : gset key) : M unit :=
  match fuel with
  | O => out_of_fuel
  | S fuel' =>
      r ← get_reader;
      let new := deferred_objects r ∖ prev in
      if bool_decide (new = ∅) then mret tt
      else
        let prev := prev ∪ deferred_objects r in
        load_each fuel' (elements new);;
        read_all_loop fuel' prev
  end.

Definition read_all (fuel : nat) : M unit := read_all_loop fuel ∅.
End Loader.

(** ** Cross-reference sections *)

(** [try: m except: ...] with a bare [except]: every exception is caught,
    the state reached when it was raised is kept. *)
Definition attempt {A} (m : M A) : M (option A) := fun r =>
  match m r with
  | Ok a r' => Ok (Some a) r'
  | Raise _ r' => Ok None r'
  | OutOfFuel => OutOfFuel
  end.

(** [setdefault(key, offset)] *)
Definition setdefault (k : key) (offset : Z) (m : gmap key Z) : gmap key Z :=
  match m !! k with
  | Some _ => m
  | None => <[k := offset]> m
  end.

(** [setdefault((objnum, generation), offset); add_offset(offset)] *)
Definition record_offset (k : key) (offset : Z) : M unit :=
  modify (fun r => set_obj_offsets (setdefault k offset (obj_offsets r)) r);;
  modify (fun r => set_all_offsets (all_offsets r ++ [offset]) r).

Section XrefTable.
Context `{Tokenizer}.

(** One entry line of the classic table. *)
Definition table_entry (objnum : Z) : M unit :=
  offset ← next ≫= int_of_token;
  generation ← next ≫= int_of_token;
  inuse ← next;
  if String.eqb inuse "n" then
    if negb (offset =? 0) then record_offset (objnum, generation) offset
    else mret tt
  else if negb (String.eqb inuse "f") then raise ValueError
  else mret tt.

(** [for objnum in range(startobj, startobj + count)]; the result tells
    whether the loop ran to its end, and the last value of [objnum]. *)
Fixpoint table_rows (cnt : nat) (objnum : Z) (last : option Z) : M (bool * option Z) :=
  match cnt with
  | O => mret (true, last)
  | S cnt' =>
      e ← attempt (table_entry objnum);
      match e with
      | None => mret (false, Some objnum)
      | Some _ => table_rows cnt' (objnum + 1) (Some objnum)
      end
  end.

(** The strict [while 1] loop inside the first [try]. *)
Fixpoint table_strict (fuel : nat) (last : option Z) : M (bool * option Z) :=
  match fuel with
  | O => out_of_fuel
  | S fuel' =>
      t ← attempt next;
      match t with
      | None => mret (false, last)
      | Some tok =>
          if String.eqb tok "trailer" then mret (true, last)
          else
            match Py.int tok with
            | None => mret (false, last)
            | Some startobj =>
                c ← attempt (next ≫= int_of_token);
                match c with
                | None => mret (false, last)
                | Some cnt =>
                    '(ok, last') ← table_rows (Z.to_nat cnt) startobj last;
                    if ok : bool then table_strict fuel' last' else mret (false, last')
                end
            end
      end
  end.

(** One line of the tolerant re-scan. *)
Definition fallback_line (line : string) (objnum : option Z) : M (option Z) :=
  match Py.split line with
  | [t0; _] => z ← int_of_token t0; mret (Some z)
  | [t0; t1; inuse] =>
      offset ← int_of_token t0;
      generation ← int_of_token t1;
      (if negb (offset =? 0) && String.eqb inuse "n" then
         match objnum with
         | Some n => record_offset (n, generation) offset
         | None => raise NameError
         end
       else mret tt);;
      match objnum with
      | Some n => mret (Some (n + 1))
      | None => raise NameError
      end
  | [] => mret objnum
  | _ => error "Invalid line in xref table";; raise ValueError
  end.

Fixpoint fallback_lines (table : list string) (objnum : option Z) : M unit :=
  match table with
  | [] => mret tt
  | line :: rest => o ← fallback_line line objnum; fallback_lines rest o
  end.

Definition parse_xref_table (fuel : nat) : M unit :=
  r0 ← get_reader;
  let start := floc r0 in
  '(returned, objnum) ← table_strict fuel None;
  if returned : bool then mret tt
  else
    res ← attempt (
      r ← get_reader;
      let stop := Py.rfind (fdata r) "trailer" start in
      (if stop <? 0 then raise ValueError else mret tt);;
      fallback_lines (Py.splitlines (Py.slice (fdata r) start stop)) objnum;;
      warning "Badly formatted xref table";;
      modify (set_floc stop);;
      next);
    match res with
    | Some _ => mret tt
    | None => modify (set_floc start);; exception "Invalid table format"
    end.
End XrefTable.

(** The stream-filter decoder (external): [uncompress_body h l] is the
    body of the object at [l] once its stream has been decoded. *)
Class Uncompress := { uncompress_body : list hobj -> loc -> hbody -> hbody }.

(** The loop variables of the row decoder; [None] is an unbound name. *)
Record xlocals := XLocals {
  xref_type : option Z;
  x_offset : option Z;
  x_generation : option Z;
  x_objnum : option Z;
  x_obstr_idx : option Z
}.

Definition unbound : xlocals := XLocals None None None None None.

(** [int(hexlify(d), 16)]: the big-endian value of the bytes of [d]. *)
Fixpoint be_value (acc : Z) (d : string) : Z :=
  match d with
  | EmptyString => acc
  | String c r => be_value (256 * acc + Z.of_nat (nat_of_ascii c)) r
  end.

Definition hex_int (d : string) : M Z :=
  match d with
  | EmptyString => raise ValueError
  | _ => mret (be_value 0 d)
  end.

Definition bound (v : option Z) : M Z :=
  match v with
  | Some z => mret z
  | None => raise NameError
  end.

(** The body of [for i, width in enumerate(entry_sizes)] for one column. *)
Definition xref_column (i : nat) (width di : Z) (x : xlocals) : M xlocals :=
  match i with
  | O =>
      let t := if (di =? 0) && (width =? 0) then 1 else di in
      mret (XLocals (Some t) (x_offset x) (x_generation x) (x_objnum x) (x_obstr_idx x))
  | 1%nat =>
      t ← bound (xref_type x);
      if t =? 1 then
        mret (XLocals (xref_type x) (Some di) (x_generation x) (x_objnum x) (x_obstr_idx x))
      else if t =? 2 then
        mret (XLocals (xref_type x) (x_offset x) (x_generation x) (Some di) (x_obstr_idx x))
      else mret x
  | 2%nat =>
      t ← bound (xref_type x);
      if t =? 1 then
        mret (XLocals (xref_type x) (x_offset x) (Some di) (x_objnum x) (x_obstr_idx x))
      else if t =? 2 then
        mret (XLocals (xref_type x) (x_offset x) (x_generation x) (x_objnum x) (Some di))
      else mret x
  | _ => mret x
  end.

Fixpoint xref_columns (stream : string) (i : nat) (entry_sizes : list Z)
                      (stream_offset : Z) (x : xlocals) : M (Z * xlocals) :=
  match entry_sizes with
  | [] => mret (stream_offset, x)
  | width :: rest =>
      let d := Py.slice stream stream_offset (stream_offset + width) in
      let stream_offset := stream_offset + width in
      di ← (if width =? 0 then mret 0 else hex_int d);
      x' ← xref_column i width di x;
      xref_columns stream (S i) rest stream_offset x'
  end.

(** What a decoded row does to the tables. *)
Definition xref_row_effect (num : Z) (x : xlocals) (object_streams : gmap Z (list Z))
  : M (gmap Z (list Z)) :=
  t ← bound (xref_type x);
  is_direct ← (if t =? 1 then o ← bound (x_offset x); mret (negb (o =? 0))
               else mret false);
  if is_direct : bool then
    o ← bound (x_offset x);
    g ← bound (x_generation x);
    record_offset (num, g) o;;
    mret object_streams
  else if t =? 2 then
    n ← bound (x_objnum x);
    idx ← bound (x_obstr_idx x);
    mret (<[n := (default [] (object_streams !! n) ++ [idx])%list]> object_streams)
  else mret object_streams.

(** [while cnt < size] *)
Fixpoint xref_rows (stream : string) (entry_sizes : list Z) (todo : nat) (num : Z)
                   (stream_offset : Z) (x : xlocals) (object_streams : gmap Z (list Z))
  : M (xlocals * gmap Z (list Z)) :=
  match todo with
  | O => mret (x, object_streams)
  | S todo' =>
      '(stream_offset', x') ← xref_columns stream 0 entry_sizes stream_offset x;
      os ← xref_row_effect num x' object_streams;
      xref_rows stream entry_sizes todo' (num + 1) stream_offset' x' os
  end.

(** [for num, size in num_pairs] *)
Fixpoint xref_subsections (stream : string) (entry_sizes : list Z)
                          (num_pairs : list (Z * Z)) (x : xlocals)
                          (object_streams : gmap Z (list Z))
  : M (gmap Z (list Z)) :=
  match num_pairs with
  | [] => mret object_streams
  | (num, size) :: rest =>
      '(x', os) ← xref_rows stream entry_sizes (Z.to_nat size) num 0 x object_streams;
      xref_subsections stream entry_sizes rest x' os
  end.

(** [zip(l[0::2], l[1::2])] *)
Fixpoint pairs_of (l : list Z) : list (Z * Z) :=
  match l with
  | a :: b :: rest => (a, b) :: pairs_of rest
  | _ => []
  end.

(** Text of a value that is a token; [None] for anything else. *)
Definition text_of (v : pyval) : M (option string) :=
  match v with
  | None => mret None
  | Some l =>
      o ← deref l;
      mret (match body o with PdfObject t => Some t | _ => None end)
  end.

(** Python truth value of an object. *)
Definition truthy (v : pyval) : M bool :=
  match v with
  | None => mret false
  | Some l =>
      o ← deref l;
      mret (match body o with
            | PdfObject t => negb (String.eqb t EmptyString)
            | PdfArray items => match items with [] => false | _ => true end
            | PdfDict d _ => negb (bool_decide (d = ∅))
            | PdfIndirect _ => true
            end)
  end.

Section XrefStream.
Context `{Tokenizer} `{Uncompress}.

(** [uncompress([obj])] *)
Definition uncompress (l : loc) : M unit :=
  r ← get_reader;
  update_body l (uncompress_body (heap r) l).

(** Modelled from the spec: iteration over a [PdfArray]
    (pdfrw/objects.py is not part of the sources at hand) resolves the
    indirect references it meets. *)
Fixpoint resolve_items (load : key -> M pyval) (items : list pyval) : M (list pyval) :=
  match items with
  | [] => mret []
  | v :: rest =>
      ind ← is_indirect v;
      v' ← (if ind : bool then
              match v with
              | Some l =>
                  o ← deref l;
                  match body o with PdfIndirect k => load k | _ => mret v end
              | None => mret v
              end
            else mret v);
      rest' ← resolve_items load rest;
      mret (v' :: rest')
  end.

(** [[int(x) for x in value]] *)
Definition int_list (load : key -> M pyval) (v : pyval) : M (list Z) :=
  match v with
  | None => raise TypeError
  | Some l =>
      o ← deref l;
      match body o with
      | PdfArray items =>
          items' ← resolve_items load items;
          mapM (fun x => py_int (AVal x)) items'
      | PdfObject t =>
          mapM (fun c => int_of_token (String c EmptyString)) (list_ascii_of_string t)
      | PdfDict d _ =>
          mapM (fun kv => int_of_token (fst kv)) (map_to_list d)
      | PdfIndirect k => mret [fst k; snd k]
      end
  end.

Definition with_source {A} (data : string) (m : M A) : M A :=
  r0 ← get_reader;
  modify (fun r => Reader (heap r) (indirect_objects r) (deferred_objects r)
                          data 0 0 (obj_offsets r) (all_offsets r) (log r));;
  a ← m;
  modify (fun r => Reader (heap r) (indirect_objects r) (deferred_objects r)
                          (fdata r0) (floc r0) (tokstart r0)
                          (obj_offsets r) (all_offsets r) (log r));;
  mret a.

(** [obj = self.findindirect(num, 0).real_value(); assert obj.Type == '/ObjStm'] *)
Definition fetch_objstm (load : key -> M pyval) (num : Z) : M loc :=
  l ← findindirect (AInt num) (AInt 0);
  o ← deref l;
  v ← match body o with
      | PdfIndirect k => load k
      | _ => raise TypeError
      end;
  match v with
  | None => raise AttributeError
  | Some obj =>
      ty ← getattr load obj "/Type" ≫= text_of;
      if bool_decide (ty = Some "/ObjStm") then mret obj else raise AssertionError
  end.

(** The [while num.isdigit()] loop reading the member table. *)
Fixpoint member_offsets (fuel : nat) (firstoffset : Z) (num : string)
                        (offsets : gmap Z Z) : M (gmap Z Z) :=
  match fuel with
  | O => out_of_fuel
  | S fuel' =>
      if Py.isdigit num then
        offset ← next ≫= int_of_token;
        n ← int_of_token num;
        num' ← next;
        member_offsets fuel' firstoffset num' (<[n := firstoffset + offset]> offsets)
      else mret offsets
  end.

(** [for num, offset in offsets.iteritems()] *)
Fixpoint expand_members (fuel : nat) (members : list (Z * Z)) : M unit :=
  match members with
  | [] => mret tt
  | (num, offset) :: rest =>
      modify (set_floc offset);;
      tok ← next;
      sobj ← read_value fuel tok;
      table_set (num, 0) sobj;;
      r ← get_reader;
      (if bool_decide ((num, 0) ∈ deferred_objects r) then deferred_remove (num, 0)
       else mret tt);;
      set_indirect sobj (num, 0);;
      expand_members fuel rest
  end.

Definition expand_objstm (fuel : nat) (load : key -> M pyval) (obj : loc) : M unit :=
  o ← deref obj;
  stream ← match body o with
           | PdfDict _ (Some st) => mret st
           | _ => raise TypeError
           end;
  first ← getattr load obj "/First";
  firstoffset ← py_int (AVal first);
  with_source stream (
    num ← next;
    offsets ← member_offsets fuel firstoffset num ∅;
    expand_members fuel (map_to_list offsets)).

Fixpoint for_each {A} (f : A -> M unit) (l : list A) : M unit :=
  match l with
  | [] => mret tt
  | a :: rest => f a;; for_each f rest
  end.

Definition load_stream_objects (fuel : nat) (load : key -> M pyval)
                               (object_streams : gmap Z (list Z)) : M unit :=
  objs ← mapM (fetch_objstm load) (fst <$> map_to_list object_streams);
  for_each uncompress objs;;
  for_each (expand_objstm fuel load) objs.

Definition parse_xref_stream (fuel : nat) (load : key -> M pyval) : M pyval :=
  objid ← multiple 3;
  (match objid with
   | [a; b; c] =>
       if Py.isdigit a && String.eqb b "obj" && String.eqb c "<<" then mret tt
       else exception "Expected xref stream start"
   | _ => exception "Expected xref stream start"
   end);;
  objv ← readdict fuel;
  match objv with
  | None => raise AttributeError
  | Some obj =>
      ty ← getattr load obj "/Type" ≫= text_of;
      (if bool_decide (ty = Some "/XRef") then mret tt
       else exception "Expected dict type of /XRef");;
      tok ← next;
      r ← get_reader;
      len ← getattr load obj "/Length" ≫= (fun v => py_int (AVal v));
      let stop := floc r + len in
      start ← findstream tok;
      readstream load obj start;;
      uncompress obj;;
      index ← getattr load obj "/Index";
      has_index ← truthy index;
      num_list ← (if has_index : bool then int_list load index
                  else size ← getattr load obj "/Size";
                       sz ← py_int (AVal size);
                       mret [0; sz]);
      let num_pairs := pairs_of num_list in
      entry_sizes ← getattr load obj "/W" ≫= int_list load;
      (match entry_sizes with
       | [] => raise ValueError
       | w :: ws =>
           if 8 <? foldr Z.max w ws then exception "Invalid entry size" else mret tt
       end);;
      o ← deref obj;
      stream ← match body o with
               | PdfDict _ (Some st) => mret st
               | _ => raise TypeError
               end;
      object_streams ← xref_subsections stream entry_sizes num_pairs unbound ∅;
      load_stream_objects fuel load object_streams;;
      modify (set_floc stop);;
      endit ← multiple 2;
      if bool_decide (endit = streamending) then mret (Some obj)
      else exception "Expected endstream endobj"
  end.

Definition parsexref (fuel : nat) (load : key -> M pyval) : M pyval :=
  tok ← next;
  if Py.isdigit tok then parse_xref_stream fuel load
  else if String.eqb tok "xref" then
    parse_xref_table fuel;;
    tok ← next;
    (if negb (String.eqb tok "<<") then exception "Expected << starting catalog"
     else mret tt);;
    readdict fuel
  else exception "Expected xref keyword or xref stream object".
End XrefStream.

(** ** The incremental-update chain and the merged trailer *)

(** Modelled from the spec: [PdfDict] attribute assignment and [update]
    (pdfrw/objects.py is not part of the sources at hand): assigning
    [None] removes the key; [update] assigns every entry of the other
    dictionary. *)
Definition setattr (l : loc) (name : string) (v : pyval) : M unit :=
  update_body l (fun b =>
    match b with
    | PdfDict d st => PdfDict (dict_set d name v) st
    | _ => b
    end).

Definition dict_entries (l : loc) : M (gmap string loc) :=
  o ← deref l;
  match body o with
  | PdfDict d _ => mret d
  | _ => raise AttributeError
  end.

Definition dict_update (l other : loc) : M unit :=
  d ← dict_entries other;
  update_body l (fun b =>
    match b with
    | PdfDict d0 st => PdfDict (d ∪ d0) st
    | _ => b
    end).

(** [for update in reversed(xref_list): source.obj_offsets.update(update)] *)
Definition merge_offsets (base : gmap key Z) (xref_list : list (gmap key Z)) : gmap key Z :=
  foldl (fun acc update => update ∪ acc) base (reverse xref_list).

(** Parsing of decimal fractions (external): [float(a) > float(b)];
    [None] when a text is not a number. *)
Class Floats := { float_gt : string -> string -> option bool }.

Section Chain.
Context `{Tokenizer} `{Uncompress} `{Floats}.

(** The [while 1] loop over the cross-reference sections; it returns the
    last trailer parsed, [xref_list] and [original_trailer]. *)
Fixpoint xref_loop (fuel : nat) (xref_list : list (gmap key Z)) (original_trailer : pyval)
  : M (loc * list (gmap key Z) * pyval) :=
  match fuel with
  | O => out_of_fuel
  | S fuel' =>
      modify (set_obj_offsets ∅);;
      tv ← parsexref fuel' (loadindirect fuel');
      match tv with
      | None => raise AttributeError
      | Some trailer =>
          prev ← getattr (loadindirect fuel') trailer "/Prev";
          match prev with
          | None =>
              token ← next;
              (if negb (String.eqb token "startxref") && bool_decide (xref_list = [])
               then warning "Expected startxref at end of xref table"
               else mret tt);;
              mret (trailer, xref_list, original_trailer)
          | Some _ =>
              original ← (if bool_decide (xref_list = []) then
                            setattr trailer "/Prev" None;; mret (Some trailer)
                          else mret original_trailer);
              p ← py_int (AVal prev);
              modify (set_floc p);;
              r ← get_reader;
              xref_loop fuel' (xref_list ++ [obj_offsets r]) original
          end
      end
  end.

(** The chain merge that follows the loop ([feature_stream_objects] is
    [True]). *)
Definition merge_chain (fuel : nat) : M loc :=
  '(trailer, xref_list, original_trailer) ← xref_loop fuel [] None;
  (match xref_list with
   | [] => mret tt
   | _ =>
       modify (fun r => set_obj_offsets (merge_offsets (obj_offsets r) xref_list) r);;
       match original_trailer with
       | Some ot => dict_update trailer ot
       | None => raise NameError
       end
   end);;
  mret trailer.

(** [PdfDict(Root=trailer.Root, Info=trailer.Info, ID=trailer.ID)] *)
Definition final_trailer (fuel : nat) (trailer : loc) : M (gmap string loc) :=
  root ← getattr (loadindirect fuel) trailer "/Root";
  info ← getattr (loadindirect fuel) trailer "/Info";
  id ← getattr (loadindirect fuel) trailer "/ID";
  mret (dict_set (dict_set (dict_set ∅ "/Root" root) "/Info" info) "/ID" id).

(** The part of [__init__] from the first cross-reference section to
    [self.update(trailer)]: the entries of the document and its version. *)
Definition load_trailer (fuel : nat) (version : string) : M (gmap string loc * string) :=
  trailer ← merge_chain fuel;
  tv ← getattr (loadindirect fuel) trailer "/Version";
  has_version ← truthy tv;
  version' ← (if has_version : bool then
                t ← text_of tv;
                match t with
                | None => raise TypeError
                | Some vtext =>
                    match float_gt vtext version with
                    | None => raise ValueError
                    | Some true => mret vtext
                    | Some false => mret version
                    end
                end
              else mret version);
  entries ← final_trailer fuel trailer;
  mret (entries, version').
End Chain.

(** ** The page tree walker *)

Module Pages.

(** The object graph below the catalog as the walker sees it: item access
    on dictionaries and arrays hands out resolved values. *)
Inductive value :=
| VNone
| VObject (text : string)
| VArray (items : list value)
| VDict (entries : list (string * value)).

Inductive outcome :=
| Yields (errors : list string) (pages : list value)
| Raises (errors : list string) (e : exn).

(** [node[name]] on a dictionary: the first entry under [name]. *)
Fixpoint getitem (entries : list (string * value)) (name : string) : value :=
  match entries with
  | [] => VNone
  | (k, v) :: rest => if String.eqb k name then v else getitem rest name
  end.

Definition is_name (v : value) (name : string) : bool :=
  match v with
  | VObject t => String.eqb t name
  | _ => false
  end.

(** Sequencing of two generators: the yields of the first, then the second. *)
Definition andthen (a : outcome) (b : unit -> outcome) : outcome :=
  match a with
  | Raises errs e => Raises errs e
  | Yields errs ps =>
      match b tt with
      | Yields errs' ps' => Yields (errs ++ errs') (ps ++ ps')
      | Raises errs' e => Raises (errs ++ errs') e
      end
  end.

Fixpoint readnode (node : value) : outcome :=
  match node with
  | VDict entries =>
      let nodetype := getitem entries "/Type" in
      if is_name nodetype "/Page" then Yields [] [node]
      else if is_name nodetype "/Pages" then
        (fix kids_of (es : list (string * value)) : outcome :=
           match es with
           | [] => Raises [] TypeError
           | (k, v) :: rest =>
               if String.eqb k "/Kids" then
                 match v with
                 | VArray kids =>
                     (fix each (ks : list value) : outcome :=
                        match ks with
                        | [] => Yields [] []
                        | kid :: ks' => andthen (readnode kid) (fun _ => each ks')
                        end) kids
                 | VNone => Raises [] TypeError
                 | VObject t =>
                     match t with
                     | EmptyString => Yields [] []
                     | _ => Raises [] TypeError
                     end
                 | VDict d =>
                     match d with
                     | [] => Yields [] []
                     | _ => Raises [] TypeError
                     end
                 end
               else kids_of rest
           end) entries
      else if is_name nodetype "/Catalog" then
        (fix pages_of (es : list (string * value)) : outcome :=
           match es with
           | [] => Raises [] TypeError
           | (k, v) :: rest =>
               if String.eqb k "/Pages" then readnode v else pages_of rest
           end) entries
      else Yields ["Expected /Page or /Pages dictionary"] []
  | _ => Raises [] TypeError
  end.

(** [readpages]: the pages and the errors logged. *)
Definition readpages (node : value) : list string * list value :=
  match readnode node with
  | Yields errs ps => (errs, ps)
  | Raises errs TypeError | Raises errs AttributeError =>
      ((errs ++ ["Invalid page tree"])%list, [])
  | Raises errs _ => (errs, [])   (* other exceptions: [readnode] raises none *)
  end.

(** A page tree as the description has it: a page, or a [/Pages] node
    with its kids in order; [extra] are the other entries of the node. *)
Inductive ptree :=
| Page (extra : list (string * value))
| PagesNode (extra : list (string * value)) (kids : list ptree).

Fixpoint to_value (t : ptree) : value :=
  match t with
  | Page extra => VDict (("/Type", VObject "/Page") :: extra)
  | PagesNode extra kids =>
      VDict (("/Type", VObject "/Pages")
             :: ("/Kids", VArray (map to_value kids)) :: extra)
  end.

(** Depth-first, pre-order flattening, in the words of the description. *)
Fixpoint flatten (t : ptree) : list value :=
  match t with
  | Page extra => [to_value t]
  | PagesNode _ kids => concat (map flatten kids)
  end.

Definition catalog (extra : list (string * value)) (t : ptree) : value :=
  VDict (("/Type", VObject "/Catalog") :: ("/Pages", to_value t) :: extra).

End Pages.

(** ** A small tokenizer for the worked examples: tokens are the maximal
    runs of characters that are not white space. *)

Fixpoint skip_space (s : string) (p : Z) : string * Z :=
  match s with
  | String c r => if Py.is_space c then skip_space r (p + 1) else (s, p)
  | EmptyString => (s, p)
  end.

Fixpoint take_token (s : string) (p : Z) : string * Z :=
  match s with
  | String c r =>
      if Py.is_space c then (EmptyString, p)
      else let '(t, q) := take_token r (p + 1) in (String c t, q)
  | EmptyString => (EmptyString, p)
  end.

Definition words_next (data : string) (p : Z) : option (string * Z * Z) :=
  let '(rest, start) := skip_space (Py.drop (Z.to_nat p) data) (Z.max p 0) in
  match take_token rest start with
  | (EmptyString, _) => None
  | (tok, stop) => Some (tok, start, stop)
  end.

Definition words : Tokenizer := {| tok_next := words_next |}.
Definition no_filters : Uncompress := {| uncompress_body := fun _ _ b => b |}.
Definition no_floats : Floats := {| float_gt := fun _ _ => None |}.

Definition empty_reader (data : string) : reader :=
  Reader [] ∅ ∅ data 0 0 ∅ [] [].

(** ** Worked examples *)

(** A file with two revisions: the first writes objects 1 and 2, the update
    rewrites object 1; the trailer of the update has no [/Info]. *)
Definition two_revisions : string :=
  "%PDF-1.4 1 0 obj << /Type /Catalog >> endobj 2 0 obj << /Title /Old >> endobj "
  +:+ "xref 0 3 0000000000 65535 f 0000000009 00000 n 0000000045 00000 n "
  +:+ "trailer << /Root 1 0 R /Info 2 0 R >> startxref 78 %%EOF "
  +:+ "1 0 obj << /Type /Catalog /Lang /en >> endobj "
  +:+ "xref 0 2 0000000000 65535 f 0000000201 00000 n "
  +:+ "trailer << /Root 1 0 R /Prev 78 >> startxref 247 %%EOF".

(** The reader when [findxref] has positioned the source at the newest
    cross-reference section. *)
Definition two_revisions_reader : reader :=
  Reader [] ∅ ∅ two_revisions 247 0 ∅ [] [].

(** Two trailer dictionaries on a heap: at 0 the newest one (only [/Root]),
    at 1 the oldest one ([/Root] and [/Info]); 2 to 4 are the values. *)
Definition two_trailers : reader :=
  Reader [HObj (PdfDict {["/Root" := 2%nat]} None) None;
          HObj (PdfDict (<["/Root" := 3%nat]> {["/Info" := 4%nat]}) None) None;
          HObj (PdfObject "/NewRoot") None;
          HObj (PdfObject "/OldRoot") None;
          HObj (PdfObject "/OldInfo") None]
         ∅ ∅ EmptyString 0 0 ∅ [] [].

(** The tree of the description: Pages(kids=[Page A, Pages(kids=[Page B, Page C])]). *)
Definition page_A : Pages.ptree := Pages.Page [("/Contents", Pages.VObject "A")].
Definition page_B : Pages.ptree := Pages.Page [("/Contents", Pages.VObject "B")].
Definition page_C : Pages.ptree := Pages.Page [("/Contents", Pages.VObject "C")].
Definition tree_A_BC : Pages.ptree :=
  Pages.PagesNode [] [page_A; Pages.PagesNode [] [page_B; page_C]].

(** A classic table in which object 1 is listed twice (what follows the
    [xref] keyword), and the rows of a cross-reference stream with
    [/W [1 1 1]]. *)
Definition twice_listed : string :=
  "1 1 0000000100 00000 n 1 1 0000000200 00000 n trailer".

Definition twice_listed_rest : reader :=
  Reader [] ∅ ∅ "1 1 0000000200 00000 n trailer" 0 0 {[ ((1, 0) : key) := 100 ]} [100] [].

Definition stream_rows : string :=
  string_of_list_ascii (List.map ascii_of_nat [1; 16; 0; 1; 32; 0]%nat).

(** An array under way: the tokens [1] and [0] are accumulated (at 0 and 1
    on the heap), [R ]] is still to be read. *)
Definition array_before_R : reader :=
  Reader [HObj (PdfObject "1") None; HObj (PdfObject "0") None]
         ∅ ∅ "R ]" 0 0 ∅ [] [].

(** A stream dictionary with [/Length 3] whose data is not followed by any
    [endstream]; the data starts at 7. *)
Definition unterminated_stream : reader :=
  Reader [HObj (PdfDict {["/Length" := 1%nat]} None) None; HObj (PdfObject "3") None]
         ∅ ∅
         ("stream" +:+ String Py.LF "abcdef and the file goes on without any terminator")
         7 0 ∅ [] [].

(** A stream keyword ended by a lone CR; the data is LF, [a], [b], so that
    [/Length 3] is right, and [findstream] answers 8, one byte too far. *)
Definition lone_cr_stream : reader :=
  Reader [HObj (PdfDict {["/Length" := 1%nat]} None) None; HObj (PdfObject "3") None]
         ∅ ∅
         ("stream" +:+ String Py.CR (String Py.LF
            "abendstream endobj and twenty more bytes of file"))
         6 0 ∅ [] [].

(** A loader for dictionaries that hold no indirect reference. *)
Definition no_load : key -> M pyval := fun _ => mret None.

(** A reader that holds the placeholder of identity (7, 0), handed out by
    [findindirect], with no offset recorded for it. *)
Definition unknown_reference : reader :=
  Reader [HObj (PdfIndirect (7, 0)) None]
         {[ ((7, 0) : key) := Some 0%nat ]} {[ ((7, 0) : key) ]}
         "junk junk junk junk" 0 0 ∅ [] [].

(** The same with an offset that does not lead to the object. *)
Definition stale_offset : reader :=
  Reader [HObj (PdfIndirect (7, 0)) None]
         {[ ((7, 0) : key) := Some 0%nat ]} {[ ((7, 0) : key) ]}
         "junk junk junk junk" 0 0 {[ ((7, 0) : key) := 1 ]} [] [].

(** The placeholder of (7, 0) with the right offset of the object. *)
Definition known_reference : reader :=
  Reader [HObj (PdfIndirect (7, 0)) None]
         {[ ((7, 0) : key) := Some 0%nat ]} {[ ((7, 0) : key) ]}
         "%PDF 7 0 obj /Seven endobj" 0 0 {[ ((7, 0) : key) := 5 ]} [] [].

(** ** Invariants of the reader state *)

Definition is_ind (b : hbody) : bool :=
  match b with PdfIndirect _ => true | _ => false end.

(** The table holds a loaded value (not a placeholder) for [k] at [l]. *)
Definition stored (k : key) (l : loc) (r : reader) : Prop :=
  indirect_objects r !! k = Some (Some l) /\
  exists o, heap r !! l = Some o /\ is_ind (body o) = false.

(** The table holds the unresolved placeholder [p] for [k]. *)
Definition pending (k : key) (p : loc) (r : reader) : Prop :=
  indirect_objects r !! k = Some (Some p) /\
  exists o, heap r !! p = Some o /\ is_ind (body o) = true.

Record evolves (r r' : reader) : Prop := Evolves {
  ev_fdata : fdata r' = fdata r;
  ev_offsets : obj_offsets r' = obj_offsets r;
  ev_heap : forall l o, heap r !! l = Some o ->
            exists o', heap r' !! l = Some o' /\ is_ind (body o') = is_ind (body o);
  ev_stored : forall k l, stored k l r -> stored k l r';
  ev_deferred : forall k l, stored k l r -> k ∉ deferred_objects r ->
                k ∉ deferred_objects r'
}.

(** A computation keeps the invariants of [evolves] when it succeeds. *)
Definition keeps {A} (m : M A) : Prop :=
  forall r a r', m r = Ok a r' -> evolves r r'.

(** The same, relative to a base state [r0]. *)
Definition keeps_from (r0 : reader) {A} (m : M A) : Prop :=
  forall r a r', evolves r0 r -> m r = Ok a r' -> evolves r0 r'.

(** What holds of the state a run ends in, whether it returns or raises. *)
Definition after {A} (x : outcome A) (P : reader -> Prop) : Prop :=
  match x with
  | Ok _ r' => P r'
  | Raise _ r' => P r'
  | OutOfFuel => True
  end.

(** No recorded offset is lost or changed. *)
Definition offsets_kept (r r' : reader) : Prop :=
  forall (k : key) (o : Z), obj_offsets r !! k = Some o -> obj_offsets r' !! k = Some o.

Definition steady {A} (m : M A) : Prop := forall r, after (m r) (offsets_kept r).

(** A value handed back by the parser is a fresh object, not a placeholder. *)
Definition fresh (v : pyval) (r : reader) : Prop :=
  forall l, v = Some l -> exists o, heap r !! l = Some o /\ is_ind (body o) = false.

Definition yields_fresh (m : M pyval) : Prop :=
  forall r v r', m r = Ok v r' -> fresh v r'.

(** ** Reference definitions for the properties of the parts above *)

(** The offset of the first section of a list that lists [k]. *)
Fixpoint first_listed (xl : list (gmap key Z)) (k : key) : option Z :=
  match xl with
  | [] => None
  | s :: rest =>
      match s !! k with
      | Some o => Some o
      | None => first_listed rest k
      end
  end.

(** A property of the two offset tables of the source, whatever the rest
    of the reader holds. *)
Definition table_inv (Q : gmap key Z -> list Z -> Prop) (r : reader) : Prop :=
  Q (obj_offsets r) (all_offsets r).

Definition maintains (Q : gmap key Z -> list Z -> Prop) {A} (m : M A) : Prop :=
  forall r, table_inv Q r -> after (m r) (table_inv Q).

(** No offset 0 is recorded. *)
Definition nonzero_offsets (m : gmap key Z) (l : list Z) : Prop :=
  forall (k : key) (o : Z), m !! k = Some o -> o <> 0.

(** Every recorded offset is in the list of all offsets. *)
Definition offsets_listed (m : gmap key Z) (l : list Z) : Prop :=
  forall (k : key) (o : Z), m !! k = Some o -> o ∈ l.

(** A stream whose [/Length 10] overshoots: the data at 7 is four bytes
    long, [endstream] is found at 11. *)
Definition overlong_stream : reader :=
  Reader [HObj (PdfDict {["/Length" := 1%nat]} None) None; HObj (PdfObject "10") None]
         ∅ ∅
         ("stream" +:+ String Py.LF
            "abc endstream endobj and twenty more bytes of file")
         7 0 ∅ [] [].

(** A stream whose [/Length 3] is right. *)
Definition exact_stream : reader :=
  Reader [HObj (PdfDict {["/Length" := 1%nat]} None) None; HObj (PdfObject "3") None]
         ∅ ∅
         ("stream" +:+ String Py.LF
            "abc endstream endobj and twenty more bytes of file")
         7 0 ∅ [] [].

(** A dictionary whose [/Type] is [/Page]. *)
Definition is_page (v : Pages.value) : Prop :=
  exists entries, v = Pages.VDict entries /\
                  Pages.is_name (Pages.getitem entries "/Type") "/Page" = true.

(** A value that is not a dictionary. *)
Definition not_dict (v : Pages.value) : Prop :=
  match v with
  | Pages.VDict _ => False
  | _ => True
  end.

(** A dictionary that is neither a page, nor a [/Pages] node, nor a catalog. *)
Definition other_type (entries : list (string * Pages.value)) : Prop :=
  Pages.is_name (Pages.getitem entries "/Type") "/Page" = false /\
  Pages.is_name (Pages.getitem entries "/Type") "/Pages" = false /\
  Pages.is_name (Pages.getitem entries "/Type") "/Catalog" = false.

(** The catalog over a [/Pages] node with the given kids. *)
Definition catalog_of_kids (kids : list Pages.value) : Pages.value :=
  Pages.VDict [("/Type", Pages.VObject "/Catalog");
               ("/Pages", Pages.VDict [("/Type", Pages.VObject "/Pages");
                                       ("/Kids", Pages.VArray kids)])].

(** A [/Pages] node with the given kids and nothing else. *)
Definition pages_node (kids : list Pages.value) : Pages.value :=
  Pages.VDict [("/Type", Pages.VObject "/Pages"); ("/Kids", Pages.VArray kids)].

(** The reader once object (7, 0) is loaded. *)
Definition loaded_reference : reader :=
  Reader [HObj (PdfIndirect (7, 0)) None; HObj (PdfObject "/Seven") (Some (7, 0))]
         {[ ((7, 0) : key) := Some 1%nat ]} ∅
         "%PDF 7 0 obj /Seven endobj" 26 20 {[ ((7, 0) : key) := 5 ]} [] [].

(** The warning of a load that finds no offset. *)
Definition not_found : diag := Warning "Did not find PDF object".

(** ** Token sequences *)

(** [reads data p toks p']: reading [data] from position [p] gives the
    tokens [toks] one after the other and leaves the cursor at [p']. *)
Inductive reads `{Tokenizer} (data : string) : Z -> list string -> Z -> Prop :=
| reads_nil p : reads data p [] p
| reads_cons p tok start stop toks p' :
    tok_next data p = Some (tok, start, stop) ->
    reads data stop toks p' ->
    reads data p (tok :: toks) p'.

(** A token that the array parser stores as it is. *)
Definition plain (tok : string) : Prop :=
  in_bracket_R tok = false /\ special tok = None.

(** The text of a value that is a token object. *)
Definition text_at (r : reader) (v : pyval) : option string :=
  match v with
  | None => None
  | Some l =>
      match heap r !! l with
      | Some (HObj (PdfObject t) _) => Some t
      | _ => None
      end
  end.

(** The text stored in a dictionary under a key. *)
Definition entry_text (r : reader) (d : gmap string loc) (k : string) : option string :=
  text_at r (d !! k).

(** The value of the last pair of a list that has the key [k]. *)
Fixpoint last_value (pairs : list (string * string)) (k : string) : option string :=
  match pairs with
  | [] => None
  | (k', v) :: rest =>
      match last_value rest k with
      | Some v' => Some v'
      | None => if String.eqb k' k then Some v else None
      end
  end.

(** The tokens of a dictionary body: key, value, key, value, ... *)
Fixpoint pair_tokens (pairs : list (string * string)) : list string :=
  match pairs with
  | [] => []
  | (k, v) :: rest => k :: v :: pair_tokens rest
  end.

(** An object whose value token has [endobj] glued to it. *)
Definition glued_endobj : reader :=
  Reader [HObj (PdfIndirect (7, 0)) None]
         {[ ((7, 0) : key) := Some 0%nat ]} {[ ((7, 0) : key) ]}
         "%PDF 7 0 obj 42endobj 8 0 obj" 0 0 {[ ((7, 0) : key) := 5 ]} [] [].

(** An object with no value between [obj] and [endobj]. *)
Definition empty_object : reader :=
  Reader [HObj (PdfIndirect (7, 0)) None]
         {[ ((7, 0) : key) := Some 0%nat ]} {[ ((7, 0) : key) ]}
         "%PDF 7 0 obj endobj" 0 0 {[ ((7, 0) : key) := 5 ]} [] [].

(** The table holds a loaded value for [k], and [k] is not deferred. *)
Definition resolved (k : key) (r : reader) : Prop :=
  exists l, stored k l r /\ k ∉ deferred_objects r.

(** The tokens of the entry lines of a classic table: offset, generation
    and flag of each line. *)
Fixpoint row_tokens (rows : list (string * string * string)) : list string :=
  match rows with
  | [] => []
  | (o, g, flag) :: rest => o :: g :: flag :: row_tokens rest
  end.

(** A line all of whose fields can be read. *)
Definition good_row (row : string * string * string) : Prop :=
  let '(o, g, flag) := row in
  (exists z, Py.int o = Some z) /\ (exists z, Py.int g = Some z) /\
  (flag = "n" \/ flag = "f").

(** Line [i] of a subsection that starts at object number [first] is an
    in-use line for the identity [k], with the offset [o], not zero. *)
Definition row_at (first : Z) (rows : list (string * string * string))
                  (k : key) (o : Z) : Prop :=
  exists (i : nat) (to tg : string),
    rows !! i = Some (to, tg, "n") /\ Py.int to = Some o /\ o <> 0 /\
    Py.int tg = Some (snd k) /\ fst k = first + Z.of_nat i.

(** A classic section: a table with one subsection of three lines and a
    trailer dictionary. *)
Definition one_subsection : reader :=
  empty_reader ("xref 4 3 0000000017 00000 n 0000000000 65535 f 0000000081 00002 n "
                +:+ "trailer << /Size 7 /Root /none >> startxref").

(** A computation from which no exception escapes. *)
Definition never_raises {A} (m : M A) : Prop :=
  forall r e r', m r <> Raise e r'.

(** A table whose only entry line cannot be read, with no [trailer]. *)
Definition broken_table : reader :=
  set_floc 4 (empty_reader "xref 0 1 junk").

(** * Properties *)

(** ** The Python built-ins on small inputs *)

Example slice_negative_start : Py.slice "abcdef" (-2) 6 = "ef".
Proof. reflexivity. Qed.

Example slice_clipped : Py.slice "abcdef" 4 100 = "ef".
Proof. reflexivity. Qed.

Example find_in_window : Py.find "xxendstreamyy" "endstream" 0 13 = 2.
Proof. reflexivity. Qed.

Example find_outside_window : Py.find "xxendstreamyy" "endstream" 0 10 = -1.
Proof. reflexivity. Qed.

Example rfind_last : Py.rfind "trailer x trailer y" "trailer" 0 = 10.
Proof. reflexivity. Qed.

Example int_signed : Py.int "-12" = Some (-12).
Proof. reflexivity. Qed.

Example int_of_name : Py.int "/Name" = None.
Proof. reflexivity. Qed.

Example isdigit_signed : Py.isdigit "-12" = false.
Proof. reflexivity. Qed.

Example split_line : Py.split " 0000000100  00000 n " = ["0000000100"; "00000"; "n"].
Proof. reflexivity. Qed.

Example words_tokens :
  words_next "1 0 obj" 1 = Some ("0", 2, 3).
Proof. reflexivity. Qed.

(** ** Running monadic code *)

Lemma bind_Ok {A B} (m : M A) (f : A -> M B) r b r' :
  (m ≫= f) r = Ok b r' -> exists a r1, m r = Ok a r1 /\ f a r1 = Ok b r'.
Proof.
  unfold mbind, M_bind. destruct (m r) as [a r1| |]; try discriminate. eauto.
Qed.

Lemma bind_run {A B} (m : M A) (f : A -> M B) r a r1 :
  m r = Ok a r1 -> (m ≫= f) r = f a r1.
Proof. unfold mbind, M_bind. intros ->. reflexivity. Qed.

Lemma ret_Ok {A} (a b : A) r r' : (mret a : M A) r = Ok b r' -> a = b /\ r = r'.
Proof. unfold mret, M_ret. intros [= -> ->]. auto. Qed.

Lemma modify_Ok f r u r' : modify f r = Ok u r' -> r' = f r.
Proof. unfold modify. intros [= _ <-]. reflexivity. Qed.

Lemma get_reader_Ok r a r' : get_reader r = Ok a r' -> a = r /\ r' = r.
Proof. unfold get_reader. intros [= <- <-]. auto. Qed.

Lemma raise_Ok {A} e r (a : A) r' : raise e r = Ok a r' -> False.
Proof. discriminate. Qed.

Lemma out_of_fuel_Ok {A} r (a : A) r' : out_of_fuel r = Ok a r' -> False.
Proof. discriminate. Qed.

(** Inversion of a successful run, one construct at a time. *)
Ltac inv_step :=
  match goal with
  | H : (_ ≫= _) _ = Ok _ _ |- _ =>
      let a := fresh "a" in let r := fresh "r" in
      let H1 := fresh "Hrun" in let H2 := fresh "Hrun" in
      apply bind_Ok in H; destruct H as (a & r & H1 & H2)
  | H : @mret M _ _ _ _ = Ok _ _ |- _ => apply ret_Ok in H; destruct H; simplify_eq
  | H : modify _ _ = Ok _ _ |- _ => apply modify_Ok in H; subst
  | H : get_reader _ = Ok _ _ |- _ => apply get_reader_Ok in H; destruct H; subst
  | H : raise _ _ = Ok _ _ |- _ => discriminate H
  | H : exception _ _ = Ok _ _ |- _ => discriminate H
  | H : badtoken _ = Ok _ _ |- _ => discriminate H
  | H : out_of_fuel _ = Ok _ _ |- _ => discriminate H
  | H : Ok _ _ = Ok _ _ |- _ => injection H as ?; subst
  | H : Raise _ _ = Ok _ _ |- _ => discriminate H
  | H : OutOfFuel = Ok _ _ |- _ => discriminate H
  end.

Ltac inv_run := repeat inv_step.

(** Case analysis on the test that guards a run. *)
Ltac inv_case :=
  match goal with
  | H : (if ?c then _ else _) _ = Ok _ _ |- _ =>
      let E := fresh "Ecase" in destruct c eqn:E
  | H : (match ?c with _ => _ end) _ = Ok _ _ |- _ =>
      let E := fresh "Ecase" in destruct c eqn:E
  | H : (let '(_, _) := ?c in _) _ = Ok _ _ |- _ =>
      let E := fresh "Ecase" in destruct c eqn:E
  end.

Ltac inv_all := repeat (inv_step || inv_case).

(** ** How the reader state evolves while objects are parsed and loaded *)


Lemma evolves_refl r : evolves r r.
Proof. split; eauto. Qed.

Lemma evolves_trans r1 r2 r3 : evolves r1 r2 -> evolves r2 r3 -> evolves r1 r3.
Proof.
  intros [f1 o1 h1 s1 d1] [f2 o2 h2 s2 d2]. split.
  - congruence.
  - congruence.
  - intros l o Hl. destruct (h1 l o Hl) as (o' & Hl' & E').
    destruct (h2 l o' Hl') as (o'' & Hl'' & E''). exists o''. split; congruence.
  - eauto.
  - eauto.
Qed.

Lemma stored_not_pending k l p r : stored k l r -> pending k p r -> False.
Proof.
  intros [Ht (o & Ho & Ei)] [Ht' (o' & Ho' & Ei')].
  rewrite Ht in Ht'. injection Ht' as <-. rewrite Ho in Ho'.
  injection Ho' as <-. congruence.
Qed.


Lemma keeps_ret {A} (a : A) : keeps (mret a : M A).
Proof. intros r b r' Hrun. inv_run. apply evolves_refl. Qed.

Lemma keeps_bind {A B} (m : M A) (f : A -> M B) :
  keeps m -> (forall a, keeps (f a)) -> keeps (m ≫= f).
Proof.
  intros Hm Hf r b r' Hrun. inv_run.
  eapply evolves_trans; [eapply Hm | eapply Hf]; eauto.
Qed.

Lemma keeps_raise {A} e : keeps (raise e : M A).
Proof. intros r a r' Hrun. discriminate. Qed.

Lemma keeps_exception {A} msg : keeps (exception msg : M A).
Proof. apply keeps_raise. Qed.

Lemma keeps_out_of_fuel {A} : keeps (out_of_fuel : M A).
Proof. intros r a r' Hrun. discriminate. Qed.

Lemma keeps_get_reader : keeps get_reader.
Proof. intros r a r' Hrun. inv_run. apply evolves_refl. Qed.

(** Changes to the cursor, the log and the offset list are invisible. *)
Lemma evolves_same r r' :
  heap r' = heap r -> indirect_objects r' = indirect_objects r ->
  deferred_objects r' = deferred_objects r -> fdata r' = fdata r ->
  obj_offsets r' = obj_offsets r -> evolves r r'.
Proof.
  intros Hh Ht Hd Hf Ho. split; auto.
  - intros l o Hl. rewrite Hh. eauto.
  - intros k l [H1 H2]. split; [congruence | rewrite Hh; auto].
  - intros k l _. rewrite Hd. auto.
Qed.

Lemma keeps_set_floc p : keeps (modify (set_floc p)).
Proof. intros r a r' Hrun. inv_run. apply evolves_same; reflexivity. Qed.

Lemma keeps_rewind : keeps (modify (fun r => set_floc (tokstart r) r)).
Proof. intros r a r' Hrun. inv_run. apply evolves_same; reflexivity. Qed.

Lemma keeps_warning msg : keeps (warning msg).
Proof. intros r a r' Hrun. unfold warning in Hrun. inv_run. apply evolves_same; reflexivity. Qed.

Lemma keeps_error msg : keeps (error msg).
Proof. intros r a r' Hrun. unfold error in Hrun. inv_run. apply evolves_same; reflexivity. Qed.

Lemma keeps_deref l : keeps (deref l).
Proof.
  intros r a r' Hrun. unfold deref in Hrun.
  destruct (heap r !! l); inv_run. apply evolves_refl.
Qed.

Lemma deref_Ok l r o r' : deref l r = Ok o r' -> r' = r /\ heap r !! l = Some o.
Proof. unfold deref. destruct (heap r !! l); intros Hrun; inv_run. auto. Qed.

Lemma keeps_alloc b : keeps (alloc b).
Proof.
  intros r a r' Hrun. unfold alloc in Hrun. inv_run. split; try reflexivity.
  - intros l o Hl. exists o. split; [|reflexivity].
    cbn. apply lookup_app_l_Some. exact Hl.
  - intros k l [H1 (o & H2 & H3)]. split; [exact H1|].
    exists o. split; [|exact H3]. cbn. apply lookup_app_l_Some. exact H2.
  - intros k l _ Hd. exact Hd.
Qed.

Lemma alloc_Ok b r l r' :
  alloc b r = Ok l r' ->
  heap r' !! l = Some (HObj b None) /\ l = length (heap r) /\
  r' = set_heap (heap r ++ [HObj b None]) r.
Proof.
  unfold alloc. intros Hrun. inv_run. cbn. split; [|auto].
  rewrite lookup_app_r by lia. rewrite Nat.sub_diag. reflexivity.
Qed.

Section KeepsSource.
Context `{Tokenizer}.

Lemma keeps_next : keeps next.
Proof.
  intros r a r' Hrun. unfold next in Hrun.
  destruct (tok_next (fdata r) (floc r)) as [[[t s] e]|]; inv_run.
  apply evolves_same; reflexivity.
Qed.

Lemma keeps_iter_next : keeps iter_next.
Proof.
  intros r a r' Hrun. unfold iter_next in Hrun.
  destruct (tok_next (fdata r) (floc r)) as [[[t s] e]|]; inv_run.
  - apply evolves_same; reflexivity.
  - apply evolves_refl.
Qed.

Lemma keeps_multiple n : keeps (multiple n).
Proof.
  induction n as [|n IH]; cbn [multiple].
  - apply keeps_ret.
  - apply keeps_bind; [apply keeps_iter_next|]. intros [tok|].
    + apply keeps_bind; [exact IH|]. intros. apply keeps_ret.
    + apply keeps_ret.
Qed.
End KeepsSource.

Lemma int_of_token_Ok tok r z r' :
  int_of_token tok r = Ok z r' -> r' = r /\ Py.int tok = Some z.
Proof. unfold int_of_token. destruct (Py.int tok); intros Hrun; inv_run; auto. Qed.

(** Inversion of the primitives that leave the state alone. *)
Ltac inv_prim :=
  match goal with
  | H : deref _ _ = Ok _ _ |- _ =>
      let E := fresh "Hderef" in apply deref_Ok in H as [-> E]
  | H : int_of_token _ _ = Ok _ _ |- _ =>
      let E := fresh "Hint" in apply int_of_token_Ok in H as [-> E]
  end.

Ltac inv_runs := repeat (inv_step || inv_prim).

Lemma py_int_Ok a r z r' : py_int a r = Ok z r' -> r' = r.
Proof.
  destruct a as [z0|tok|[l|]]; cbn [py_int]; intros Hrun.
  - inv_runs. reflexivity.
  - inv_runs. reflexivity.
  - inv_runs. destruct (body a); try discriminate. inv_runs. reflexivity.
  - discriminate.
Qed.

Lemma keeps_py_int a : keeps (py_int a).
Proof. intros r z r' Hrun. apply py_int_Ok in Hrun as ->. apply evolves_refl. Qed.

Lemma keeps_update_body l f :
  (forall b, is_ind (f b) = is_ind b) -> keeps (update_body l f).
Proof.
  intros Hf r a r' Hrun. unfold update_body in Hrun. inv_runs.
  rename Hderef into Hl. split; try reflexivity.
  - intros l' o Hl'. cbn. destruct (decide (l = l')) as [<-|Hne].
    + rewrite list_lookup_insert_eq by (eapply lookup_lt_Some; eauto).
      eexists. split; [reflexivity|]. cbn. rewrite Hf. congruence.
    + rewrite list_lookup_insert_ne by exact Hne. eauto.
  - intros k l' [H1 (o & H2 & H3)]. split; [exact H1|]. cbn.
    destruct (decide (l = l')) as [<-|Hne].
    + rewrite list_lookup_insert_eq by (eapply lookup_lt_Some; eauto).
      eexists. split; [reflexivity|]. cbn. rewrite Hf. congruence.
    + rewrite list_lookup_insert_ne by exact Hne. eauto.
  - intros k l' _ Hd. exact Hd.
Qed.

Lemma keeps_set_indirect v k : keeps (set_indirect v k).
Proof.
  destruct v as [l|]; cbn [set_indirect]; [|apply keeps_raise].
  intros r a r' Hrun. inv_runs. rename Hderef into Hl.
  split; try reflexivity.
  - intros l' o Hl'. cbn. destruct (decide (l = l')) as [<-|Hne].
    + rewrite list_lookup_insert_eq by (eapply lookup_lt_Some; eauto).
      eexists. split; [reflexivity|]. cbn. congruence.
    + rewrite list_lookup_insert_ne by exact Hne. eauto.
  - intros k' l' [H1 (o & H2 & H3)]. split; [exact H1|]. cbn.
    destruct (decide (l = l')) as [<-|Hne].
    + rewrite list_lookup_insert_eq by (eapply lookup_lt_Some; eauto).
      eexists. split; [reflexivity|]. cbn. congruence.
    + rewrite list_lookup_insert_ne by exact Hne. eauto.
  - intros k' l' _ Hd. exact Hd.
Qed.

Lemma keeps_deferred_remove k : keeps (deferred_remove k).
Proof.
  intros r a r' Hrun. unfold deferred_remove in Hrun.
  destruct (bool_decide (k ∈ deferred_objects r)); inv_run.
  split; try reflexivity; eauto.
  intros k' l _ Hd. cbn. set_solver.
Qed.

Lemma table_get_None_not_stored k l r : table_get k r = None -> ~ stored k l r.
Proof. unfold table_get. intros Hg [Ht _]. rewrite Ht in Hg. discriminate. Qed.

Lemma keeps_findindirect a b : keeps (findindirect a b).
Proof.
  intros r l r' Hrun. unfold findindirect in Hrun. inv_run.
  repeat match goal with
         | H : py_int _ _ = Ok _ _ |- _ => apply py_int_Ok in H; subst
         end.
  match goal with
  | H : match table_get ?k ?r0 with _ => _ end _ = Ok _ _ |- _ =>
      destruct (table_get k r0) eqn:Eg
  end; inv_run; [apply evolves_refl|].
  match goal with
  | H : alloc _ _ = Ok _ _ |- _ => apply alloc_Ok in H as (Hl & -> & ->)
  end.
  split; try reflexivity.
  - intros l o Ho. exists o. split; [|reflexivity]. cbn.
    apply lookup_app_l_Some. exact Ho.
  - intros k l Hs. pose proof (table_get_None_not_stored _ l _ Eg) as Hn.
    destruct Hs as [H1 (o & H2 & H3)]. split.
    + cbn. rewrite lookup_insert_ne; [exact H1|].
      intros <-. apply Hn. split; eauto.
    + exists o. split; [|exact H3]. cbn. apply lookup_app_l_Some. exact H2.
  - intros k l Hs Hd. pose proof (table_get_None_not_stored _ l _ Eg) as Hn.
    cbn. match goal with
         | |- k ∉ {[?k0]} ∪ _ => assert (k <> k0) by (intros ->; exact (Hn Hs))
         end. set_solver.
Qed.

Lemma keeps_empty_obj : keeps empty_obj.
Proof.
  unfold empty_obj. apply keeps_bind; [apply keeps_rewind|].
  intros. apply keeps_ret.
Qed.

Lemma keeps_pop result : keeps (pop result).
Proof.
  unfold pop. destruct (reverse result); [apply keeps_raise|apply keeps_ret].
Qed.

Create HintDb keeps.

#[local] Hint Resolve keeps_ret keeps_raise keeps_exception keeps_out_of_fuel
  keeps_get_reader keeps_set_floc keeps_rewind keeps_warning keeps_error
  keeps_deref keeps_alloc keeps_py_int keeps_set_indirect keeps_deferred_remove
  keeps_findindirect keeps_empty_obj keeps_pop : keeps.

(** Goal-directed decomposition of a [keeps] goal along the code. *)
Ltac keeps_auto :=
  repeat first
    [ solve [auto with keeps]
    | apply keeps_update_body; intros []; reflexivity
    | apply keeps_bind; [|intros ?]
    | match goal with
      | |- keeps (if ?c then _ else _) => destruct c
      | |- keeps (match ?c with _ => _ end) => destruct c
      | |- keeps badtoken => apply keeps_exception
      end ].

Section KeepsParser.
Context `{Tokenizer}.

#[local] Hint Resolve keeps_next keeps_iter_next keeps_multiple : keeps.

Lemma keeps_parser fuel :
  (forall result, keeps (readarray fuel result)) /\
  (forall first tok d, keeps (readdict_loop fuel first tok d)).
Proof.
  induction fuel as [|fuel [IHa IHd]]; split; intros; cbn [readarray readdict_loop];
    keeps_auto.
Qed.

Lemma keeps_readdict fuel : keeps (readdict fuel).
Proof. apply keeps_parser. Qed.

Lemma keeps_read_value fuel tok : keeps (read_value fuel tok).
Proof.
  unfold read_value. pose proof (keeps_parser fuel) as [Ha Hd].
  pose proof (keeps_readdict fuel). keeps_auto.
Qed.
End KeepsParser.


Lemma kf_lift r0 {A} (m : M A) : keeps m -> keeps_from r0 m.
Proof. intros Hm r a r' E Hrun. eapply evolves_trans; [exact E|]. eapply Hm; eauto. Qed.

Lemma kf_bind r0 {A B} (m : M A) (f : A -> M B) :
  keeps_from r0 m -> (forall a, keeps_from r0 (f a)) -> keeps_from r0 (m ≫= f).
Proof. intros Hm Hf r b r' E Hrun. inv_run. eapply Hf; [|eauto]. eapply Hm; eauto. Qed.

(** Storing a value for [k] is invisible from a state where [k] had no
    loaded value. *)
Lemma kf_table_set r0 k v :
  (forall l, ~ stored k l r0) -> keeps_from r0 (table_set k v).
Proof.
  intros Hn r a r' [f o h s d] Hrun. unfold table_set in Hrun. inv_run.
  split; [exact f | exact o | exact h | | ].
  - intros k' l Hs. destruct (s k' l Hs) as [H1 H2]. split; [|exact H2].
    cbn. rewrite lookup_insert_ne; [exact H1|]. intros <-. exact (Hn l Hs).
  - intros k' l Hs Hd. exact (d k' l Hs Hd).
Qed.

Lemma kf_run r0 {A} (m : M A) a r' :
  keeps_from r0 m -> m r0 = Ok a r' -> evolves r0 r'.
Proof. intros Hm Hrun. exact (Hm r0 a r' (evolves_refl r0) Hrun). Qed.

Ltac kf_auto :=
  repeat first
    [ apply kf_table_set; assumption
    | apply kf_lift; solve [auto with keeps]
    | apply kf_bind; [|intros ?]
    | match goal with
      | |- keeps_from _ (if ?c then _ else _) => destruct c
      | |- keeps_from _ (match ?c with _ => _ end) => destruct c
      end ].

Lemma is_indirect_Ok v r b r' :
  is_indirect v r = Ok b r' ->
  r' = r /\
  (b = true -> exists l o, v = Some l /\ heap r !! l = Some o /\ is_ind (body o) = true) /\
  (b = false -> forall l, v = Some l ->
     exists o, heap r !! l = Some o /\ is_ind (body o) = false).
Proof.
  destruct v as [l|]; cbn [is_indirect]; intros Hrun; inv_runs.
  - split; [reflexivity|]. split.
    + intros Hb. exists l, a. split; [reflexivity|]. split; [assumption|].
      destruct (body a); first [reflexivity | discriminate].
    + intros Hb l' [= <-]. exists a. split; [assumption|].
      destruct (body a); first [reflexivity | discriminate].
  - split; [reflexivity|]. split; [discriminate|]. intros _ l [=].
Qed.

Lemma keeps_is_indirect v : keeps (is_indirect v).
Proof. intros r b r' Hrun. apply is_indirect_Ok in Hrun as [-> _]. apply evolves_refl. Qed.

Lemma keeps_is_dict v : keeps (is_dict v).
Proof.
  destruct v as [l|]; cbn [is_dict]; keeps_auto.
Qed.

#[local] Hint Resolve keeps_is_indirect keeps_is_dict : keeps.

Section KeepsLoader.
Context `{Tokenizer}.

#[local] Hint Resolve keeps_next keeps_iter_next keeps_multiple keeps_read_value : keeps.

Lemma keeps_findstream tok : keeps (findstream tok).
Proof. unfold findstream. keeps_auto. Qed.

Lemma keeps_set_raw_stream l data : keeps (set_raw_stream l data).
Proof. apply keeps_update_body. intros []; reflexivity. Qed.

Lemma keeps_set_stream l data : keeps (set_stream l data).
Proof.
  unfold set_stream. apply keeps_bind; [auto with keeps|]. intros n.
  apply keeps_update_body. intros []; reflexivity.
Qed.

Lemma keeps_getattr load l name :
  (forall k, keeps (load k)) -> keeps (getattr load l name).
Proof.
  intros Hload. unfold getattr. keeps_auto.
Qed.

#[local] Hint Resolve keeps_findstream keeps_set_raw_stream keeps_set_stream : keeps.

Lemma keeps_readstream load obj startstream :
  (forall k, keeps (load k)) -> keeps (readstream load obj startstream).
Proof.
  intros Hload. pose proof (fun l n => keeps_getattr load l n Hload).
  unfold readstream, repair_stream. keeps_auto.
Qed.

Lemma keeps_read_header k offset : keeps (read_header k offset).
Proof. unfold read_header. keeps_auto. Qed.

#[local] Hint Resolve keeps_read_header : keeps.

Lemma keeps_loadindirect fuel : forall k, keeps (loadindirect fuel k).
Proof.
  induction fuel as [|fuel IH]; intros k; cbn [loadindirect]; [apply keeps_out_of_fuel|].
  pose proof (fun l s => keeps_readstream (loadindirect fuel) l s IH) as Hrs.
  intros r a r' Hrun.
  apply bind_Ok in Hrun as (r1 & r2 & Hg & Hrun).
  apply get_reader_Ok in Hg as [-> ->].
  apply bind_Ok in Hrun as (isind & r2 & Hi & Hrun).
  apply is_indirect_Ok in Hi as (-> & Ht & _).
  destruct isind; cbn [negb] in Hrun; [|inv_run; apply evolves_refl].
  destruct (Ht eq_refl) as (p & o & Hg & Hp & Hi).
  assert (Hns : forall l, ~ stored k l r).
  { intros l Hs. apply (stored_not_pending k l p r Hs). split; eauto.
    unfold table_get in Hg. destruct (indirect_objects r !! k) as [v|]; congruence. }
  refine (kf_run _ _ _ _ _ Hrun). kf_auto.
Qed.
End KeepsLoader.

(** ** The chain merge: the newest section wins *)

Lemma merge_offsets_cons base s0 more :
  merge_offsets base (s0 :: more) = s0 ∪ merge_offsets base more.
Proof.
  unfold merge_offsets. rewrite reverse_cons, foldl_app. reflexivity.
Qed.

Lemma merge_offsets_newest base s0 more (k : key) (o : Z) :
  s0 !! k = Some o -> merge_offsets base (s0 :: more) !! k = Some o.
Proof.
  intros Hk. rewrite merge_offsets_cons. apply lookup_union_Some_l. exact Hk.
Qed.

(** A section that lacks the identity lets the next older one through. *)
Lemma merge_offsets_older base s0 more (k : key) :
  s0 !! k = None ->
  merge_offsets base (s0 :: more) !! k = merge_offsets base more !! k.
Proof.
  intros Hk. rewrite merge_offsets_cons. apply lookup_union_r. exact Hk.
Qed.

Lemma keeps_setattr l name v : keeps (setattr l name v).
Proof. apply keeps_update_body. intros []; reflexivity. Qed.

Lemma keeps_dict_update l other : keeps (dict_update l other).
Proof.
  unfold dict_update, dict_entries. keeps_auto.
Qed.

Section ChainFacts.
Context `{Tokenizer} `{Uncompress} `{Floats}.

(** The loop only ever appends to [xref_list]. *)
Lemma xref_loop_appends fuel : forall xl ot r t xl' ot' r',
  xref_loop fuel xl ot r = Ok (t, xl', ot') r' -> exists more, xl' = xl ++ more.
Proof.
  induction fuel as [|fuel IH]; intros xl ot r t xl' ot' r' Hrun;
    cbn [xref_loop] in Hrun; [discriminate|].
  inv_run.
  match goal with
  | H : match ?tv with Some _ => _ | None => _ end _ = Ok _ _ |- _ =>
      destruct tv as [trailer|]; [|discriminate H]
  end.
  inv_run.
  match goal with
  | H : match ?prev with Some _ => _ | None => _ end _ = Ok _ _ |- _ =>
      destruct prev as [p|]
  end.
  - inv_run.
    match goal with
    | H : xref_loop fuel _ _ _ = Ok _ _ |- _ => apply IH in H as [more ->]
    end.
    eexists. rewrite <- app_assoc. reflexivity.
  - inv_run. exists []. rewrite app_nil_r. reflexivity.
Qed.

(** ** C1 *)

(** C1.  Let the newest section S0 be the first one the load parses (into
    an empty offset map).  Whatever older sections the Prev chain then
    brings in, every identity that S0 records keeps the offset S0 gave
    it in the merged object-offset map. *)
Theorem newest_section_offset_wins fuel (r r1 r' : reader) (tv : pyval)
    (trailer : loc) (k : key) (o : Z) :
  (modify (set_obj_offsets ∅);; parsexref fuel (loadindirect fuel)) r = Ok tv r1 ->
  obj_offsets r1 !! k = Some o ->
  merge_chain (S fuel) r = Ok trailer r' ->
  obj_offsets r' !! k = Some o.
Proof.
  intros Hfirst Hk Hrun. unfold merge_chain in Hrun.
  apply bind_Ok in Hrun as ([[t xl] ot] & r2 & Hloop & Hrun).
  cbn [xref_loop] in Hloop.
  apply bind_Ok in Hfirst as (u & ra & Hm & Hp).
  apply bind_Ok in Hloop as (u' & ra' & Hm' & Hloop).
  rewrite Hm in Hm'. injection Hm' as <- <-.
  apply bind_Ok in Hloop as (tv' & r1' & Hp' & Hloop).
  rewrite Hp in Hp'. injection Hp' as <- <-.
  destruct tv as [tr|]; [|discriminate Hloop].
  apply bind_Ok in Hloop as (prev & r3 & Hprev & Hloop).
  assert (E13 : evolves r1 r3).
  { eapply keeps_getattr; [|exact Hprev]. apply keeps_loadindirect. }
  destruct prev as [p|].
  - (* a chain: S0 is the head of [xref_list] *)
    apply bind_Ok in Hloop as (orig & r4 & Ho & Hloop).
    assert (E34 : evolves r3 r4).
    { revert Ho. case_bool_decide; intros Ho.
      - inv_run.
        match goal with
        | Hs : setattr _ _ _ _ = Ok _ _ |- _ => exact (keeps_setattr _ _ _ _ _ _ Hs)
        end.
      - congruence. }
    apply bind_Ok in Hloop as (pz & r5 & Hpz & Hloop).
    apply py_int_Ok in Hpz as ->.
    inv_run.
    match goal with
    | Hl : xref_loop fuel _ _ _ = Ok _ _ |- _ =>
        apply xref_loop_appends in Hl as [more ->]
    end.
    cbn [app] in *. inv_run.
    match goal with
    | Hd : match _ with Some _ => _ | None => _ end _ = Ok _ _ |- _ =>
        destruct ot as [ot|]; [|discriminate Hd];
        apply keeps_dict_update in Hd; rewrite (ev_offsets _ _ Hd)
    end.
    cbn. apply merge_offsets_newest.
    rewrite (ev_offsets _ _ E34), (ev_offsets _ _ E13). exact Hk.
  - (* a single section *)
    apply bind_Ok in Hloop as (token & r4 & Hn & Hloop).
    apply keeps_next in Hn.
    apply bind_Ok in Hloop as (u2 & r5 & Hw & Hloop).
    assert (E45 : evolves r4 r5).
    { destruct (negb (String.eqb token "startxref") && bool_decide ([] = []));
        [eapply keeps_warning|eapply keeps_ret]; exact Hw. }
    apply ret_Ok in Hloop as [Heq ->]. simplify_eq. cbn in Hrun. inv_run.
    rewrite (ev_offsets _ _ E45), (ev_offsets _ _ Hn), (ev_offsets _ _ E13). exact Hk.
Qed.
End ChainFacts.

Lemma newest_section_offset_wins_witness :
  exists trailer r',
    @merge_chain words no_filters 31 two_revisions_reader = Ok trailer r' /\
    obj_offsets r' !! ((1, 0) : key) = Some 201.
Proof.
  eexists _, _. split; [vm_compute; reflexivity|].
  eapply (@newest_section_offset_wins words no_filters 30 two_revisions_reader).
  - vm_compute. reflexivity.
  - vm_compute. reflexivity.
  - vm_compute. reflexivity.
Defined.

(** ** The merged trailer *)

Lemma update_body_Ok l f r u r' :
  update_body l f r = Ok u r' ->
  exists o, heap r !! l = Some o /\
            r' = set_heap (<[l := HObj (f (body o)) (indirect o)]> (heap r)) r.
Proof. unfold update_body. intros Hrun. inv_runs. eauto. Qed.

Lemma dict_set_dom (d : gmap string loc) name v :
  dom (dict_set d name v) ⊆ {[name]} ∪ dom d.
Proof.
  destruct v as [l|]; cbn [dict_set].
  - rewrite dom_insert_L. set_solver.
  - rewrite dom_delete_L. set_solver.
Qed.

Section TrailerFacts.
Context `{Tokenizer}.

Lemma final_trailer_keys fuel trailer r entries r' :
  final_trailer fuel trailer r = Ok entries r' ->
  dom entries ⊆ ({["/Root"; "/Info"; "/ID"]} : gset string).
Proof.
  unfold final_trailer. intros Hrun. inv_run.
  match goal with
  | |- dom (dict_set (dict_set (dict_set ∅ ?a ?x) ?b ?y) ?c ?z) ⊆ _ =>
      pose proof (dict_set_dom (dict_set (dict_set ∅ a x) b y) c z);
      pose proof (dict_set_dom (dict_set ∅ a x) b y);
      pose proof (dict_set_dom ∅ a x)
  end.
  set_solver.
Qed.

End TrailerFacts.



(** ** The page tree walker flattens in pre-order *)

Lemma andthen_Yields errs ps b errs' ps' :
  b tt = Pages.Yields errs' ps' ->
  Pages.andthen (Pages.Yields errs ps) b = Pages.Yields (errs ++ errs') (ps ++ ps').
Proof. intros Hb. unfold Pages.andthen. rewrite Hb. reflexivity. Qed.

Lemma readnode_to_value : forall t : Pages.ptree,
  Pages.readnode (Pages.to_value t) = Pages.Yields [] (Pages.flatten t).
Proof.
  fix IH 1. intros [extra|extra kids].
  - reflexivity.
  - cbn. induction kids as [|kid kids IHkids]; cbn.
    + reflexivity.
    + rewrite (IH kid). erewrite andthen_Yields by exact IHkids. reflexivity.
Qed.

(** C9.  For every page tree under a catalog the walker returns the pages
    in depth-first pre-order, each page once, and logs nothing. *)
Theorem readpages_flattens (extra : list (string * Pages.value)) (t : Pages.ptree) :
  Pages.readpages (Pages.catalog extra t) = ([], Pages.flatten t).
Proof.
  unfold Pages.readpages, Pages.catalog.
  cbn [Pages.readnode Pages.getitem Pages.is_name String.eqb Ascii.eqb Bool.eqb].
  cbn -[Pages.readnode Pages.to_value Pages.flatten].
  rewrite readnode_to_value. reflexivity.
Qed.

(** The example of the description: [A, B, C]. *)
Example readpages_A_B_C :
  Pages.readpages (Pages.catalog [] tree_A_BC)
  = ([], [Pages.to_value page_A; Pages.to_value page_B; Pages.to_value page_C]).
Proof. reflexivity. Qed.

(** A node of another type is logged and left out; its siblings stay. *)
Example readpages_skips_unknown :
  Pages.readpages
    (Pages.catalog []
       (Pages.PagesNode [] [page_A]))
  = ([], [Pages.to_value page_A]) /\
  Pages.readpages
    (Pages.VDict [("/Type", Pages.VObject "/Catalog");
                  ("/Pages", Pages.VDict [("/Type", Pages.VObject "/Pages");
                                          ("/Kids", Pages.VArray
                                             [Pages.VDict [("/Type", Pages.VObject "/Font")];
                                              Pages.to_value page_B])])])
  = (["Expected /Page or /Pages dictionary"], [Pages.to_value page_B]).
Proof. split; reflexivity. Qed.

(** ** Within one section the first entry wins *)


Lemma offsets_kept_refl r : offsets_kept r r.
Proof. intros k o Hk. exact Hk. Qed.

Lemma offsets_kept_trans r1 r2 r3 :
  offsets_kept r1 r2 -> offsets_kept r2 r3 -> offsets_kept r1 r3.
Proof. intros H12 H23 k o Hk. apply H23, H12, Hk. Qed.

Lemma offsets_kept_same r r' : obj_offsets r' = obj_offsets r -> offsets_kept r r'.
Proof. intros E k o Hk. rewrite E. exact Hk. Qed.

Lemma steady_ret {A} (a : A) : steady (mret a : M A).
Proof. intros r. apply offsets_kept_refl. Qed.

Lemma steady_raise {A} e : steady (raise e : M A).
Proof. intros r. apply offsets_kept_refl. Qed.

Lemma steady_exception {A} msg : steady (exception msg : M A).
Proof. intros r. apply offsets_kept_refl. Qed.

Lemma steady_out_of_fuel {A} : steady (out_of_fuel : M A).
Proof. intros r. exact I. Qed.

Lemma steady_bind {A B} (m : M A) (f : A -> M B) :
  steady m -> (forall a, steady (f a)) -> steady (m ≫= f).
Proof.
  intros Hm Hf r. specialize (Hm r). unfold mbind, M_bind.
  destruct (m r) as [a r1|e r1|]; cbn in *; [|exact Hm|exact I].
  specialize (Hf a r1). destruct (f a r1); cbn in *; eauto using offsets_kept_trans.
Qed.

Lemma steady_attempt {A} (m : M A) : steady m -> steady (attempt m).
Proof.
  intros Hm r. specialize (Hm r). unfold attempt. destruct (m r); exact Hm.
Qed.

Lemma steady_get_reader : steady get_reader.
Proof. intros r. apply offsets_kept_refl. Qed.

Lemma steady_set_floc p : steady (modify (set_floc p)).
Proof. intros r. apply offsets_kept_same. reflexivity. Qed.

Lemma steady_warning msg : steady (warning msg).
Proof. intros r. apply offsets_kept_same. reflexivity. Qed.

Lemma steady_error msg : steady (error msg).
Proof. intros r. apply offsets_kept_same. reflexivity. Qed.

Lemma steady_int_of_token tok : steady (int_of_token tok).
Proof. intros r. unfold int_of_token. destruct (Py.int tok); apply offsets_kept_refl. Qed.

Lemma steady_bound v : steady (bound v).
Proof. intros r. destruct v; apply offsets_kept_refl. Qed.

Lemma steady_hex_int d : steady (hex_int d).
Proof. intros r. destruct d; apply offsets_kept_refl. Qed.

Lemma setdefault_kept (k k' : key) (o o' : Z) (m : gmap key Z) :
  m !! k = Some o -> setdefault k' o' m !! k = Some o.
Proof.
  intros Hk. unfold setdefault. destruct (m !! k') eqn:E; [exact Hk|].
  rewrite lookup_insert_ne; [exact Hk|]. intros <-. congruence.
Qed.

Lemma setdefault_first (k : key) (o : Z) (m : gmap key Z) :
  m !! k = None -> setdefault k o m !! k = Some o.
Proof. intros Hk. unfold setdefault. rewrite Hk. apply lookup_insert_eq. Qed.

Lemma steady_record_offset k o : steady (record_offset k o).
Proof. intros r k' o' Hk. cbn. apply setdefault_kept. exact Hk. Qed.

Create HintDb steady.

#[local] Hint Resolve steady_ret steady_raise steady_exception steady_out_of_fuel
  steady_get_reader steady_set_floc steady_warning steady_error
  steady_int_of_token steady_bound steady_hex_int steady_record_offset : steady.

Ltac steady_auto :=
  repeat first
    [ solve [auto with steady]
    | apply steady_attempt
    | apply steady_bind; [|intros ?]
    | match goal with
      | |- steady (if ?c then _ else _) => destruct c
      | |- steady (match ?c with _ => _ end) => destruct c
      end ].

Section XrefFacts.
Context `{Tokenizer}.

Lemma steady_next : steady next.
Proof.
  intros r. unfold next. destruct (tok_next (fdata r) (floc r)) as [[[t s] e]|]; cbn.
  - apply offsets_kept_same. reflexivity.
  - apply offsets_kept_refl.
Qed.

#[local] Hint Resolve steady_next : steady.

Lemma steady_table_entry objnum : steady (table_entry objnum).
Proof. unfold table_entry. steady_auto. Qed.

#[local] Hint Resolve steady_table_entry : steady.

Lemma steady_table_rows cnt : forall objnum last, steady (table_rows cnt objnum last).
Proof. induction cnt as [|cnt IH]; intros; cbn [table_rows]; steady_auto. Qed.

#[local] Hint Resolve steady_table_rows : steady.

Lemma steady_table_strict fuel : forall last, steady (table_strict fuel last).
Proof. induction fuel as [|fuel IH]; intros; cbn [table_strict]; steady_auto. Qed.

Lemma steady_fallback_line line objnum : steady (fallback_line line objnum).
Proof. unfold fallback_line. steady_auto. Qed.

#[local] Hint Resolve steady_table_strict steady_fallback_line : steady.

Lemma steady_fallback_lines table : forall objnum, steady (fallback_lines table objnum).
Proof. induction table as [|line table IH]; intros; cbn [fallback_lines]; steady_auto. Qed.

#[local] Hint Resolve steady_fallback_lines : steady.

Lemma steady_parse_xref_table fuel : steady (parse_xref_table fuel).
Proof. unfold parse_xref_table. steady_auto. Qed.
End XrefFacts.

Lemma steady_xref_column i width di x : steady (xref_column i width di x).
Proof. unfold xref_column. steady_auto. Qed.

#[local] Hint Resolve steady_xref_column : steady.

Lemma steady_xref_columns stream sizes : forall i off x,
  steady (xref_columns stream i sizes off x).
Proof. induction sizes as [|w sizes IH]; intros; cbn [xref_columns]; steady_auto. Qed.

Lemma steady_xref_row_effect num x os : steady (xref_row_effect num x os).
Proof. unfold xref_row_effect. steady_auto. Qed.

#[local] Hint Resolve steady_xref_columns steady_xref_row_effect : steady.

Lemma steady_xref_rows stream sizes todo : forall num off x os,
  steady (xref_rows stream sizes todo num off x os).
Proof. induction todo as [|todo IH]; intros; cbn [xref_rows]; steady_auto. Qed.

#[local] Hint Resolve steady_xref_rows : steady.

Lemma steady_xref_subsections stream sizes pairs : forall x os,
  steady (xref_subsections stream sizes pairs x os).
Proof.
  induction pairs as [|[num size] pairs IH]; intros; cbn [xref_subsections]; steady_auto.
Qed.

Lemma after_mono {A} (x : outcome A) (P Q : reader -> Prop) :
  after x P -> (forall r, P r -> Q r) -> after x Q.
Proof. destruct x; cbn; auto. Qed.

(** The first in-use entry for an identity is recorded. *)
Lemma first_entry_recorded (k : key) (o : Z) (r : reader) :
  obj_offsets r !! k = None ->
  after (record_offset k o r) (fun r' => obj_offsets r' !! k = Some o).
Proof. intros Hk. cbn. apply setdefault_first. exact Hk. Qed.



(** Object 1 listed twice in one classic table: the first offset stays. *)
Example twice_listed_table :
  exists r',
    @parse_xref_table words 10 (empty_reader twice_listed) = Ok tt r' /\
    obj_offsets r' = {[ ((1, 0) : key) := 100 ]} /\ all_offsets r' = [100; 200].
Proof. eexists. split; [vm_compute; reflexivity|]. split; vm_compute; reflexivity. Qed.

(** An in-use entry with offset 0 records nothing, so the next entry for
    the identity is the first one recorded. *)
Example zero_offset_not_recorded :
  exists r',
    @parse_xref_table words 10
      (empty_reader "1 1 0000000000 00000 n 1 1 0000000200 00000 n trailer") = Ok tt r' /\
    obj_offsets r' = {[ ((1, 0) : key) := 200 ]} /\ all_offsets r' = [200].
Proof. eexists. split; [vm_compute; reflexivity|]. split; vm_compute; reflexivity. Qed.

(** The same in a cross-reference stream: [/Index [1 2 2 1]] lists object 2
    twice (each subsection reads the rows from the start of the stream). *)
Example twice_listed_stream :
  exists os r',
    xref_subsections stream_rows [1; 1; 1] [(1, 2); (2, 1)] unbound ∅ (empty_reader EmptyString)
      = Ok os r' /\
    obj_offsets r' = <[ ((1, 0) : key) := 16 ]> {[ ((2, 0) : key) := 32 ]} /\
    all_offsets r' = [16; 32; 16].
Proof. eexists _, _. split; [vm_compute; reflexivity|]. split; vm_compute; reflexivity. Qed.

(** ** Indirect references inside arrays *)

Lemma isdigit_int (s : string) :
  Py.isdigit s = true -> Py.int s = Some (Py.digits_value 0 s).
Proof.
  destruct s as [|c s]; [discriminate|].
  intros Hd. unfold Py.int.
  destruct c as [[] [] [] [] [] [] [] []]; try discriminate Hd; rewrite Hd; reflexivity.
Qed.

Lemma pop_last (pre : list pyval) (v : pyval) r :
  pop (pre ++ [v]) r = Ok (v, pre) r.
Proof.
  unfold pop. rewrite reverse_app, reverse_singleton. cbn [app].
  rewrite reverse_involutive. reflexivity.
Qed.

Lemma findindirect_entry a b r l r1 za zb :
  py_int a r = Ok za r -> py_int b r = Ok zb r ->
  findindirect a b r = Ok l r1 -> table_get (za, zb) r1 = Some l.
Proof.
  intros Ha Hb Hrun. unfold findindirect in Hrun.
  rewrite (bind_run _ _ _ _ _ Ha), (bind_run _ _ _ _ _ Hb) in Hrun.
  cbn beta in Hrun. apply bind_Ok in Hrun as (r0 & r0' & Hg & Hrun).
  apply get_reader_Ok in Hg as [-> ->].
  revert Hrun. destruct (table_get (za, zb) r) eqn:Eg; intros Hrun.
  - inv_run. exact Eg.
  - inv_run.
    match goal with
    | Ha : alloc _ _ = Ok _ _ |- _ => apply alloc_Ok in Ha as (_ & _ & ->)
    end.
    unfold table_get. cbn. rewrite lookup_insert_eq. reflexivity.
Qed.

(** The same for any two tokens that [int()] accepts. *)
Lemma R_collapses_int_pair `{Tokenizer} (fuel : nat) (pre : list pyval)
    (a b : loc) (ta tb : string) (za zb : Z) (ia ib : option key)
    (r : reader) (start stop : Z) :
  tok_next (fdata r) (floc r) = Some ("R", start, stop) ->
  heap r !! a = Some (HObj (PdfObject ta) ia) ->
  heap r !! b = Some (HObj (PdfObject tb) ib) ->
  Py.int ta = Some za -> Py.int tb = Some zb ->
  exists l r1,
    findindirect (AVal (Some a)) (AVal (Some b)) (set_floc stop (set_tokstart start r))
      = Ok l r1 /\
    table_get (za, zb) r1 = Some l /\
    readarray (S fuel) (pre ++ [Some a; Some b]) r
      = readarray fuel (pre ++ [Some l]) r1.
Proof.
  intros Htok Ha Hb Hda Hdb.
  set (r0 := set_floc stop (set_tokstart start r)).
  assert (Hia : py_int (AVal (Some a)) r0 = Ok za r0).
  { cbn. unfold mbind, M_bind, deref. cbn. rewrite Ha. cbn.
    unfold int_of_token. rewrite Hda. reflexivity. }
  assert (Hib : py_int (AVal (Some b)) r0 = Ok zb r0).
  { cbn. unfold mbind, M_bind, deref. cbn. rewrite Hb. cbn.
    unfold int_of_token. rewrite Hdb. reflexivity. }
  assert (Hf : exists l r1, findindirect (AVal (Some a)) (AVal (Some b)) r0 = Ok l r1).
  { unfold findindirect.
    rewrite (bind_run _ _ _ _ _ Hia), (bind_run _ _ _ _ _ Hib). cbn beta.
    unfold mbind at 1, M_bind at 1. cbn [get_reader].
    destruct (table_get (za, zb) r0); cbn; eauto. }
  destruct Hf as (l & r1 & Hf). exists l, r1. split; [exact Hf|]. split.
  - eapply findindirect_entry; eauto.
  - cbn [readarray]. unfold mbind at 1, M_bind at 1, iter_next. rewrite Htok.
    fold r0. cbn [in_bracket_R existsb String.eqb Ascii.eqb Bool.eqb orb].
    cbn match.
    replace (pre ++ [Some a; Some b]) with ((pre ++ [Some a]) ++ [Some b])
      by (rewrite <- app_assoc; reflexivity).
    rewrite (bind_run _ _ _ _ _ (pop_last _ _ _)). cbn match. cbn beta.
    rewrite (bind_run _ _ _ _ _ (pop_last _ _ _)). cbn match. cbn beta.
    rewrite (bind_run _ _ _ _ _ Hf). reflexivity.
Qed.

(** C7 (as the code has it).  When the two values accumulated last are
    digit-like tokens, an [R] token replaces them with the one indirect
    reference that [findindirect] hands out for (object number,
    generation number), and parsing goes on with it. *)
Theorem R_collapses_digit_pair `{Tokenizer} (fuel : nat) (pre : list pyval)
    (a b : loc) (ta tb : string) (ia ib : option key) (r : reader) (start stop : Z) :
  tok_next (fdata r) (floc r) = Some ("R", start, stop) ->
  heap r !! a = Some (HObj (PdfObject ta) ia) ->
  heap r !! b = Some (HObj (PdfObject tb) ib) ->
  Py.isdigit ta = true -> Py.isdigit tb = true ->
  exists l r1,
    findindirect (AVal (Some a)) (AVal (Some b)) (set_floc stop (set_tokstart start r))
      = Ok l r1 /\
    table_get (Py.digits_value 0 ta, Py.digits_value 0 tb) r1 = Some l /\
    readarray (S fuel) (pre ++ [Some a; Some b]) r
      = readarray fuel (pre ++ [Some l]) r1.
Proof.
  intros Htok Ha Hb Hda Hdb.
  exact (R_collapses_int_pair fuel pre a b ta tb _ _ ia ib r start stop Htok Ha Hb
           (isdigit_int _ Hda) (isdigit_int _ Hdb)).
Qed.

Lemma R_collapses_digit_pair_witness :
  exists l r1,
    findindirect (AVal (Some 0%nat)) (AVal (Some 1%nat))
                 (set_floc 1 (set_tokstart 0 array_before_R)) = Ok l r1 /\
    table_get (1, 0) r1 = Some l /\
    @readarray words 6 [Some 0%nat; Some 1%nat] array_before_R
      = @readarray words 5 [Some l] r1.
Proof.
  apply (@R_collapses_digit_pair words 5 [] 0%nat 1%nat "1" "0" None None
           array_before_R 0 1); reflexivity.
Defined.

(** The array [[-1 0 R]]: [-1] is not digit-like, and the pair is collapsed
    into the reference (-1, 0) all the same. *)
Lemma signed_pair_collapses :
  Py.isdigit "-1" = false /\
  exists l p r',
    @readarray words 10 [] (empty_reader "-1 0 R ]") = Ok (Some l) r' /\
    body <$> heap r' !! l = Some (PdfArray [Some p]) /\
    body <$> heap r' !! p = Some (PdfIndirect (-1, 0)).
Proof.
  split; [reflexivity|]. eexists _, _, _.
  split; [vm_compute; reflexivity|]. split; vm_compute; reflexivity.
Defined.

(** ** Stream extraction: searching for [endstream] *)

Lemma drop_drop n m s : Py.drop n (Py.drop m s) = Py.drop (n + m) s.
Proof.
  revert s. induction m as [|m IH]; intros s.
  - rewrite Nat.add_0_r. reflexivity.
  - rewrite Nat.add_succ_r. destruct s as [|c s]; cbn.
    + destruct n; reflexivity.
    + apply IH.
Qed.

Lemma substring_drop n m s : String.substring n m s = String.substring 0 m (Py.drop n s).
Proof.
  revert s. induction n as [|n IH]; intros s; [reflexivity|].
  destruct s as [|c s]; cbn [Py.drop].
  - destruct m; reflexivity.
  - cbn [String.substring]. apply IH.
Qed.

Lemma length_drop n s : String.length (Py.drop n s) = (String.length s - n)%nat.
Proof.
  revert s. induction n as [|n IH]; intros s; cbn.
  - lia.
  - destruct s as [|c s]; cbn; [reflexivity|apply IH].
Qed.

Lemma prefix_length sub s :
  String.prefix sub s = true -> (String.length sub <= String.length s)%nat.
Proof.
  revert s. induction sub as [|c sub IH]; intros s Hp; cbn; [lia|].
  destruct s as [|c' s]; cbn in Hp; [discriminate|].
  destruct (ascii_dec c c'); [|discriminate]. specialize (IH s Hp). cbn. lia.
Qed.

(** A hit of the search loop is an occurrence of [sub]. *)
Lemma find_loop_hit sub : forall n rest i j,
  Py.find_loop sub rest i n = j -> j <> -1 -> 0 <= i ->
  exists d : nat, j = i + Z.of_nat d /\ String.prefix sub (Py.drop d rest) = true.
Proof.
  induction n as [|n IH]; intros rest i j Hf Hj Hi; cbn in Hf; [lia|].
  destruct (String.prefix sub rest) eqn:Ep.
  - exists 0%nat. split; [lia|exact Ep].
  - destruct rest as [|c rest]; [lia|].
    destruct (IH rest (i + 1) j Hf Hj ltac:(lia)) as (d & -> & Hd).
    exists (S d). split; [lia|exact Hd].
Qed.

Lemma norm_range n i : 0 <= n -> 0 <= Py.norm n i <= n.
Proof. intros Hn. unfold Py.norm. destruct (i <? 0) eqn:E; lia. Qed.

Lemma len_nonneg s : 0 <= Py.len s.
Proof. unfold Py.len. lia. Qed.

Lemma slice_in_range s j n :
  0 <= j -> 0 <= n -> j + n <= Py.len s ->
  Py.slice s j (j + n) = String.substring (Z.to_nat j) (Z.to_nat n) s.
Proof.
  intros Hj Hn Hle. unfold Py.slice, Py.norm.
  destruct (j <? 0) eqn:E1; [lia|]. destruct (j + n <? 0) eqn:E2; [lia|].
  rewrite !Z.min_l by lia. f_equal. lia.
Qed.

(** [find] answers -1 or the position of an occurrence inside the text,
    not before [start]. *)
Lemma find_hit s sub start stop j :
  Py.find s sub start stop = j -> j <> -1 -> 0 <= start -> sub <> EmptyString ->
  start <= j /\ Py.slice s j (j + Py.len sub) = sub.
Proof.
  intros Hf Hj Hs Hsub. unfold Py.find in Hf.
  pose proof (norm_range (Py.len s) start (len_nonneg s)) as Ha.
  set (a := Py.norm (Py.len s) start) in *.
  apply find_loop_hit in Hf as (d & -> & Hp); [|exact Hj|lia].
  rewrite drop_drop in Hp.
  pose proof (prefix_length _ _ Hp) as Hl. rewrite length_drop in Hl.
  assert (0 < Py.len sub).
  { unfold Py.len. destruct sub; [congruence|cbn; lia]. }
  assert (Hin : a + Z.of_nat d + Py.len sub <= Py.len s).
  { unfold Py.len in *. lia. }
  split.
  - subst a. unfold Py.norm in *. destruct (start <? 0) eqn:E; lia.
  - rewrite slice_in_range by (try apply len_nonneg; lia).
    rewrite substring_drop. unfold Py.len. rewrite Nat2Z.id.
    replace (Z.to_nat (a + Z.of_nat d)) with (d + Z.to_nat a)%nat by lia.
    apply String.prefix_correct. exact Hp.
Qed.

Lemma find_loop_range sub : forall n rest i,
  0 <= i -> Py.find_loop sub rest i n = -1 \/ 0 <= Py.find_loop sub rest i n.
Proof.
  induction n as [|n IH]; intros rest i Hi; cbn; [auto|].
  destruct (String.prefix sub rest); [right; lia|].
  destruct rest; [auto|]. apply IH. lia.
Qed.

Lemma find_range s sub start stop :
  Py.find s sub start stop = -1 \/ 0 <= Py.find s sub start stop.
Proof.
  unfold Py.find. apply find_loop_range.
  apply norm_range, len_nonneg.
Qed.

(** Nothing to find, nothing found. *)
Lemma find_absent s sub start stop :
  0 <= start -> sub <> EmptyString ->
  (forall i, start <= i -> Py.slice s i (i + Py.len sub) <> sub) ->
  Py.find s sub start stop = -1.
Proof.
  intros Hs Hsub Hno. destruct (Z.eq_dec (Py.find s sub start stop) (-1)) as [E|E];
    [exact E|].
  destruct (find_hit s sub start stop _ eq_refl E Hs Hsub) as [Hle Heq].
  exfalso. exact (Hno _ Hle Heq).
Qed.

Lemma find_loop_shorter sub : forall n n' rest i,
  Py.find_loop sub rest i n = -1 -> (n' <= n)%nat -> 0 <= i ->
  Py.find_loop sub rest i n' = -1.
Proof.
  induction n as [|n IH]; intros n' rest i Hf Hle Hi.
  - replace n' with 0%nat by lia. reflexivity.
  - destruct n' as [|n']; [reflexivity|]. cbn in *.
    destruct (String.prefix sub rest); [lia|].
    destruct rest; [reflexivity|]. apply (IH n'); [exact Hf|lia|lia].
Qed.

(** What is not found up to the end of the text is not found in a window. *)
Lemma find_window_absent s sub start stop :
  Py.find s sub start (Py.len s) = -1 -> Py.find s sub start stop = -1.
Proof.
  unfold Py.find. intros Hf.
  pose proof (norm_range (Py.len s) start (len_nonneg s)).
  pose proof (norm_range (Py.len s) stop (len_nonneg s)).
  pose proof (norm_range (Py.len s) (Py.len s) (len_nonneg s)).
  eapply find_loop_shorter; [exact Hf| |lia].
  assert (Py.norm (Py.len s) (Py.len s) = Py.len s).
  { unfold Py.norm. pose proof (len_nonneg s). destruct (Py.len s <? 0) eqn:E; lia. }
  lia.
Qed.

Lemma set_raw_stream_run l data r d st ind :
  heap r !! l = Some (HObj (PdfDict d st) ind) ->
  set_raw_stream l data r
  = Ok tt (set_heap (<[l := HObj (PdfDict d (Some data)) ind]> (heap r)) r).
Proof.
  intros Hl. unfold set_raw_stream, update_body, deref, mbind, M_bind.
  rewrite Hl. reflexivity.
Qed.

Section StreamFacts.
Context `{Tokenizer}.

Lemma multiple_cursor n : forall r,
  exists toks p q, multiple n r = Ok toks (set_floc p (set_tokstart q r)).
Proof.
  induction n as [|n IH]; intros r; cbn [multiple].
  - exists [], (floc r), (tokstart r). destruct r; reflexivity.
  - unfold mbind at 1, M_bind at 1, iter_next.
    destruct (tok_next (fdata r) (floc r)) as [[[tok start] stop]|].
    + destruct (IH (set_floc stop (set_tokstart start r))) as (toks & p & q & Hm).
      exists (tok :: toks), p, q.
      unfold mbind, M_bind. rewrite Hm. reflexivity.
    + exists [], (floc r), (tokstart r). destruct r; reflexivity.
Qed.

(** When the two tokens after the declared window are not
    [endstream endobj], [readstream] stores that window and goes on to the
    repair. *)
Lemma readstream_slow load obj startstream r length r1 d st ind :
  (getattr load obj "/Length" ≫= (fun v => py_int (AVal v))) r = Ok length r1 ->
  heap r1 !! obj = Some (HObj (PdfDict d st) ind) ->
  (forall endit r2, multiple 2 (set_floc (startstream + length) r1) = Ok endit r2 ->
                    endit <> streamending) ->
  exists p q,
    readstream load obj startstream r =
    repair_stream obj startstream length
      (set_heap (<[obj := HObj (PdfDict d (Some (Py.slice (fdata r1) startstream
                                                          (startstream + length)))) ind]>
                   (heap r1))
                (set_floc p (set_tokstart q r1))).
Proof.
  intros Hlen Hobj Hfast.
  apply bind_Ok in Hlen as (lenv & ra & Hg & Hi).
  pose proof (py_int_Ok _ _ _ _ Hi) as E. subst ra.
  destruct (multiple_cursor 2 (set_floc (startstream + length) r1))
    as (toks & p & q & Hm).
  exists p, q. unfold readstream.
  rewrite (bind_run _ _ _ _ _ Hg), (bind_run _ _ _ _ _ Hi).
  unfold mbind at 1, M_bind at 1. cbn [modify].
  rewrite (bind_run _ _ _ _ _ Hm).
  unfold mbind at 1, M_bind at 1. cbn [get_reader].
  pose proof (set_raw_stream_run obj
                (Py.slice (fdata r1) startstream (startstream + length))
                (set_floc p (set_tokstart q (set_floc (startstream + length) r1)))
                d st ind Hobj) as Hs.
  etrans; [exact (bind_run _ _ _ _ _ Hs)|].
  rewrite bool_decide_eq_false_2 by (eapply Hfast; exact Hm).
  reflexivity.
Qed.
End StreamFacts.

Section StreamRepair.
Context `{Tokenizer}.


End StreamRepair.




(** On that file [findstream] skips the CR and the LF without a word. *)
Example lone_cr_findstream :
  findstream "stream" (set_tokstart 0 lone_cr_stream)
  = Ok 8 (set_tokstart 0 lone_cr_stream).
Proof. vm_compute. reflexivity. Qed.

(** ** Lazy loading: missing objects, the deferred set, idempotence *)


Lemma yf_bind {A} (m : M A) (f : A -> M pyval) :
  (forall a, yields_fresh (f a)) -> yields_fresh (m ≫= f).
Proof. intros Hf r v r' Hrun. inv_run. eapply Hf; eauto. Qed.

Lemma yf_alloc b : is_ind b = false -> yields_fresh (l ← alloc b; mret (Some l)).
Proof.
  intros Hb r v r' Hrun. inv_run.
  match goal with
  | Ha : alloc _ _ = Ok _ _ |- _ => apply alloc_Ok in Ha as (Hl & _ & _)
  end.
  intros l [= <-]. eauto.
Qed.

Lemma yf_raise e : yields_fresh (raise e).
Proof. intros r v r' Hrun. discriminate. Qed.

Lemma yf_out_of_fuel : yields_fresh out_of_fuel.
Proof. intros r v r' Hrun. discriminate. Qed.

Lemma yf_empty_obj : yields_fresh empty_obj.
Proof. intros r v r' Hrun. unfold empty_obj in Hrun. inv_run. intros l [=]. Qed.

Ltac yf_auto :=
  repeat first
    [ assumption
    | apply yf_alloc; reflexivity
    | apply yf_raise
    | apply yf_out_of_fuel
    | apply yf_empty_obj
    | match goal with
      | |- yields_fresh badtoken => apply yf_raise
      | |- yields_fresh (if ?c then _ else _) => destruct c
      | |- yields_fresh (match ?c with _ => _ end) => destruct c
      | H : forall x, yields_fresh _ |- _ => apply H
      | H : forall x y z, yields_fresh _ |- _ => apply H
      end
    | apply yf_bind; intros ? ].

Section LoaderFacts.
Context `{Tokenizer}.

Lemma parser_fresh fuel :
  (forall result, yields_fresh (readarray fuel result)) /\
  (forall first tok d, yields_fresh (readdict_loop fuel first tok d)).
Proof.
  induction fuel as [|fuel [IHa IHd]]; split; intros; cbn [readarray readdict_loop];
    yf_auto.
Qed.

Lemma read_value_fresh fuel tok : yields_fresh (read_value fuel tok).
Proof.
  unfold read_value, readdict. destruct (parser_fresh fuel) as [Ha Hd]. yf_auto.
Qed.

(** The header check touches the cursor and the log only. *)
Lemma read_header_quiet k offset r b r' :
  read_header k offset r = Ok b r' ->
  heap r' = heap r /\ indirect_objects r' = indirect_objects r /\
  deferred_objects r' = deferred_objects r.
Proof.
  unfold read_header. intros Hrun.
  apply bind_Ok in Hrun as (u & r1 & Hm & Hrun). apply modify_Ok in Hm as ->.
  apply bind_Ok in Hrun as (objid & r2 & Hmul & Hrun).
  destruct (multiple_cursor 3 (set_floc offset r)) as (toks & p & q & Hm).
  rewrite Hm in Hmul. injection Hmul as <- <-.
  destruct (header_ok k toks); [inv_run; auto|].
  apply bind_Ok in Hrun as (u1 & r3 & Hm1 & Hrun). apply modify_Ok in Hm1 as ->.
  apply bind_Ok in Hrun as (t & r4 & Hn & Hrun).
  unfold next in Hn. cbn in Hn.
  destruct (tok_next (fdata r) offset) as [[[t' s'] e']|]; [|discriminate Hn].
  injection Hn as <- <-.
  apply bind_Ok in Hrun as (r5 & r6 & Hg & Hrun). apply get_reader_Ok in Hg as [-> ->].
  cbn [fdata set_floc set_tokstart] in Hrun.
  destruct (find_header (fdata r) (objheader k) =? 0).
  - unfold warning in Hrun. inv_run. auto.
  - destruct (Py.index (fdata r) (find_header (fdata r) (objheader k) - 1));
      [|discriminate Hrun].
    destruct (0 <? Py.find _ _ _ _); unfold warning in Hrun; inv_run; auto.
Qed.
End LoaderFacts.

Lemma set_indirect_Ok v k r u r' :
  set_indirect v k r = Ok u r' ->
  exists l o, v = Some l /\ heap r !! l = Some o /\
              r' = set_heap (<[l := HObj (body o) (Some k)]> (heap r)) r.
Proof.
  destruct v as [l|]; cbn [set_indirect]; intros Hrun; [|discriminate].
  inv_runs. eauto.
Qed.

Lemma deferred_remove_Ok k r u r' :
  deferred_remove k r = Ok u r' ->
  k ∈ deferred_objects r /\ r' = set_deferred_objects (deferred_objects r ∖ {[k]}) r.
Proof.
  unfold deferred_remove. case_bool_decide; intros Hrun; inv_run. auto.
Qed.

Lemma pending_is_indirect k p r :
  pending k p r -> table_get k r = Some p /\ is_indirect (Some p) r = Ok true r.
Proof.
  intros [Ht (o & Ho & Hi)]. split.
  - unfold table_get. rewrite Ht. reflexivity.
  - cbn [is_indirect]. unfold mbind, M_bind, deref. rewrite Ho. cbn.
    destruct (body o); try discriminate. reflexivity.
Qed.

Section LoadOutcome.
Context `{Tokenizer}.

(** After the object is stored, the end of [loadindirect] leaves a stored
    value for the identity, outside the deferred set. *)
Lemma finish_object_stored (load : key -> M pyval) k l r v r' :
  (forall k', keeps (load k')) ->
  stored k l r -> k ∉ deferred_objects r ->
  finish_object load k (Some l) r = Ok v r' ->
  exists l', v = Some l' /\ stored k l' r' /\ k ∉ deferred_objects r'.
Proof.
  intros Hload Hs Hd Hrun. unfold finish_object in Hrun.
  apply bind_Ok in Hrun as (tok & r1 & Hn & Hrun).
  pose proof (keeps_next _ _ _ Hn) as E1.
  destruct (String.eqb tok "endobj").
  { inv_run. exists l. split; [reflexivity|]. split;
      [exact (ev_stored _ _ E1 _ _ Hs)|exact (ev_deferred _ _ E1 _ _ Hs Hd)]. }
  apply bind_Ok in Hrun as (isdict & r2 & Hi & Hrun).
  pose proof (evolves_trans _ _ _ E1 (keeps_is_dict _ _ _ _ Hi)) as E2.
  destruct (isdict && String.eqb tok "stream").
  - apply bind_Ok in Hrun as (start & r3 & Hf & Hrun).
    apply bind_Ok in Hrun as (u & r4 & Hr & Hrun).
    apply ret_Ok in Hrun as [<- <-].
    pose proof (keeps_findstream _ _ _ _ Hf) as E3.
    pose proof (keeps_readstream load _ _ Hload _ _ _ Hr) as E4.
    pose proof (evolves_trans _ _ _ E2 (evolves_trans _ _ _ E3 E4)) as E.
    exists l. split; [reflexivity|]. split;
      [exact (ev_stored _ _ E _ _ Hs)|exact (ev_deferred _ _ E _ _ Hs Hd)].
  - apply bind_Ok in Hrun as (o & r3 & Ho & Hrun).
    apply deref_Ok in Ho as [-> _].
    apply bind_Ok in Hrun as (obj' & r4 & Ha & Hrun).
    assert (Hnew : evolves r2 r4 /\
                   exists t, heap r4 !! obj' = Some (HObj (PdfObject t) None)).
    { destruct (body o) as [text| | |];
        [destruct (Py.endswith text "endobj")| | |];
        apply bind_Ok in Ha as (u & r5 & He & Ha);
        pose proof (keeps_error _ _ _ _ He) as Ee;
        pose proof (keeps_alloc _ _ _ _ Ha) as Ea;
        apply alloc_Ok in Ha as (Hl & _ & _);
        (split; [exact (evolves_trans _ _ _ Ee Ea)|eauto]). }
    destruct Hnew as [E4 (t & Hobj')].
    pose proof (evolves_trans _ _ _ E2 E4) as E.
    apply bind_Ok in Hrun as (u & r5 & Hsi & Hrun).
    apply set_indirect_Ok in Hsi as (l1 & o1 & [= <-] & Ho1 & ->).
    rewrite Hobj' in Ho1. injection Ho1 as <-.
    unfold table_set in Hrun. inv_run.
    exists obj'. split; [reflexivity|]. split.
    + split.
      * cbn. apply lookup_insert_eq.
      * cbn. eexists. split.
        -- apply list_lookup_insert_eq. eapply lookup_lt_Some. exact Hobj'.
        -- reflexivity.
    + cbn. exact (ev_deferred _ _ E _ _ Hs Hd).
Qed.

(** What a load does to an identity that is still a placeholder: either a
    value is stored for it and it leaves the deferred set, or the load
    gives up before touching the heap, the table or the deferred set. *)
Lemma load_pending fuel k p r v r' :
  pending k p r -> loadindirect fuel k r = Ok v r' ->
  match v with
  | Some l => stored k l r' /\ k ∉ deferred_objects r'
  | None => heap r' = heap r /\ indirect_objects r' = indirect_objects r /\
            deferred_objects r' = deferred_objects r
  end.
Proof.
  intros Hp Hrun. destruct fuel as [|fuel]; [discriminate|]. cbn [loadindirect] in Hrun.
  destruct (pending_is_indirect _ _ _ Hp) as [Hg Hi].
  apply bind_Ok in Hrun as (r0 & r0' & Hgr & Hrun).
  apply get_reader_Ok in Hgr as [-> ->].
  rewrite Hg in Hrun. rewrite (bind_run _ _ _ _ _ Hi) in Hrun. cbn [negb] in Hrun.
  destruct (default 0 (obj_offsets r !! k) =? 0).
  { unfold warning in Hrun. inv_run. auto. }
  apply bind_Ok in Hrun as (ok & r1 & Hh & Hrun).
  pose proof (read_header_quiet _ _ _ _ _ Hh) as (Hh1 & Hh2 & Hh3).
  destruct ok; cbn [negb] in Hrun; [|inv_run; auto].
  apply bind_Ok in Hrun as (tok0 & r2 & Hn & Hrun).
  apply bind_Ok in Hrun as (obj & r3 & Hv & Hrun).
  pose proof (read_value_fresh _ _ _ _ _ Hv) as Hfresh.
  apply bind_Ok in Hrun as (u1 & r4 & Hts & Hrun).
  unfold table_set in Hts. apply modify_Ok in Hts as ->.
  apply bind_Ok in Hrun as (u2 & r5 & Hdr & Hrun).
  apply deferred_remove_Ok in Hdr as [_ ->].
  apply bind_Ok in Hrun as (u3 & r6 & Hsi & Hrun).
  apply set_indirect_Ok in Hsi as (l & o & -> & Ho & ->).
  destruct (Hfresh l eq_refl) as (o' & Ho' & Hind).
  cbn in Ho. rewrite Ho' in Ho. injection Ho as <-.
  eapply finish_object_stored in Hrun.
  - destruct Hrun as (l' & -> & Hs & Hd). auto.
  - apply keeps_loadindirect.
  - split.
    + cbn. apply lookup_insert_eq.
    + cbn. eexists. split.
      * apply list_lookup_insert_eq. eapply lookup_lt_Some. exact Ho'.
      * exact Hind.
  - cbn. set_solver.
Qed.
End LoadOutcome.

Section LoadClaims.
Context `{Tokenizer}.

(** With no offset recorded, a placeholder resolves to missing. *)
Lemma load_no_offset (fuel : nat) (k : key) (p : loc) (r : reader) :
  pending k p r -> obj_offsets r !! k = None ->
  loadindirect (S fuel) k r
  = Ok None (set_log (log r ++ [Warning "Did not find PDF object"]) r).
Proof.
  intros Hp Hk. cbn [loadindirect].
  destruct (pending_is_indirect _ _ _ Hp) as [Hg Hi].
  unfold mbind at 1, M_bind at 1. cbn [get_reader].
  rewrite Hg, (bind_run _ _ _ _ _ Hi), Hk. reflexivity.
Qed.

(** A loaded value is handed out as it is; the state stays as it is. *)
Lemma load_stored (fuel : nat) (k : key) (l : loc) (r : reader) :
  stored k l r -> loadindirect (S fuel) k r = Ok (Some l) r.
Proof.
  intros [Ht (o & Ho & Hind)].
  assert (Hi : is_indirect (Some l) r = Ok false r).
  { cbn [is_indirect]. unfold mbind, M_bind, deref. rewrite Ho. cbn.
    destruct (body o); try discriminate Hind; reflexivity. }
  assert (Hg : table_get k r = Some l) by (unfold table_get; rewrite Ht; reflexivity).
  cbn [loadindirect]. unfold mbind at 1, M_bind at 1. cbn [get_reader].
  rewrite Hg, (bind_run _ _ _ _ _ Hi). reflexivity.
Qed.

(** An identity the table does not know resolves to missing, silently. *)
Lemma load_unregistered (fuel : nat) (k : key) (r : reader) :
  table_get k r = None -> loadindirect (S fuel) k r = Ok None r.
Proof.
  intros Hg. cbn [loadindirect]. unfold mbind at 1, M_bind at 1. cbn [get_reader].
  rewrite Hg. reflexivity.
Qed.

(** C3 (as the code has it).  Take an identity for which no offset is
    recorded.  If its table entry is still the unresolved placeholder,
    [loadindirect] returns normally with the missing value [None], having
    logged one warning and changed nothing else.  If the table holds a
    loaded value for it, [loadindirect] returns that value and logs
    nothing. *)
Theorem missing_offset_yields_missing (fuel : nat) (k : key) (r : reader) :
  obj_offsets r !! k = None ->
  (forall p, pending k p r ->
     loadindirect (S fuel) k r
     = Ok None (set_log (log r ++ [Warning "Did not find PDF object"]) r)) /\
  (forall l, stored k l r -> loadindirect (S fuel) k r = Ok (Some l) r).
Proof.
  intros Hk. split.
  - intros p Hp. exact (load_no_offset fuel k p r Hp Hk).
  - intros l Hs. exact (load_stored fuel k l r Hs).
Qed.

(** An identity nobody has referred to yet, resolved through a reference:
    the same outcome. *)
Lemma unreferenced_identity_missing (fuel : nat) (k : key) (r : reader) :
  table_get k r = None ->
  obj_offsets r !! k = None ->
  exists r',
    (findindirect (AInt (fst k)) (AInt (snd k)) ≫= fun _ => loadindirect (S fuel) k) r
    = Ok None r' /\
    log r' = log r ++ [Warning "Did not find PDF object"].
Proof.
  intros Hg Hk. destruct k as [n g]. unfold findindirect. cbn [py_int fst snd].
  unfold mbind at 1 2 3 4, M_bind at 1 2 3 4. cbn [mret M_ret get_reader].
  rewrite Hg. unfold alloc, modify, mbind, M_bind. cbn -[loadindirect].
  eexists. split.
  - apply (load_no_offset fuel (n, g) (length (heap r))); [|exact Hk].
    split; cbn.
    + apply lookup_insert_eq.
    + exists (HObj (PdfIndirect (n, g)) None). split; [|reflexivity].
      rewrite lookup_app_r by lia. rewrite Nat.sub_diag. reflexivity.
  - reflexivity.
Qed.

(** C2 (as the code has it).  A load of an identity that is still a
    placeholder ends in one of two ways.  Either it stores a value: then
    the identity has left the deferred set, and no later load or reference
    to it brings it back.  Or it gives up (no offset, or no object header to be found): then
    the placeholder stays in the table and the deferred set is what it
    was. *)
Theorem deferred_left_only_when_stored (fuel : nat) (k : key) (p : loc)
    (r r' : reader) (v : pyval) :
  pending k p r ->
  loadindirect fuel k r = Ok v r' ->
  match v with
  | Some l =>
      stored k l r' /\ k ∉ deferred_objects r' /\
      (forall fuel2 k2 v2 r2, loadindirect fuel2 k2 r' = Ok v2 r2 ->
                              k ∉ deferred_objects r2) /\
      (forall a b l2 r2, findindirect a b r' = Ok l2 r2 ->
                         k ∉ deferred_objects r2)
  | None =>
      pending k p r' /\ deferred_objects r' = deferred_objects r
  end.
Proof.
  intros Hp Hrun. pose proof (load_pending _ _ _ _ _ _ Hp Hrun) as Hl.
  destruct v as [l|].
  - destruct Hl as [Hs Hd]. split; [exact Hs|]. split; [exact Hd|]. split.
    + intros fuel2 k2 v2 r2 Hrun2.
      exact (ev_deferred _ _ (keeps_loadindirect _ _ _ _ _ Hrun2) _ _ Hs Hd).
    + intros a b l2 r2 Hrun2.
      exact (ev_deferred _ _ (keeps_findindirect _ _ _ _ _ Hrun2) _ _ Hs Hd).
  - destruct Hl as (Hh & Ht & Hd). split; [|exact Hd].
    destruct Hp as [Hp1 Hp2]. split; [rewrite Ht; exact Hp1|rewrite Hh; exact Hp2].
Qed.

Lemma py_int_grows a r z r1 :
  py_int a r = Ok z r ->
  (forall l o, heap r !! l = Some o -> heap r1 !! l = Some o) ->
  py_int a r1 = Ok z r1.
Proof.
  intros Hi Hh. destruct a as [z0|tok|[l|]]; cbn [py_int] in *.
  - inv_run. reflexivity.
  - unfold int_of_token in *. destruct (Py.int tok); inv_run; reflexivity.
  - apply bind_Ok in Hi as (o & r0 & Hd & Hi). apply deref_Ok in Hd as [-> Hd].
    unfold mbind, M_bind, deref. rewrite (Hh _ _ Hd).
    destruct (body o); try discriminate Hi.
    unfold int_of_token in *. destruct (Py.int text); inv_run; reflexivity.
  - discriminate.
Qed.

(** A successful load leaves its result in the table as a loaded value. *)
Lemma load_result_stored fuel k r l r1 :
  loadindirect fuel k r = Ok (Some l) r1 -> stored k l r1.
Proof.
  intros Hrun. destruct fuel as [|fuel]; [discriminate|].
  pose proof Hrun as Hrun'. cbn [loadindirect] in Hrun'.
  apply bind_Ok in Hrun' as (r0 & r0' & Hg & Hrun').
  apply get_reader_Ok in Hg as [-> ->].
  apply bind_Ok in Hrun' as (isind & r2 & Hi & Hrun').
  apply is_indirect_Ok in Hi as (-> & Ht & Hf).
  destruct isind; cbn [negb] in Hrun'.
  - destruct (Ht eq_refl) as (p & o & Hg & Hp & Hind).
    assert (Hpend : pending k p r).
    { split; [|eauto]. unfold table_get in Hg.
      destruct (indirect_objects r !! k) as [v|]; congruence. }
    apply (load_pending _ _ _ _ _ _ Hpend Hrun).
  - inv_run.
    match goal with
    | Hg : table_get k r1 = Some l |- _ =>
        split; [|exact (Hf eq_refl l Hg)];
        unfold table_get in Hg; destruct (indirect_objects r1 !! k) as [v|]; congruence
    end.
Qed.

(** C4 (as the code has it).  [findindirect] is idempotent: asked again, it
    hands out the same object and leaves the state alone.  A load that
    returned a value is idempotent too: asked again, [loadindirect] hands
    out the very object that is stored, and leaves the state alone (no
    token is read, nothing is logged).  A load that found no offset stores
    nothing: asked again, it looks the offset up again and logs its warning
    a second time. *)
Theorem resolution_idempotent :
  (forall a b r l r1,
     findindirect a b r = Ok l r1 -> findindirect a b r1 = Ok l r1) /\
  (forall fuel k r l r1,
     loadindirect fuel k r = Ok (Some l) r1 ->
     forall fuel', loadindirect (S fuel') k r1 = Ok (Some l) r1) /\
  (forall fuel k p r,
     pending k p r -> obj_offsets r !! k = None ->
     exists r1 r2,
       loadindirect (S fuel) k r = Ok None r1 /\
       loadindirect (S fuel) k r1 = Ok None r2 /\
       log r1 = log r ++ [Warning "Did not find PDF object"] /\
       log r2 = log r1 ++ [Warning "Did not find PDF object"]).
Proof.
  split; [|split].
  - intros a b r l r1 Hrun. pose proof Hrun as Hrun'. unfold findindirect in Hrun'.
    apply bind_Ok in Hrun' as (o & ra & Ha & Hrun').
    pose proof (py_int_Ok _ _ _ _ Ha) as ->.
    apply bind_Ok in Hrun' as (g & rb & Hb & Hrun').
    pose proof (py_int_Ok _ _ _ _ Hb) as ->.
    apply bind_Ok in Hrun' as (r0 & r0' & Hg & Hrun').
    apply get_reader_Ok in Hg as [-> ->].
    destruct (table_get (o, g) r) eqn:Eg.
    + inv_run. exact Hrun.
    + pose proof (findindirect_entry _ _ _ _ _ _ _ Ha Hb Hrun) as Hentry.
      assert (Hext : forall l0 o0, heap r !! l0 = Some o0 -> heap r1 !! l0 = Some o0).
      { inv_run.
        match goal with
        | Hal : alloc _ _ = Ok _ _ |- _ => apply alloc_Ok in Hal as (_ & _ & ->)
        end.
        intros l0 o0 Hl0. cbn. apply lookup_app_l_Some. exact Hl0. }
      unfold findindirect.
      rewrite (bind_run _ _ _ _ _ (py_int_grows _ _ _ _ Ha Hext)).
      rewrite (bind_run _ _ _ _ _ (py_int_grows _ _ _ _ Hb Hext)).
      unfold mbind at 1, M_bind at 1. cbn [get_reader]. rewrite Hentry. reflexivity.
  - intros fuel k r l r1 Hrun fuel'.
    apply load_stored. exact (load_result_stored _ _ _ _ _ Hrun).
  - intros fuel k p r Hp Hk. eexists _, _.
    split; [exact (load_no_offset fuel k p r Hp Hk)|].
    split.
    { apply (load_no_offset fuel k p); [|exact Hk].
      destruct Hp as [Hp1 Hp2]. split; [exact Hp1|exact Hp2]. }
    split; reflexivity.
Qed.
End LoadClaims.

Lemma unknown_reference_pending : pending (7, 0) 0%nat unknown_reference.
Proof. split; [vm_compute; reflexivity|]. eexists. split; reflexivity. Defined.

Lemma known_reference_pending : pending (7, 0) 0%nat known_reference.
Proof. split; [vm_compute; reflexivity|]. eexists. split; reflexivity. Defined.

Lemma missing_offset_yields_missing_witness :
  @loadindirect words 1 (7, 0) unknown_reference
  = Ok None (set_log [Warning "Did not find PDF object"] unknown_reference).
Proof.
  apply (proj1 (@missing_offset_yields_missing words 0 (7, 0) unknown_reference
                  ltac:(vm_compute; reflexivity)) 0%nat).
  exact unknown_reference_pending.
Defined.

(** The member of an object stream is stored by the expander without an
    offset; resolving it yields the member, and no warning. *)
Lemma object_stream_member_not_missing :
  exists r l,
    @expand_members words 5 [(5, 0)] (empty_reader "42") = Ok tt r /\
    obj_offsets r !! ((5, 0) : key) = None /\
    @loadindirect words 5 (5, 0) r = Ok (Some l) r /\
    log r = [].
Proof.
  eexists _, _. split; [vm_compute; reflexivity|].
  split; [vm_compute; reflexivity|]. split; vm_compute; reflexivity.
Defined.

Lemma deferred_left_only_when_stored_witness :
  match @loadindirect words 5 (7, 0) known_reference with
  | Ok (Some l) r' => stored (7, 0) l r' /\ (7, 0) ∉ deferred_objects r'
  | _ => False
  end.
Proof.
  destruct (@loadindirect words 5 (7, 0) known_reference) as [[l|] r'|e r'|] eqn:E;
    try (vm_compute in E; discriminate E).
  destruct (@deferred_left_only_when_stored words 5 (7, 0) 0%nat known_reference r'
              (Some l) known_reference_pending E) as (Hs & Hd & _).
  split; [exact Hs|exact Hd].
Defined.

(** A load attempt on an identity without offset completes, and the
    identity is still in the deferred set, its table entry still the
    placeholder. *)
Lemma failed_load_stays_deferred :
  exists r',
    @loadindirect words 3 (7, 0) unknown_reference = Ok None r' /\
    deferred_objects r' = {[ ((7, 0) : key) ]} /\
    indirect_objects r' !! ((7, 0) : key) = Some (Some 0%nat) /\
    body <$> heap r' !! 0%nat = Some (PdfIndirect (7, 0)).
Proof.
  eexists. split; [vm_compute; reflexivity|]. split; [vm_compute; reflexivity|].
  split; vm_compute; reflexivity.
Defined.

(** [read_all] copes with it: the identity is tried once and then skipped. *)
Example read_all_skips_failed :
  exists r',
    @read_all words 5 unknown_reference = Ok tt r' /\
    deferred_objects r' = {[ ((7, 0) : key) ]} /\
    log r' = [Warning "Did not find PDF object"].
Proof.
  eexists. split; [vm_compute; reflexivity|]. split; vm_compute; reflexivity.
Qed.

Lemma resolution_idempotent_witness :
  (exists l r1,
     findindirect (AInt 7) (AInt 0) (empty_reader EmptyString) = Ok l r1 /\
     findindirect (AInt 7) (AInt 0) r1 = Ok l r1) /\
  (exists l r1,
     @loadindirect words 5 (7, 0) known_reference = Ok (Some l) r1 /\
     @loadindirect words 1 (7, 0) r1 = Ok (Some l) r1).
Proof.
  split; eexists _, _; (split; [vm_compute; reflexivity|]).
  - apply (proj1 (@resolution_idempotent words) _ _ (empty_reader EmptyString)).
    vm_compute. reflexivity.
  - apply (proj1 (proj2 (@resolution_idempotent words)) 5%nat _ known_reference).
    vm_compute. reflexivity.
Defined.

(** A load that failed is done over when asked again: the tokens at the
    stale offset are read a second time and the warning is logged twice. *)
Lemma failed_load_is_repeated :
  exists r1 r2,
    @loadindirect words 3 (7, 0) stale_offset = Ok None r1 /\
    @loadindirect words 3 (7, 0) r1 = Ok None r2 /\
    log r1 = [Warning "Expected indirect object"] /\
    log r2 = [Warning "Expected indirect object"; Warning "Expected indirect object"] /\
    r2 <> r1.
Proof.
  eexists _, _. split; [vm_compute; reflexivity|]. split; [vm_compute; reflexivity|].
  split; [vm_compute; reflexivity|]. split; [vm_compute; reflexivity|].
  intros E. apply (f_equal (fun r => length (log r))) in E. vm_compute in E. discriminate E.
Defined.

(** * Further properties of the reader *)

(** ** Precedence in the merged offset map *)

(** X1.  In the merged object-offset map an identity has the offset of the
    first section of [xref_list] (newest first) that lists it; an identity
    no section of the list has keeps what the last-parsed section says. *)
Theorem merge_offsets_precedence (base : gmap key Z) (xl : list (gmap key Z)) (k : key) :
  merge_offsets base xl !! k
  = match first_listed xl k with
    | Some o => Some o
    | None => base !! k
    end.
Proof.
  induction xl as [|s xl IH]; cbn [first_listed].
  - reflexivity.
  - destruct (s !! k) as [o|] eqn:Es.
    + apply merge_offsets_newest. exact Es.
    + rewrite merge_offsets_older by exact Es. exact IH.
Qed.

(** ** What the cross-reference parsers keep true of the offset tables *)

Section Maintains.
Variable Q : gmap key Z -> list Z -> Prop.
Hypothesis Hrec : forall m l (k : key) (o : Z),
  o <> 0 -> Q m l -> Q (setdefault k o m) (l ++ [o]).

Lemma mt_same {A} (m : M A) :
  (forall r, after (m r) (fun r' => obj_offsets r' = obj_offsets r /\
                                    all_offsets r' = all_offsets r)) ->
  maintains Q m.
Proof.
  intros Hm r HQ. specialize (Hm r). unfold table_inv in *.
  destruct (m r) as [a r'|e r'|]; cbn in *; [| |exact I];
    destruct Hm as [-> ->]; exact HQ.
Qed.

Lemma mt_ret {A} (a : A) : maintains Q (mret a : M A).
Proof. intros r HQ. exact HQ. Qed.

Lemma mt_raise {A} e : maintains Q (raise e : M A).
Proof. intros r HQ. exact HQ. Qed.

Lemma mt_exception {A} msg : maintains Q (exception msg : M A).
Proof. intros r HQ. exact HQ. Qed.

Lemma mt_out_of_fuel {A} : maintains Q (out_of_fuel : M A).
Proof. intros r HQ. exact I. Qed.

Lemma mt_bind {A B} (m : M A) (f : A -> M B) :
  maintains Q m -> (forall a, maintains Q (f a)) -> maintains Q (m ≫= f).
Proof.
  intros Hm Hf r HQ. specialize (Hm r HQ). unfold mbind, M_bind.
  destruct (m r) as [a r1|e r1|]; cbn in *; [|exact Hm|exact I].
  exact (Hf a r1 Hm).
Qed.

Lemma mt_attempt {A} (m : M A) : maintains Q m -> maintains Q (attempt m).
Proof.
  intros Hm r HQ. specialize (Hm r HQ). unfold attempt. destruct (m r); exact Hm.
Qed.

Lemma mt_get_reader : maintains Q get_reader.
Proof. intros r HQ. exact HQ. Qed.

Lemma mt_set_floc p : maintains Q (modify (set_floc p)).
Proof. intros r HQ. exact HQ. Qed.

Lemma mt_warning msg : maintains Q (warning msg).
Proof. intros r HQ. exact HQ. Qed.

Lemma mt_error msg : maintains Q (error msg).
Proof. intros r HQ. exact HQ. Qed.

Lemma mt_int_of_token tok : maintains Q (int_of_token tok).
Proof. intros r HQ. unfold int_of_token. destruct (Py.int tok); exact HQ. Qed.

Lemma mt_bound v : maintains Q (bound v).
Proof. intros r HQ. destruct v; exact HQ. Qed.

Lemma mt_hex_int d : maintains Q (hex_int d).
Proof. intros r HQ. destruct d; exact HQ. Qed.

(** Recording is what the guard [offset != 0] lets through. *)
Lemma mt_record k o : o <> 0 -> maintains Q (record_offset k o).
Proof. intros Ho r HQ. cbn. apply Hrec; assumption. Qed.

Lemma mt_guarded_record k o :
  maintains Q (if negb (o =? 0) then record_offset k o else mret tt).
Proof.
  destruct (o =? 0) eqn:E; cbn [negb]; [apply mt_ret|].
  apply mt_record. lia.
Qed.

Ltac mt_auto :=
  repeat first
    [ assumption
    | apply mt_ret | apply mt_raise | apply mt_exception | apply mt_out_of_fuel
    | apply mt_get_reader | apply mt_set_floc | apply mt_warning | apply mt_error
    | apply mt_int_of_token | apply mt_bound | apply mt_hex_int
    | apply mt_guarded_record
    | apply mt_attempt
    | solve [auto]
    | apply mt_bind; [|intros ?]
    | match goal with
      | |- maintains Q (if ?c then _ else _) => destruct c
      | |- maintains Q (match ?c with _ => _ end) => destruct c
      end ].

Context `{Tokenizer}.

Lemma mt_next : maintains Q next.
Proof.
  intros r HQ. unfold next.
  destruct (tok_next (fdata r) (floc r)) as [[[t s] e]|]; exact HQ.
Qed.

Lemma mt_table_entry objnum : maintains Q (table_entry objnum).
Proof.
  unfold table_entry. pose proof mt_next.
  apply mt_bind; [mt_auto|]. intros offset.
  apply mt_bind; [mt_auto|]. intros generation.
  apply mt_bind; [mt_auto|]. intros inuse.
  destruct (String.eqb inuse "n"); [apply mt_guarded_record|mt_auto].
Qed.

Lemma mt_table_rows cnt : forall objnum last, maintains Q (table_rows cnt objnum last).
Proof.
  pose proof mt_table_entry.
  induction cnt as [|cnt IH]; intros; cbn [table_rows]; mt_auto.
Qed.

Lemma mt_table_strict fuel : forall last, maintains Q (table_strict fuel last).
Proof.
  pose proof mt_next. pose proof mt_table_rows.
  induction fuel as [|fuel IH]; intros; cbn [table_strict]; mt_auto.
Qed.

Lemma mt_fallback_line line objnum : maintains Q (fallback_line line objnum).
Proof.
  unfold fallback_line.
  destruct (Py.split line) as [|t0 [|t1 [|t2 [|t3 rest]]]]; try solve [mt_auto].
  apply mt_bind; [mt_auto|]. intros offset.
  apply mt_bind; [mt_auto|]. intros generation.
  apply mt_bind; [|intros; mt_auto].
  destruct (offset =? 0) eqn:E; cbn [negb andb]; [mt_auto|].
  destruct (String.eqb t2 "n"); [|mt_auto].
  destruct objnum; [|mt_auto]. apply mt_record. lia.
Qed.

Lemma mt_fallback_lines table : forall objnum, maintains Q (fallback_lines table objnum).
Proof.
  pose proof mt_fallback_line.
  induction table as [|line table IH]; intros; cbn [fallback_lines]; mt_auto.
Qed.

Lemma mt_parse_xref_table fuel : maintains Q (parse_xref_table fuel).
Proof.
  pose proof mt_next. pose proof mt_table_strict. pose proof mt_fallback_lines.
  unfold parse_xref_table. mt_auto.
Qed.

Lemma mt_xref_column i width di x : maintains Q (xref_column i width di x).
Proof. unfold xref_column. mt_auto. Qed.

Lemma mt_xref_columns stream sizes : forall i off x,
  maintains Q (xref_columns stream i sizes off x).
Proof.
  pose proof mt_xref_column.
  induction sizes as [|w sizes IH]; intros; cbn [xref_columns]; mt_auto.
Qed.

Lemma mt_xref_row_effect num x os : maintains Q (xref_row_effect num x os).
Proof.
  unfold xref_row_effect.
  apply mt_bind; [mt_auto|]. intros t.
  destruct (t =? 1).
  - destruct (x_offset x) as [o|]; cbn [bound].
    + intros r HQ. unfold mbind, M_bind. cbn.
      destruct (o =? 0) eqn:E; cbn.
      * destruct (t =? 2); [|exact HQ].
        destruct (x_objnum x); cbn; [|exact HQ].
        destruct (x_obstr_idx x); cbn; exact HQ.
      * destruct (x_generation x); cbn; [|exact HQ].
        apply Hrec; [lia|exact HQ].
    + intros r HQ. exact HQ.
  - intros r HQ. unfold mbind, M_bind. cbn.
    destruct (t =? 2); [|exact HQ].
    destruct (x_objnum x); cbn; [|exact HQ].
    destruct (x_obstr_idx x); cbn; exact HQ.
Qed.

Lemma mt_xref_rows stream sizes todo : forall num off x os,
  maintains Q (xref_rows stream sizes todo num off x os).
Proof.
  pose proof mt_xref_columns. pose proof mt_xref_row_effect.
  induction todo as [|todo IH]; intros; cbn [xref_rows]; mt_auto.
Qed.

Lemma mt_xref_subsections stream sizes pairs : forall x os,
  maintains Q (xref_subsections stream sizes pairs x os).
Proof.
  pose proof mt_xref_rows.
  induction pairs as [|[num size] pairs IH]; intros; cbn [xref_subsections]; mt_auto.
Qed.
End Maintains.

Lemma nonzero_record (m : gmap key Z) (l : list Z) (k : key) (o : Z) :
  o <> 0 -> nonzero_offsets m l -> nonzero_offsets (setdefault k o m) (l ++ [o]).
Proof.
  intros Ho HQ k' o' Hk. unfold setdefault in Hk.
  destruct (m !! k) eqn:E; [exact (HQ k' o' Hk)|].
  destruct (decide (k = k')) as [<-|Hne].
  - rewrite lookup_insert_eq in Hk. injection Hk as <-. exact Ho.
  - rewrite lookup_insert_ne in Hk by exact Hne. exact (HQ k' o' Hk).
Qed.

Lemma listed_record (m : gmap key Z) (l : list Z) (k : key) (o : Z) :
  o <> 0 -> offsets_listed m l -> offsets_listed (setdefault k o m) (l ++ [o]).
Proof.
  intros _ HQ k' o' Hk. unfold setdefault in Hk. apply elem_of_app.
  destruct (m !! k) eqn:E; [left; exact (HQ k' o' Hk)|].
  destruct (decide (k = k')) as [<-|Hne].
  - rewrite lookup_insert_eq in Hk. injection Hk as <-. right. apply list_elem_of_singleton.
    reflexivity.
  - rewrite lookup_insert_ne in Hk by exact Hne. left. exact (HQ k' o' Hk).
Qed.

(** X2.  The cross-reference parsers never record the offset 0: if no
    identity has offset 0 before, none has after the classic table parser
    (strict loop and tolerant re-scan) or the row decoder of a
    cross-reference stream, whether they return or raise.  So an offset
    that reads as 0 in [loadindirect] always stands for a missing entry. *)
Theorem xref_parsers_record_no_zero `{Tokenizer} (r : reader) :
  (forall (k : key) (o : Z), obj_offsets r !! k = Some o -> o <> 0) ->
  (forall fuel,
     after (parse_xref_table fuel r)
           (fun r' => forall (k : key) (o : Z), obj_offsets r' !! k = Some o -> o <> 0)) /\
  (forall stream sizes pairs x os,
     after (xref_subsections stream sizes pairs x os r)
           (fun r' => forall (k : key) (o : Z), obj_offsets r' !! k = Some o -> o <> 0)).
Proof.
  intros HQ. split; intros.
  - exact (mt_parse_xref_table nonzero_offsets nonzero_record fuel r HQ).
  - exact (mt_xref_subsections nonzero_offsets nonzero_record stream sizes pairs x os r HQ).
Qed.

Lemma xref_parsers_record_no_zero_witness :
  after (@parse_xref_table words 10 (empty_reader twice_listed))
        (fun r' => forall (k : key) (o : Z), obj_offsets r' !! k = Some o -> o <> 0).
Proof.
  apply (@xref_parsers_record_no_zero words (empty_reader twice_listed)).
  intros k o Hk. cbn in Hk. rewrite lookup_empty in Hk. discriminate Hk.
Defined.

(** X3.  Every offset the cross-reference parsers record in the
    object-offset map is also appended to the list of all offsets: if the
    list covers the map before, it covers it after, whether the parser
    returns or raises. *)
Theorem recorded_offsets_are_listed `{Tokenizer} (r : reader) :
  (forall (k : key) (o : Z), obj_offsets r !! k = Some o -> o ∈ all_offsets r) ->
  (forall fuel,
     after (parse_xref_table fuel r)
           (fun r' => forall (k : key) (o : Z),
                        obj_offsets r' !! k = Some o -> o ∈ all_offsets r')) /\
  (forall stream sizes pairs x os,
     after (xref_subsections stream sizes pairs x os r)
           (fun r' => forall (k : key) (o : Z),
                        obj_offsets r' !! k = Some o -> o ∈ all_offsets r')).
Proof.
  intros HQ. split; intros.
  - exact (mt_parse_xref_table offsets_listed listed_record fuel r HQ).
  - exact (mt_xref_subsections offsets_listed listed_record stream sizes pairs x os r HQ).
Qed.

Lemma recorded_offsets_are_listed_witness :
  after (xref_subsections stream_rows [1; 1; 1] [(1, 2); (2, 1)] unbound ∅
           (empty_reader EmptyString))
        (fun r' => forall (k : key) (o : Z),
                     obj_offsets r' !! k = Some o -> o ∈ all_offsets r').
Proof.
  apply (@recorded_offsets_are_listed words (empty_reader EmptyString)).
  intros k o Hk. cbn in Hk. rewrite lookup_empty in Hk. discriminate Hk.
Defined.

(** ** Stream extraction: the fast path and the other repairs *)

Lemma set_stream_run l data r d st ind :
  heap r !! l = Some (HObj (PdfDict d st) ind) ->
  set_stream l data r
  = Ok tt (set_heap (<[l := HObj (PdfDict (<["/Length" := length (heap r)]> d) (Some data)) ind]>
                       (heap r ++ [HObj (PdfObject (pretty (Py.len data))) None])) r).
Proof.
  intros Hl. unfold set_stream, update_body, alloc, deref, mbind, M_bind. cbn.
  rewrite (lookup_app_l_Some _ _ _ _ Hl). reflexivity.
Qed.

(** X4.  Once the fast path has failed, the repair of a stream never
    raises: for a dictionary object it returns normally, logs exactly one
    diagnostic, leaves the data, the tables and the offsets alone, and
    leaves as stream body what was there, or the window moved back by one
    byte, or the bytes up to the [endstream] found. *)
Theorem repair_stream_returns (obj : loc) (startstream length : Z) (r : reader)
    (d : gmap string loc) (st : option string) (ind : option key) :
  heap r !! obj = Some (HObj (PdfDict d st) ind) ->
  exists r' e d' st',
    repair_stream obj startstream length r = Ok tt r' /\
    log r' = log r ++ [e] /\
    heap r' !! obj = Some (HObj (PdfDict d' st') ind) /\
    (st' = st \/
     st' = Some (Py.slice (fdata r) (startstream - 1) (startstream + length - 1)) \/
     st' = Some (Py.slice (fdata r) startstream
                   (Py.find (fdata r) "endstream" startstream (Py.len (fdata r) - 20)))) /\
    fdata r' = fdata r /\ indirect_objects r' = indirect_objects r /\
    deferred_objects r' = deferred_objects r /\ obj_offsets r' = obj_offsets r.
Proof.
  intros Hobj. pose proof (lookup_lt_Some _ _ _ Hobj) as Hlt.
  unfold repair_stream. unfold mbind at 1, M_bind at 1. cbn [get_reader].
  unfold mbind at 1, M_bind at 1. cbn [modify].
  set (endstream := Py.find (fdata r) "endstream" startstream (Py.len (fdata r) - 20)).
  destruct (endstream <? 0).
  { eexists _, _, d, st. cbn. repeat split; try reflexivity; auto. }
  destruct ((length =? endstream - startstream + 1)
            && String.eqb (Py.slice (fdata r) (startstream - 2) startstream) CRLF).
  { unfold mbind at 1, M_bind at 1. cbn [warning modify].
    erewrite set_raw_stream_run by (cbn; exact Hobj).
    eexists _, _, d, _. cbn. split; [reflexivity|]. split; [reflexivity|].
    split; [apply list_lookup_insert_eq; exact Hlt|].
    split; [right; left; reflexivity|]. repeat split; reflexivity. }
  unfold mbind at 1, M_bind at 1. cbn [modify].
  destruct (endstream - startstream <? length).
  { unfold mbind at 1, M_bind at 1. cbn [error modify].
    erewrite set_stream_run by (cbn; exact Hobj).
    eexists _, _, _, _. cbn. split; [reflexivity|]. split; [reflexivity|].
    split; [apply list_lookup_insert_eq; rewrite length_app; cbn; lia|].
    split; [right; right; reflexivity|]. repeat split; reflexivity. }
  destruct (negb (String.eqb (Py.rstrip (Py.slice (fdata r) (startstream + length) endstream))
                             EmptyString)).
  { unfold mbind at 1, M_bind at 1. cbn [error modify].
    erewrite set_stream_run by (cbn; exact Hobj).
    eexists _, _, _, _. cbn. split; [reflexivity|]. split; [reflexivity|].
    split; [apply list_lookup_insert_eq; rewrite length_app; cbn; lia|].
    split; [right; right; reflexivity|]. repeat split; reflexivity. }
  destruct (Py.find (fdata r) "endobj" endstream (Py.len (fdata r) - 20) <? 0).
  { eexists _, _, d, st. cbn. repeat split; try reflexivity; auto. }
  destruct (negb (String.eqb (Py.rstrip (Py.slice (fdata r) endstream _)) "endstream")).
  { eexists _, _, d, st. cbn. repeat split; try reflexivity; auto. }
  eexists _, _, d, st. cbn. repeat split; try reflexivity; auto.
Qed.

Lemma repair_stream_returns_witness :
  exists r' e d' st',
    repair_stream 0%nat 7 10 overlong_stream = Ok tt r' /\
    log r' = [e] /\
    heap r' !! 0%nat = Some (HObj (PdfDict d' st') None) /\
    (st' = None \/
     st' = Some (Py.slice (fdata overlong_stream) 6 16) \/
     st' = Some (Py.slice (fdata overlong_stream) 7
                   (Py.find (fdata overlong_stream) "endstream" 7
                            (Py.len (fdata overlong_stream) - 20)))) /\
    fdata r' = fdata overlong_stream /\
    indirect_objects r' = indirect_objects overlong_stream /\
    deferred_objects r' = deferred_objects overlong_stream /\
    obj_offsets r' = obj_offsets overlong_stream.
Proof.
  apply (repair_stream_returns 0%nat 7 10 overlong_stream {["/Length" := 1%nat]} None None).
  reflexivity.
Defined.

Section StreamPaths.
Context `{Tokenizer}.

(** X5.  The fast path: when the two tokens after the declared window are
    [endstream endobj], the stream body is exactly the window
    [fdata[start : start+Length]], and nothing is logged. *)
Theorem declared_length_trusted (load : key -> M pyval) (obj : loc)
    (startstream length : Z) (r r1 r2 : reader)
    (d : gmap string loc) (st : option string) (ind : option key) :
  (getattr load obj "/Length" ≫= (fun v => py_int (AVal v))) r = Ok length r1 ->
  heap r1 !! obj = Some (HObj (PdfDict d st) ind) ->
  multiple 2 (set_floc (startstream + length) r1) = Ok streamending r2 ->
  exists r',
    readstream load obj startstream r = Ok tt r' /\
    log r' = log r1 /\
    heap r' !! obj
    = Some (HObj (PdfDict d (Some (Py.slice (fdata r1) startstream (startstream + length))))
                 ind).
Proof.
  intros Hlen Hobj Hm.
  apply bind_Ok in Hlen as (lenv & ra & Hg & Hi).
  pose proof (py_int_Ok _ _ _ _ Hi) as E. subst ra.
  destruct (multiple_cursor 2 (set_floc (startstream + length) r1))
    as (toks & p & q & Hm').
  rewrite Hm' in Hm. injection Hm as -> <-.
  unfold readstream.
  rewrite (bind_run _ _ _ _ _ Hg), (bind_run _ _ _ _ _ Hi).
  unfold mbind at 1, M_bind at 1. cbn [modify].
  rewrite (bind_run _ _ _ _ _ Hm').
  unfold mbind at 1, M_bind at 1. cbn [get_reader].
  pose proof (set_raw_stream_run obj
                (Py.slice (fdata r1) startstream (startstream + length))
                (set_floc p (set_tokstart q (set_floc (startstream + length) r1)))
                d st ind Hobj) as Hs.
  eexists. split; [etrans; [exact (bind_run _ _ _ _ _ Hs)|];
                   rewrite bool_decide_eq_true_2 by reflexivity; reflexivity|].
  split; [reflexivity|].
  cbn. apply list_lookup_insert_eq. eapply lookup_lt_Some. exact Hobj.
Qed.

(** X6.  When the fast path fails, [endstream] is found, the lone-CR repair
    does not apply, and either the declared Length reaches past [endstream]
    or something other than white space lies between the declared end and
    [endstream], the stream body becomes the bytes from the start up to
    [endstream]; one error is logged and the cursor is left at
    [endstream]. *)
Theorem length_adjusted_to_endstream (load : key -> M pyval) (obj : loc)
    (startstream length endstream : Z) (r r1 : reader)
    (d : gmap string loc) (st : option string) (ind : option key) :
  (getattr load obj "/Length" ≫= (fun v => py_int (AVal v))) r = Ok length r1 ->
  heap r1 !! obj = Some (HObj (PdfDict d st) ind) ->
  (forall endit r2, multiple 2 (set_floc (startstream + length) r1) = Ok endit r2 ->
                    endit <> streamending) ->
  Py.find (fdata r1) "endstream" startstream (Py.len (fdata r1) - 20) = endstream ->
  0 <= endstream ->
  (length =? endstream - startstream + 1)
    && String.eqb (Py.slice (fdata r1) (startstream - 2) startstream) CRLF = false ->
  endstream - startstream < length \/
  Py.rstrip (Py.slice (fdata r1) (startstream + length) endstream) <> EmptyString ->
  exists r' msg d',
    readstream load obj startstream r = Ok tt r' /\
    log r' = log r1 ++ [Error msg] /\
    heap r' !! obj
    = Some (HObj (PdfDict d' (Some (Py.slice (fdata r1) startstream endstream))) ind) /\
    floc r' = endstream.
Proof.
  intros Hlen Hobj Hfast Hfind Hpos Hcr Hadj.
  destruct (readstream_slow load obj startstream r length r1 d st ind Hlen Hobj Hfast)
    as (p & q & ->).
  unfold repair_stream, mbind at 1, M_bind at 1.
  cbn [get_reader fdata set_heap set_floc set_tokstart].
  rewrite Hfind, Hcr.
  unfold mbind at 1, M_bind at 1. cbn [modify].
  replace (endstream <? 0) with false by lia.
  unfold mbind at 1, M_bind at 1. cbn [modify].
  assert (Hl : forall r0 : reader,
             heap r0 = <[obj := HObj (PdfDict d (Some (Py.slice (fdata r1) startstream
                                                         (startstream + length)))) ind]>
                         (heap r1) ->
             heap r0 !! obj
             = Some (HObj (PdfDict d (Some (Py.slice (fdata r1) startstream
                                              (startstream + length)))) ind)).
  { intros r0 ->. apply list_lookup_insert_eq. eapply lookup_lt_Some. exact Hobj. }
  pose proof (lookup_lt_Some _ _ _ Hobj) as Hlt.
  destruct (endstream - startstream <? length) eqn:Ebig.
  - unfold mbind at 1, M_bind at 1. cbn [error modify].
    erewrite set_stream_run by (apply Hl; reflexivity).
    eexists _, _, _. split; [reflexivity|]. split; [reflexivity|]. split; [|reflexivity].
    cbn. apply list_lookup_insert_eq. rewrite length_app, length_insert. cbn. lia.
  - destruct Hadj as [Hadj|Hadj]; [lia|].
    replace (String.eqb (Py.rstrip (Py.slice (fdata r1) (startstream + length) endstream))
                        EmptyString) with false
      by (symmetry; apply String.eqb_neq; exact Hadj).
    cbn [negb]. unfold mbind at 1, M_bind at 1. cbn [error modify].
    erewrite set_stream_run by (apply Hl; reflexivity).
    eexists _, _, _. split; [reflexivity|]. split; [reflexivity|]. split; [|reflexivity].
    cbn. apply list_lookup_insert_eq. rewrite length_app, length_insert. cbn. lia.
Qed.
End StreamPaths.

Lemma declared_length_trusted_witness :
  exists r',
    @readstream words no_load 0%nat 7 exact_stream = Ok tt r' /\
    log r' = [] /\
    heap r' !! 0%nat = Some (HObj (PdfDict {["/Length" := 1%nat]} (Some "abc")) None).
Proof.
  eapply (@declared_length_trusted words no_load 0%nat 7 3 exact_stream exact_stream _
            {["/Length" := 1%nat]} None None).
  - vm_compute. reflexivity.
  - reflexivity.
  - vm_compute. reflexivity.
Defined.

Lemma length_adjusted_to_endstream_witness :
  exists r' msg d',
    @readstream words no_load 0%nat 7 overlong_stream = Ok tt r' /\
    log r' = [Error msg] /\
    heap r' !! 0%nat = Some (HObj (PdfDict d' (Some "abc ")) None) /\
    floc r' = 11.
Proof.
  apply (@length_adjusted_to_endstream words no_load 0%nat 7 10 11
           overlong_stream overlong_stream {["/Length" := 1%nat]} None None).
  - vm_compute. reflexivity.
  - reflexivity.
  - intros endit r2 Hm. vm_compute in Hm. injection Hm as <- _. discriminate.
  - vm_compute. reflexivity.
  - lia.
  - reflexivity.
  - left. lia.
Defined.

(** ** The start of the stream data *)

Lemma get_in_range s : forall n, (n < String.length s)%nat -> exists c, String.get n s = Some c.
Proof.
  induction s as [|c s IH]; intros n Hn; cbn in Hn; [lia|].
  destruct n as [|n]; cbn; [eauto|]. apply IH. lia.
Qed.

Lemma index_in_range s i : 0 <= i < Py.len s -> exists c, Py.index s i = Some c.
Proof.
  intros Hi. unfold Py.index. replace (i <? 0) with false by lia.
  replace ((0 <=? i) && (i <? Py.len s)) with true by lia.
  apply get_in_range. unfold Py.len in Hi. lia.
Qed.

Lemma index_past_end s i : Py.len s <= i -> Py.index s i = None.
Proof.
  intros Hi. unfold Py.index. pose proof (len_nonneg s).
  replace (i <? 0) with false by lia.
  replace ((0 <=? i) && (i <? Py.len s)) with false by lia. reflexivity.
Qed.

(** X7.  [findstream] looks at the two bytes after the [stream] keyword.
    When the data has them, it returns a start at most two bytes after the
    keyword and changes nothing but the log, by at most one entry; it logs
    nothing when the second byte looked at is LF.  When the keyword ends the
    data, it raises IndexError. *)
Theorem findstream_start_within_two (tok : string) (r : reader) :
  0 <= tokstart r + Py.len tok ->
  (tokstart r + Py.len tok + 1 < Py.len (fdata r) ->
   exists start r',
     findstream tok r = Ok start r' /\
     tokstart r + Py.len tok <= start <= tokstart r + Py.len tok + 2 /\
     (r' = r \/ exists e, r' = set_log (log r ++ [e]) r) /\
     (Py.index (fdata r) (start - 1) = Some Py.LF ->
      tokstart r + Py.len tok < start -> r' = r)) /\
  (Py.len (fdata r) <= tokstart r + Py.len tok ->
   findstream tok r = Raise IndexError r).
Proof.
  intros He. set (e := tokstart r + Py.len tok) in *. split.
  - intros Hlen. unfold findstream. unfold mbind at 1, M_bind at 1. cbn [get_reader].
    fold e.
    destruct (index_in_range (fdata r) e ltac:(lia)) as (c0 & Hc0). rewrite Hc0.
    destruct (Ascii.eqb c0 Py.CR) eqn:Ecr.
    + destruct (index_in_range (fdata r) (e + 1) ltac:(lia)) as (c1 & Hc1). rewrite Hc1.
      destruct (Ascii.eqb c1 Py.LF) eqn:Elf; cbn.
      * eexists _, _. split; [reflexivity|]. split; [lia|]. split; [left; reflexivity|].
        reflexivity.
      * eexists _, _. split; [reflexivity|]. split; [lia|]. split; [right; eauto|].
        intros Hlf _. replace (e + 1 + 0 - 1) with e in Hlf by lia.
        rewrite Hc0 in Hlf. injection Hlf as ->. discriminate Ecr.
    + replace (e + 0) with e by lia. rewrite Hc0.
      destruct (Ascii.eqb c0 Py.LF) eqn:Elf; cbn.
      * eexists _, _. split; [reflexivity|]. split; [lia|]. split; [left; reflexivity|].
        reflexivity.
      * eexists _, _. split; [reflexivity|]. split; [lia|]. split; [right; eauto|].
        intros _ Hlt. lia.
  - intros Hlen. unfold findstream. unfold mbind at 1, M_bind at 1. cbn [get_reader].
    fold e. rewrite (index_past_end _ _ Hlen). reflexivity.
Qed.

Lemma findstream_start_within_two_witness :
  exists start r',
    findstream "stream" (set_tokstart 0 lone_cr_stream) = Ok start r' /\
    0 + 6 <= start <= 0 + 6 + 2 /\
    (r' = set_tokstart 0 lone_cr_stream \/
     exists e, r' = set_log ([] ++ [e]) (set_tokstart 0 lone_cr_stream)) /\
    (Py.index (fdata lone_cr_stream) (start - 1) = Some Py.LF -> 0 + 6 < start ->
     r' = set_tokstart 0 lone_cr_stream).
Proof.
  apply (proj1 (findstream_start_within_two "stream" (set_tokstart 0 lone_cr_stream)
                  ltac:(vm_compute; discriminate))).
  vm_compute. reflexivity.
Defined.

(** ** The page tree walker on arbitrary object graphs *)

Lemma andthen_Yields_inv a b errs ps :
  Pages.andthen a b = Pages.Yields errs ps ->
  exists e1 p1 e2 p2,
    a = Pages.Yields e1 p1 /\ b tt = Pages.Yields e2 p2 /\
    errs = e1 ++ e2 /\ ps = p1 ++ p2.
Proof.
  unfold Pages.andthen. destruct a as [e1 p1|e1 x]; [|discriminate].
  destruct (b tt) as [e2 p2|e2 x]; [|discriminate].
  intros [= <- <-]. eauto 10.
Qed.

Lemma readnode_yields_pages : forall (node : Pages.value) errs ps,
  Pages.readnode node = Pages.Yields errs ps -> Forall is_page ps.
Proof.
  fix IH 1. intros [ |t|items|entries] errs ps Hr; cbn in Hr; try discriminate Hr.
  destruct (Pages.is_name (Pages.getitem entries "/Type") "/Page") eqn:Epage.
  { injection Hr as <- <-. constructor; [|constructor]. exists entries. auto. }
  clear Epage.
  destruct (Pages.is_name (Pages.getitem entries "/Type") "/Pages").
  { revert errs ps Hr. induction entries as [|[k v] rest IHe]; intros errs ps Hr;
      [discriminate Hr|].
    destruct (String.eqb k "/Kids"); [|exact (IHe errs ps Hr)].
    destruct v as [ |t|kids|d].
    - discriminate Hr.
    - destruct t; [|discriminate Hr]. injection Hr as <- <-. constructor.
    - clear IHe. revert errs ps Hr.
      induction kids as [|kid kids IHk]; intros errs ps Hr.
      + injection Hr as <- <-. constructor.
      + apply andthen_Yields_inv in Hr as (e1 & p1 & e2 & p2 & Hk & Hrest & -> & ->).
        apply Forall_app. split; [exact (IH kid e1 p1 Hk)|exact (IHk e2 p2 Hrest)].
    - destruct d; [|discriminate Hr]. injection Hr as <- <-. constructor. }
  destruct (Pages.is_name (Pages.getitem entries "/Type") "/Catalog").
  { revert errs ps Hr. induction entries as [|[k v] rest IHe]; intros errs ps Hr;
      [discriminate Hr|].
    destruct (String.eqb k "/Pages"); [exact (IH v errs ps Hr)|exact (IHe errs ps Hr)]. }
  injection Hr as <- <-. constructor.
Qed.

(** X8.  Whatever the object graph, every entry of the page list that
    [readpages] returns is a dictionary whose [/Type] is [/Page]. *)
Theorem readpages_only_pages (node : Pages.value) :
  Forall is_page (Pages.readpages node).2.
Proof.
  unfold Pages.readpages. destruct (Pages.readnode node) as [errs ps|errs e] eqn:Er.
  - exact (readnode_yields_pages node errs ps Er).
  - destruct e; constructor.
Qed.

Lemma readnode_pages_cons kid kids :
  Pages.readnode (pages_node (kid :: kids))
  = Pages.andthen (Pages.readnode kid) (fun _ => Pages.readnode (pages_node kids)).
Proof. reflexivity. Qed.

Lemma readnode_pages_nil : Pages.readnode (pages_node []) = Pages.Yields [] [].
Proof. reflexivity. Qed.

Lemma readnode_catalog_of_kids kids :
  Pages.readnode (catalog_of_kids kids) = Pages.readnode (pages_node kids).
Proof. reflexivity. Qed.

(** Good pages in front only add their pages in front. *)
Lemma readnode_pages_prefix (good : list Pages.ptree) (l : list Pages.value) :
  Pages.readnode (pages_node (map Pages.to_value good ++ l))
  = match Pages.readnode (pages_node l) with
    | Pages.Yields errs ps => Pages.Yields errs (concat (map Pages.flatten good) ++ ps)
    | Pages.Raises errs e => Pages.Raises errs e
    end.
Proof.
  induction good as [|t good IH].
  - cbn [map app concat]. destruct (Pages.readnode (pages_node l)); reflexivity.
  - cbn [map app concat]. rewrite readnode_pages_cons, readnode_to_value.
    unfold Pages.andthen. rewrite IH.
    destruct (Pages.readnode (pages_node l)); [|reflexivity].
    rewrite app_assoc. reflexivity.
Qed.

Lemma readnode_not_dict (v : Pages.value) :
  not_dict v -> Pages.readnode v = Pages.Raises [] TypeError.
Proof. destruct v; cbn; intros Hv; [reflexivity..|contradiction]. Qed.

Lemma readnode_other_type entries :
  other_type entries ->
  Pages.readnode (Pages.VDict entries)
  = Pages.Yields ["Expected /Page or /Pages dictionary"] [].
Proof.
  intros (H1 & H2 & H3). cbn [Pages.readnode]. rewrite H1, H2, H3. reflexivity.
Qed.

(** X9.  One kid that is not a dictionary empties the page list: the pages
    found before it are dropped with the rest, and the error "Invalid page
    tree" is logged. *)
Theorem bad_kid_empties_page_list (good : list Pages.ptree) (bad : Pages.value)
    (rest : list Pages.value) :
  not_dict bad ->
  Pages.readpages (catalog_of_kids (map Pages.to_value good ++ bad :: rest))
  = (["Invalid page tree"], []).
Proof.
  intros Hbad. unfold Pages.readpages.
  rewrite readnode_catalog_of_kids, readnode_pages_prefix, readnode_pages_cons.
  rewrite (readnode_not_dict bad Hbad). reflexivity.
Qed.

Lemma bad_kid_empties_page_list_witness :
  Pages.readpages (catalog_of_kids (map Pages.to_value [page_A; page_B]
                                      ++ Pages.VNone :: [Pages.to_value page_C]))
  = (["Invalid page tree"], []).
Proof. apply (bad_kid_empties_page_list [page_A; page_B] Pages.VNone). exact I. Defined.

(** X10.  A kid that is a dictionary of some other type is logged and left
    out, and the pages of its siblings, before and after, are kept in
    order. *)
Theorem other_type_kid_skipped (before after_ : list Pages.ptree)
    (entries : list (string * Pages.value)) :
  other_type entries ->
  Pages.readpages (catalog_of_kids (map Pages.to_value before
                                      ++ Pages.VDict entries :: map Pages.to_value after_))
  = (["Expected /Page or /Pages dictionary"],
     concat (map Pages.flatten before) ++ concat (map Pages.flatten after_)).
Proof.
  intros Hother. unfold Pages.readpages.
  rewrite readnode_catalog_of_kids, readnode_pages_prefix, readnode_pages_cons.
  rewrite (readnode_other_type entries Hother). unfold Pages.andthen.
  pose proof (readnode_pages_prefix after_ []) as Hafter.
  rewrite app_nil_r, readnode_pages_nil in Hafter. rewrite Hafter.
  cbn [app]. rewrite app_nil_r. reflexivity.
Qed.

Lemma other_type_kid_skipped_witness :
  Pages.readpages (catalog_of_kids (map Pages.to_value [page_A]
                                      ++ Pages.VDict [("/Type", Pages.VObject "/Font")]
                                         :: map Pages.to_value [page_B; page_C]))
  = (["Expected /Page or /Pages dictionary"],
     concat (map Pages.flatten [page_A]) ++ concat (map Pages.flatten [page_B; page_C])).
Proof.
  apply (other_type_kid_skipped [page_A] [page_B; page_C]). repeat split.
Defined.

(** ** The indirect-object table *)

(** X11.  [findindirect] on an identity the table does not hold creates a
    placeholder at a location that was free, registers it as the pending
    entry of the identity and adds the identity to the deferred set; the
    other entries of the table and the objects of the heap stay as they
    are.  On an identity the table holds it returns the entry and changes
    nothing. *)
Theorem findindirect_registers_placeholder (a b : arg) (r : reader) (o g : Z) :
  py_int a r = Ok o r -> py_int b r = Ok g r ->
  (table_get (o, g) r = None ->
   exists l r',
     findindirect a b r = Ok l r' /\
     heap r !! l = None /\
     pending (o, g) l r' /\
     (o, g) ∈ deferred_objects r' /\
     (forall k, k <> (o, g) -> indirect_objects r' !! k = indirect_objects r !! k) /\
     (forall l0 o0, heap r !! l0 = Some o0 -> heap r' !! l0 = Some o0)) /\
  (forall l, table_get (o, g) r = Some l -> findindirect a b r = Ok l r).
Proof.
  intros Ha Hb. split.
  - intros Hg. unfold findindirect.
    rewrite (bind_run _ _ _ _ _ Ha), (bind_run _ _ _ _ _ Hb).
    unfold mbind at 1, M_bind at 1. cbn [get_reader]. rewrite Hg.
    unfold alloc, modify, mbind, M_bind. cbn.
    eexists _, _. split; [reflexivity|]. cbn.
    split; [apply lookup_ge_None_2; lia|].
    split; [split; cbn|].
    + apply lookup_insert_eq.
    + exists (HObj (PdfIndirect (o, g)) None). split; [|reflexivity].
      rewrite lookup_app_r by lia. rewrite Nat.sub_diag. reflexivity.
    + split; [set_solver|]. split.
      * intros k Hk. apply lookup_insert_ne. congruence.
      * intros l0 o0 Hl0. apply lookup_app_l_Some. exact Hl0.
  - intros l Hg. unfold findindirect.
    rewrite (bind_run _ _ _ _ _ Ha), (bind_run _ _ _ _ _ Hb).
    unfold mbind at 1, M_bind at 1. cbn [get_reader]. rewrite Hg. reflexivity.
Qed.

Lemma findindirect_registers_placeholder_witness :
  exists l r',
    findindirect (AInt 7) (AInt 0) (empty_reader EmptyString) = Ok l r' /\
    heap (empty_reader EmptyString) !! l = None /\
    pending (7, 0) l r' /\
    (7, 0) ∈ deferred_objects r' /\
    (forall k, k <> (7, 0) ->
               indirect_objects r' !! k = indirect_objects (empty_reader EmptyString) !! k) /\
    (forall l0 o0, heap (empty_reader EmptyString) !! l0 = Some o0 ->
                   heap r' !! l0 = Some o0).
Proof.
  apply (proj1 (findindirect_registers_placeholder (AInt 7) (AInt 0)
                  (empty_reader EmptyString) 7 0 eq_refl eq_refl)).
  reflexivity.
Defined.

Section TableFacts.
Context `{Tokenizer}.

Lemma keeps_load_each fuel keys : keeps (load_each fuel keys).
Proof.
  pose proof (keeps_loadindirect fuel).
  induction keys as [|k keys IH]; cbn [load_each]; keeps_auto.
Qed.

Lemma keeps_read_all_loop fuel : forall prev, keeps (read_all_loop fuel prev).
Proof.
  induction fuel as [|fuel IH]; intros prev; cbn [read_all_loop]; [apply keeps_out_of_fuel|].
  pose proof (keeps_load_each fuel). keeps_auto.
Qed.

(** X12.  Loading never disturbs what is loaded: a value stored for an
    identity stays stored, at the same object, through any later load of
    any identity, through [read_all], and through the parsing of any array
    or dictionary; none of them changes the object-offset map or the
    data. *)
Theorem stored_values_are_stable (k : key) (l : loc) (r : reader) :
  stored k l r ->
  (forall fuel k2 v r', loadindirect fuel k2 r = Ok v r' ->
     stored k l r' /\ obj_offsets r' = obj_offsets r /\ fdata r' = fdata r) /\
  (forall fuel r', read_all fuel r = Ok tt r' ->
     stored k l r' /\ obj_offsets r' = obj_offsets r /\ fdata r' = fdata r) /\
  (forall fuel result v r', readarray fuel result r = Ok v r' ->
     stored k l r' /\ obj_offsets r' = obj_offsets r /\ fdata r' = fdata r) /\
  (forall fuel v r', readdict fuel r = Ok v r' ->
     stored k l r' /\ obj_offsets r' = obj_offsets r /\ fdata r' = fdata r).
Proof.
  intros Hs.
  assert (Hev : forall r', evolves r r' ->
            stored k l r' /\ obj_offsets r' = obj_offsets r /\ fdata r' = fdata r).
  { intros r' E. split; [exact (ev_stored _ _ E _ _ Hs)|].
    split; [exact (ev_offsets _ _ E)|exact (ev_fdata _ _ E)]. }
  split; [|split; [|split]].
  - intros fuel k2 v r' Hrun. apply Hev. exact (keeps_loadindirect _ _ _ _ _ Hrun).
  - intros fuel r' Hrun. apply Hev. exact (keeps_read_all_loop _ _ _ _ _ Hrun).
  - intros fuel result v r' Hrun. apply Hev.
    exact (proj1 (keeps_parser fuel) result _ _ _ Hrun).
  - intros fuel v r' Hrun. apply Hev. exact (keeps_readdict _ _ _ _ Hrun).
Qed.
End TableFacts.

Lemma loaded_reference_stored : stored (7, 0) 1%nat loaded_reference.
Proof. split; [vm_compute; reflexivity|]. eexists. split; reflexivity. Defined.

Lemma stored_values_are_stable_witness :
  exists v r',
    @loadindirect words 3 (9, 0) loaded_reference = Ok v r' /\
    stored (7, 0) 1%nat r' /\
    obj_offsets r' = obj_offsets loaded_reference /\
    fdata r' = fdata loaded_reference.
Proof.
  eexists _, _. split; [vm_compute; reflexivity|].
  apply (proj1 (@stored_values_are_stable words (7, 0) 1%nat loaded_reference
                  loaded_reference_stored) 3%nat (9, 0) None).
  vm_compute. reflexivity.
Defined.

Section ReadAllFacts.
Context `{Tokenizer}.

Lemma load_each_unresolvable fuel : forall keys r,
  (forall k, k ∈ keys -> exists p, pending k p r /\ obj_offsets r !! k = None) ->
  load_each (S fuel) keys r
  = Ok tt (set_log (log r ++ replicate (length keys) not_found) r).
Proof.
  induction keys as [|k keys IH]; intros r Hall.
  - cbn. rewrite app_nil_r. destruct r; reflexivity.
  - cbn [load_each].
    destruct (Hall k ltac:(left)) as (p & Hp & Hk).
    rewrite (bind_run _ _ _ _ _ (load_no_offset fuel k p r Hp Hk)).
    rewrite IH.
    + cbn. unfold set_log. cbn. rewrite <- app_assoc. reflexivity.
    + intros k' Hk'. destruct (Hall k' ltac:(right; exact Hk')) as (p' & Hp' & Hk'').
      exists p'. split; [exact Hp'|exact Hk''].
Qed.

(** X13.  When every identity of the deferred set is a placeholder without
    an offset, [read_all] returns after one pass: it logs one "Did not find
    PDF object" warning per deferred identity and leaves the deferred set,
    the table and the heap as they were. *)
Theorem read_all_gives_up_once (fuel : nat) (r : reader) :
  (forall k, k ∈ deferred_objects r ->
             exists p, pending k p r /\ obj_offsets r !! k = None) ->
  exists r',
    read_all (S (S fuel)) r = Ok tt r' /\
    log r' = log r ++ replicate (size (deferred_objects r)) not_found /\
    deferred_objects r' = deferred_objects r /\
    indirect_objects r' = indirect_objects r /\
    heap r' = heap r.
Proof.
  intros Hall. unfold read_all. cbn [read_all_loop].
  unfold mbind at 1, M_bind at 1. cbn [get_reader].
  assert (Hd : deferred_objects r ∖ ∅ = deferred_objects r) by set_solver.
  rewrite Hd. case_bool_decide as He.
  - exists r. split; [reflexivity|]. rewrite He, size_empty. cbn.
    rewrite app_nil_r. auto.
  - rewrite (bind_run _ _ _ _ _ (load_each_unresolvable fuel _ r
               ltac:(intros k Hk; apply Hall; apply elem_of_elements; exact Hk))).
    unfold mbind at 1, M_bind at 1. cbn [get_reader deferred_objects set_log].
    rewrite bool_decide_eq_true_2 by set_solver.
    eexists. split; [reflexivity|]. cbn. auto.
Qed.
End ReadAllFacts.

Lemma read_all_gives_up_once_witness :
  exists r',
    @read_all words 2 unknown_reference = Ok tt r' /\
    log r' = log unknown_reference
             ++ replicate (size (deferred_objects unknown_reference)) not_found /\
    deferred_objects r' = deferred_objects unknown_reference /\
    indirect_objects r' = indirect_objects unknown_reference /\
    heap r' = heap unknown_reference.
Proof.
  apply (@read_all_gives_up_once words 0 unknown_reference).
  intros k Hk. exists 0%nat.
  assert (k = (7, 0)) as ->.
  { unfold unknown_reference in Hk. cbn [deferred_objects] in Hk.
    apply elem_of_singleton in Hk. exact Hk. }
  split; [exact unknown_reference_pending|vm_compute; reflexivity].
Defined.

(** ** The fields of a cross-reference stream row *)

Lemma be_value_range d : forall acc, 0 <= acc ->
  acc * 256 ^ Py.len d <= be_value acc d < (acc + 1) * 256 ^ Py.len d.
Proof.
  induction d as [|c d IH]; intros acc Hacc.
  - cbn [be_value]. change (256 ^ Py.len EmptyString) with 1. lia.
  - cbn [be_value]. pose proof (nat_ascii_bounded c) as Hc.
    specialize (IH (256 * acc + Z.of_nat (nat_of_ascii c)) ltac:(lia)).
    unfold Py.len in *. cbn [String.length]. rewrite Nat2Z.inj_succ.
    rewrite Z.pow_succ_r by lia.
    pose proof (Z.pow_pos_nonneg 256 (Z.of_nat (String.length d)) ltac:(lia) ltac:(lia)).
    nia.
Qed.

Lemma length_substring_le : forall s n m,
  (String.length (String.substring n m s) <= m)%nat.
Proof.
  induction s as [|c s IH]; intros n m.
  - destruct n, m; cbn; lia.
  - destruct n as [|n].
    + destruct m as [|m]; cbn; [lia|]. specialize (IH 0%nat m). lia.
    + cbn. apply IH.
Qed.

Lemma slice_length_le s a w : 0 <= w -> Py.len (Py.slice s a (a + w)) <= w.
Proof.
  intros Hw. unfold Py.slice, Py.len at 1.
  pose proof (length_substring_le s
                (Z.to_nat (Py.norm (Py.len s) a))
                (Z.to_nat (Py.norm (Py.len s) (a + w) - Py.norm (Py.len s) a))) as Hl.
  pose proof (len_nonneg s).
  assert (Py.norm (Py.len s) (a + w) - Py.norm (Py.len s) a <= w).
  { unfold Py.norm. destruct (a <? 0) eqn:Ea, (a + w <? 0) eqn:Eb; lia. }
  lia.
Qed.



(** ** Parsing token sequences *)

Section ReadsFacts.
Context `{Tokenizer}.

Lemma reads_next data p tok toks p' (r : reader) :
  reads data p (tok :: toks) p' -> fdata r = data -> floc r = p ->
  exists start stop,
    next r = Ok tok (set_floc stop (set_tokstart start r)) /\
    iter_next r = Ok (Some tok) (set_floc stop (set_tokstart start r)) /\
    reads data stop toks p'.
Proof.
  intros Hr Hd Hp. inversion Hr as [|p0 tok0 start stop toks0 p0' Ht Hrest]; subst.
  exists start, stop. unfold next, iter_next. rewrite Ht. auto.
Qed.

Lemma text_at_grows (r r' : reader) (v : pyval) (t : string) :
  (forall l o, heap r !! l = Some o -> heap r' !! l = Some o) ->
  text_at r v = Some t -> text_at r' v = Some t.
Proof.
  intros Hh. destruct v as [l|]; cbn; [|discriminate].
  destruct (heap r !! l) as [o|] eqn:E; [|discriminate].
  rewrite (Hh _ _ E). auto.
Qed.

Lemma texts_grow (r r' : reader) (items : list pyval) (texts : list string) :
  (forall l o, heap r !! l = Some o -> heap r' !! l = Some o) ->
  map (text_at r) items = map Some texts ->
  map (text_at r') items = map Some texts.
Proof.
  intros Hh. revert texts. induction items as [|v items IH]; intros [|t texts] Hm;
    cbn in *; try discriminate; [reflexivity|].
  injection Hm as Hv Hm. rewrite (text_at_grows r r' v t Hh Hv), (IH texts Hm). reflexivity.
Qed.

(** The array loop on plain tokens up to the closing bracket or the end of
    the input. *)
Lemma readarray_plain_loop : forall toks fuel result texts p1 (r : reader),
  reads (fdata r) (floc r) toks p1 ->
  Forall plain toks ->
  (length toks < fuel)%nat ->
  map (text_at r) result = map Some texts ->
  (exists s p', tok_next (fdata r) p1 = Some ("]", s, p')) \/ tok_next (fdata r) p1 = None ->
  exists l items r',
    readarray fuel result r = Ok (Some l) r' /\
    heap r' !! l = Some (HObj (PdfArray items) None) /\
    map (text_at r') items = map Some (texts ++ toks) /\
    length items = (length result + length toks)%nat /\
    (forall l0 o0, heap r !! l0 = Some o0 -> heap r' !! l0 = Some o0) /\
    log r' = log r /\ indirect_objects r' = indirect_objects r /\
    deferred_objects r' = deferred_objects r /\ fdata r' = fdata r /\
    ((exists s, tok_next (fdata r) p1 = Some ("]", s, floc r')) \/
     (tok_next (fdata r) p1 = None /\ floc r' = p1)).
Proof.
  induction toks as [|tok toks IH]; intros fuel result texts p1 r Hr Hplain Hfuel Htexts Hend.
  - inversion Hr; subst. destruct fuel as [|fuel]; [lia|]. cbn [readarray].
    unfold mbind at 1, M_bind at 1, iter_next.
    assert (Hfin : forall r0 : reader,
              heap r0 = heap r -> log r0 = log r ->
              indirect_objects r0 = indirect_objects r ->
              deferred_objects r0 = deferred_objects r -> fdata r0 = fdata r ->
              exists l items r',
                (l ← alloc (PdfArray result); mret (Some l)) r0 = Ok (Some l) r' /\
                heap r' !! l = Some (HObj (PdfArray items) None) /\
                map (text_at r') items = map Some (texts ++ []) /\
                length items = (length result + 0)%nat /\
                (forall l0 o0, heap r !! l0 = Some o0 -> heap r' !! l0 = Some o0) /\
                log r' = log r /\ indirect_objects r' = indirect_objects r /\
                deferred_objects r' = deferred_objects r /\ fdata r' = fdata r /\
                floc r' = floc r0).
    { intros r0 Hh Hl Ht Hd Hf. exists (length (heap r0)), result.
      eexists. split; [reflexivity|]. cbn.
      split; [rewrite lookup_app_r by lia; rewrite Nat.sub_diag; reflexivity|].
      split.
      { rewrite app_nil_r. apply (texts_grow r); [|exact Htexts].
        intros l0 o0 Hl0. cbn. rewrite Hh. apply lookup_app_l_Some. exact Hl0. }
      split; [lia|].
      split; [intros l0 o0 Hl0; rewrite Hh; apply lookup_app_l_Some; exact Hl0|].
      auto. }
    destruct Hend as [(s & p' & Hend)|Hend]; rewrite Hend.
    + cbn [in_bracket_R existsb String.eqb Ascii.eqb Bool.eqb orb]. cbn match.
      destruct (Hfin (set_floc p' (set_tokstart s r))) as
        (l & items & r' & H1 & H2 & H3 & H4 & H5 & H6 & H7 & H8 & H9 & H10);
        try reflexivity.
      exists l, items, r'. repeat (split; [assumption|]).
      left. exists s. rewrite H10. reflexivity.
    + destruct (Hfin r) as
        (l & items & r' & H1 & H2 & H3 & H4 & H5 & H6 & H7 & H8 & H9 & H10);
        try reflexivity.
      exists l, items, r'. repeat (split; [assumption|]).
      right. split; [reflexivity|exact H10].
  - destruct fuel as [|fuel]; [cbn in Hfuel; lia|].
    destruct (reads_next _ _ _ _ _ r Hr eq_refl eq_refl) as (start & stop & _ & Hi & Hrest).
    apply Forall_cons in Hplain as [[Hb Hsp] Hplain].
    cbn [readarray]. rewrite (bind_run _ _ _ _ _ Hi). rewrite Hb, Hsp.
    unfold mbind at 1, M_bind at 1, alloc. cbn [heap set_floc set_tokstart].
    match goal with
    | |- exists l items r', readarray fuel ?res ?r1 = _ /\ _ =>
        destruct (IH fuel res (texts ++ [tok]) p1 r1) as
          (l & items & r' & H1 & H2 & H3 & H4 & H5 & H6 & H7 & H8 & H9 & H10)
    end.
    + exact Hrest.
    + exact Hplain.
    + cbn in Hfuel. lia.
    + rewrite !map_app. cbn [map]. f_equal.
      * apply (texts_grow r); [|exact Htexts].
        intros l0 o0 Hl0. cbn. apply lookup_app_l_Some. exact Hl0.
      * cbn. rewrite lookup_app_r by lia. rewrite Nat.sub_diag. reflexivity.
    + exact Hend.
    + exists l, items, r'. split; [exact H1|]. split; [exact H2|].
      split; [rewrite H3, <- app_assoc; reflexivity|].
      split; [rewrite H4, length_app; cbn; lia|].
      split; [intros l0 o0 Hl0; apply H5; cbn; apply lookup_app_l_Some; exact Hl0|].
      repeat (split; [assumption|]). exact H10.
Qed.
End ReadsFacts.

Ltac reads_run :=
  repeat (eapply reads_cons; [vm_compute; reflexivity|]); apply reads_nil.

(** X15. An array body of plain tokens (no delimiter, no [R]) that ends at
    the closing bracket or at the end of the input is read into an array of
    exactly these tokens, in their order; nothing is logged, and the table
    and the deferred set are left alone. *)
Theorem readarray_keeps_plain_tokens `{Tokenizer} (fuel : nat) (toks : list string)
    (p1 : Z) (r : reader) :
  reads (fdata r) (floc r) toks p1 ->
  Forall plain toks ->
  (length toks < fuel)%nat ->
  (exists s p', tok_next (fdata r) p1 = Some ("]", s, p')) \/ tok_next (fdata r) p1 = None ->
  exists l items r',
    readarray fuel [] r = Ok (Some l) r' /\
    heap r' !! l = Some (HObj (PdfArray items) None) /\
    map (text_at r') items = map Some toks /\
    log r' = log r /\ indirect_objects r' = indirect_objects r /\
    deferred_objects r' = deferred_objects r.
Proof.
  intros Hr Hp Hf Hend.
  destruct (readarray_plain_loop toks fuel [] [] p1 r Hr Hp Hf eq_refl Hend)
    as (l & items & r' & H1 & H2 & H3 & _ & _ & H6 & H7 & H8 & _).
  exists l, items, r'. repeat (split; [assumption|]). assumption.
Qed.

Lemma readarray_keeps_plain_tokens_witness :
  exists l items r',
    @readarray words 4 [] (empty_reader "/A 12 x") = Ok (Some l) r' /\
    heap r' !! l = Some (HObj (PdfArray items) None) /\
    map (text_at r') items = map Some ["/A"; "12"; "x"] /\
    log r' = [] /\ indirect_objects r' = ∅ /\ deferred_objects r' = ∅.
Proof.
  apply (@readarray_keeps_plain_tokens words 4 ["/A"; "12"; "x"] 7 (empty_reader "/A 12 x")).
  - reads_run.
  - repeat constructor.
  - cbn. lia.
  - right. reflexivity.
Defined.

Lemma slash_name (t : string) :
  startswith_slash t = true -> exists s, t = String "/" s.
Proof.
  destruct t as [|a s]; [discriminate|].
  destruct a as [[] [] [] [] [] [] [] []]; try discriminate. eauto.
Qed.

Lemma last_value_snoc (done : list (string * string)) (k0 v k : string) :
  last_value (done ++ [(k0, v)]) k =
    if String.eqb k0 k then Some v else last_value done k.
Proof.
  induction done as [|[k1 v1] done IH]; cbn [app last_value].
  - reflexivity.
  - rewrite IH. destruct (String.eqb k0 k); [reflexivity|].
    destruct (last_value done k); reflexivity.
Qed.

Section DictFacts.
Context `{Tokenizer}.

Lemma readdict_first (fuel : nat) (t0 tok : string) (d : gmap string loc) (r r1 : reader) :
  next r = Ok tok r1 ->
  readdict_loop (S fuel) true t0 d r = readdict_loop (S fuel) false tok d r1.
Proof.
  intros Hn. cbn [readdict_loop]. rewrite (bind_run _ _ _ _ _ Hn). reflexivity.
Qed.

(** The dictionary loop on name/value pairs whose values are plain tokens. *)
Lemma readdict_plain_loop : forall pairs fuel done tok rest p' d (r : reader),
  tok :: rest = pair_tokens pairs ++ [">>"] ->
  reads (fdata r) (floc r) rest p' ->
  Forall (fun kv => startswith_slash (fst kv) = true /\ special (snd kv) = None) pairs ->
  (length pairs < fuel)%nat ->
  (forall k, entry_text r d k = last_value done k) ->
  (forall k, last_value done k = None -> d !! k = None) ->
  exists l d' r',
    readdict_loop fuel false tok d r = Ok (Some l) r' /\
    heap r' !! l = Some (HObj (PdfDict d' None) None) /\
    (forall k, entry_text r' d' k = last_value (done ++ pairs) k) /\
    (forall k, last_value (done ++ pairs) k = None -> d' !! k = None) /\
    log r' = log r /\ indirect_objects r' = indirect_objects r /\
    deferred_objects r' = deferred_objects r /\ floc r' = p'.
Proof.
  induction pairs as [|[k0 v] pairs IH];
    intros fuel done tok rest p' d r Htoks Hr Hwf Hfuel Hinv Hdom.
  - cbn in Htoks. injection Htoks as -> ->. inversion Hr; subst.
    destruct fuel as [|fuel]; [lia|]. cbn [readdict_loop].
    exists (length (heap r)), d. eexists. split; [reflexivity|].
    cbn. split; [rewrite lookup_app_r by lia; rewrite Nat.sub_diag; reflexivity|].
    rewrite app_nil_r. split.
    { intros k. rewrite <- Hinv. unfold entry_text.
      destruct (text_at r (d !! k)) as [t|] eqn:E.
      - apply (text_at_grows r); [|exact E].
        intros l0 o0 Hl0. cbn. apply lookup_app_l_Some. exact Hl0.
      - specialize (Hinv k). unfold entry_text in Hinv. rewrite E in Hinv.
        symmetry in Hinv. rewrite (Hdom k Hinv). reflexivity. }
    auto.
  - destruct fuel as [|fuel]; [cbn in Hfuel; lia|].
    apply Forall_cons in Hwf as [[Hk Hv] Hwf]. cbn [fst snd] in Hk, Hv.
    cbn [pair_tokens app] in Htoks. injection Htoks as -> ->.
    destruct (pair_tokens pairs ++ [">>"]) as [|t1 T] eqn:ET.
    { destruct (pair_tokens pairs); discriminate. }
    destruct (reads_next _ _ _ _ _ r Hr eq_refl eq_refl) as (s1 & p1 & Hn1 & _ & Hr1).
    set (r1 := set_floc p1 (set_tokstart s1 r)) in *.
    destruct (reads_next _ _ _ _ _ r1 Hr1 eq_refl eq_refl) as (s2 & p2 & Hn2 & _ & Hr2).
    set (r2 := set_floc p2 (set_tokstart s2 r1)) in *.
    assert (Ht1 : Py.isdigit t1 = false).
    { destruct pairs as [|[k1 v1] pairs].
      - cbn in ET. injection ET as <- _. reflexivity.
      - cbn in ET. injection ET as <- _. apply Forall_cons in Hwf as [[Hk1 _] _].
        cbn in Hk1. apply slash_name in Hk1 as [s ->]. reflexivity. }
    destruct (slash_name _ Hk) as [sk ->].
    cbn [readdict_loop]. unfold mbind at 1, M_bind at 1. cbn [mret M_ret].
    change (String.eqb (String "/" sk) ">>") with false. cbn match.
    change (negb (startswith_slash (String "/" sk))) with false. cbn match.
    rewrite (bind_run _ _ _ _ _ Hn1). rewrite Hv.
    rewrite (bind_run _ _ _ _ _ Hn2). rewrite Ht1, andb_false_r.
    unfold mbind at 1, M_bind at 1, alloc.
    match goal with
    | |- exists l d' r', readdict_loop fuel false t1 ?d1 ?r3 = _ /\ _ =>
        destruct (IH fuel (done ++ [(String "/" sk, v)]) t1 T p' d1 r3) as
          (l & d' & r' & H1 & H2 & H3 & H4 & H5 & H6 & H7 & H8)
    end.
    + reflexivity.
    + exact Hr2.
    + exact Hwf.
    + cbn in Hfuel. lia.
    + intros k. rewrite last_value_snoc. unfold entry_text, dict_set.
      destruct (String.eqb (String "/" sk) k) eqn:Ek.
      * apply String.eqb_eq in Ek as <-. rewrite lookup_insert_eq. cbn.
        rewrite lookup_app_r by lia. rewrite Nat.sub_diag. reflexivity.
      * apply String.eqb_neq in Ek. rewrite lookup_insert_ne by exact Ek.
        rewrite <- Hinv. unfold entry_text.
        destruct (text_at r (d !! k)) as [t|] eqn:E.
        -- apply (text_at_grows r); [|exact E].
           intros l0 o0 Hl0. cbn. apply lookup_app_l_Some. exact Hl0.
        -- specialize (Hinv k). unfold entry_text in Hinv. rewrite E in Hinv.
           symmetry in Hinv. rewrite (Hdom k Hinv). reflexivity.
    + intros k. rewrite last_value_snoc. unfold dict_set.
      destruct (String.eqb (String "/" sk) k) eqn:Ek; [discriminate|].
      apply String.eqb_neq in Ek. rewrite lookup_insert_ne by exact Ek. apply Hdom.
    + exists l, d', r'. rewrite <- app_assoc in H3, H4. cbn [app] in H3, H4.
      split; [exact H1|]. split; [exact H2|]. split; [exact H3|]. split; [exact H4|].
      auto.
Qed.
End DictFacts.

(** The dictionary parser on name/value pairs closed by [>>]. *)
Lemma readdict_plain `{Tokenizer} (fuel : nat)
    (pairs : list (string * string)) (p' : Z) (r : reader) :
  reads (fdata r) (floc r) (pair_tokens pairs ++ [">>"]) p' ->
  Forall (fun kv => startswith_slash (fst kv) = true /\ special (snd kv) = None) pairs ->
  (length pairs < fuel)%nat ->
  exists l d r',
    readdict fuel r = Ok (Some l) r' /\
    heap r' !! l = Some (HObj (PdfDict d None) None) /\
    (forall k, entry_text r' d k = last_value pairs k) /\
    (forall k, last_value pairs k = None -> d !! k = None) /\
    log r' = log r /\ indirect_objects r' = indirect_objects r /\
    deferred_objects r' = deferred_objects r /\ floc r' = p'.
Proof.
  intros Hr Hwf Hfuel.
  destruct (pair_tokens pairs ++ [">>"]) as [|tok rest] eqn:ET.
  { destruct (pair_tokens pairs); discriminate. }
  destruct (reads_next _ _ _ _ _ r Hr eq_refl eq_refl) as (s1 & p1 & Hn1 & _ & Hr1).
  destruct fuel as [|fuel]; [lia|].
  unfold readdict. rewrite (readdict_first _ _ _ _ _ _ Hn1).
  destruct (readdict_plain_loop pairs (S fuel) [] tok rest p' ∅
              (set_floc p1 (set_tokstart s1 r))) as
    (l & d & r' & H1 & H2 & H3 & H4 & H5 & H6 & H7 & H8); auto.
  exists l, d, r'. repeat (split; [assumption|]). assumption.
Qed.

(** X16. A dictionary body of name/value pairs whose values are plain
    tokens, closed by [>>], is read into a dictionary that holds, under each
    name, the value of the last pair with this name, and nothing under any
    other name; nothing is logged, and the table and the deferred set are
    left alone. *)
Theorem readdict_keeps_last_value `{Tokenizer} (fuel : nat)
    (pairs : list (string * string)) (p' : Z) (r : reader) :
  reads (fdata r) (floc r) (pair_tokens pairs ++ [">>"]) p' ->
  Forall (fun kv => startswith_slash (fst kv) = true /\ special (snd kv) = None) pairs ->
  (length pairs < fuel)%nat ->
  exists l d r',
    readdict fuel r = Ok (Some l) r' /\
    heap r' !! l = Some (HObj (PdfDict d None) None) /\
    (forall k, entry_text r' d k = last_value pairs k) /\
    (forall k, last_value pairs k = None -> d !! k = None) /\
    log r' = log r /\ indirect_objects r' = indirect_objects r /\
    deferred_objects r' = deferred_objects r /\ floc r' = p'.
Proof. exact (readdict_plain fuel pairs p' r). Qed.

Lemma readdict_keeps_last_value_witness :
  exists l d r',
    @readdict words 4 (empty_reader "/A 1 /B /x /A 2 >> endobj") = Ok (Some l) r' /\
    heap r' !! l = Some (HObj (PdfDict d None) None) /\
    (forall k, entry_text r' d k = last_value [("/A", "1"); ("/B", "/x"); ("/A", "2")] k) /\
    (forall k, last_value [("/A", "1"); ("/B", "/x"); ("/A", "2")] k = None -> d !! k = None) /\
    log r' = [] /\ indirect_objects r' = ∅ /\ deferred_objects r' = ∅ /\ floc r' = 18.
Proof.
  apply (@readdict_keeps_last_value words 4 [("/A", "1"); ("/B", "/x"); ("/A", "2")] 18
           (empty_reader "/A 1 /B /x /A 2 >> endobj")).
  - reads_run.
  - repeat constructor.
  - cbn. lia.
Defined.

(** ** Loading a well-formed object *)

Section LoadFacts.
Context `{Tokenizer}.

Lemma multiple_three data a b c rest p' (r : reader) :
  reads data (floc r) (a :: b :: c :: rest) p' -> fdata r = data ->
  exists s q, multiple 3 r = Ok [a; b; c] (set_floc q (set_tokstart s r)) /\
              reads data q rest p'.
Proof.
  intros Hr Hd.
  destruct (reads_next _ _ _ _ _ r Hr Hd eq_refl) as (s1 & p1 & _ & Hi1 & Hr1).
  destruct (reads_next _ _ _ _ _ (set_floc p1 (set_tokstart s1 r)) Hr1 Hd eq_refl)
    as (s2 & p2 & _ & Hi2 & Hr2).
  destruct (reads_next _ _ _ _ _ (set_floc p2 (set_tokstart s2 (set_floc p1 (set_tokstart s1 r))))
              Hr2 Hd eq_refl) as (s3 & p3 & _ & Hi3 & Hr3).
  exists s3, p3. split; [|exact Hr3].
  cbn [multiple]. unfold mbind, M_bind. rewrite Hi1. cbn beta iota.
  rewrite Hi2. cbn beta iota. rewrite Hi3. destruct r; reflexivity.
Qed.

Lemma set_indirect_run (l : loc) (o : hobj) (k : key) (r : reader) :
  heap r !! l = Some o ->
  set_indirect (Some l) k r
  = Ok tt (set_heap (<[l := HObj (body o) (Some k)]> (heap r)) r).
Proof.
  intros Ho. cbn [set_indirect]. unfold mbind, M_bind, deref. rewrite Ho. reflexivity.
Qed.

Lemma deferred_remove_run (k : key) (r : reader) :
  k ∈ deferred_objects r ->
  deferred_remove k r = Ok tt (set_deferred_objects (deferred_objects r ∖ {[k]}) r).
Proof.
  intros Hk. unfold deferred_remove. rewrite bool_decide_eq_true_2 by exact Hk. reflexivity.
Qed.

(** A load whose offset leads to the header [N G obj] of its identity goes
    on to read the value behind the header. *)
Lemma load_at_header (fuel : nat) (k : key) (p : loc) (off : Z) (tn tg : string)
    (rest : list string) (p' : Z) (r : reader) :
  pending k p r -> obj_offsets r !! k = Some off -> off <> 0 ->
  reads (fdata r) off (tn :: tg :: "obj" :: rest) p' ->
  Py.isdigit tn = true -> Py.int tn = Some (fst k) ->
  Py.isdigit tg = true -> Py.int tg = Some (snd k) ->
  exists s q,
    reads (fdata r) q rest p' /\
    loadindirect (S fuel) k r
    = (tok0 ← next;
       obj ← read_value fuel tok0;
       table_set k obj;;
       deferred_remove k;;
       set_indirect obj k;;
       finish_object (loadindirect fuel) k obj) (set_floc q (set_tokstart s r)).
Proof.
  intros Hp Hoff Hnz Hr Hdn Hin Hdg Hig.
  destruct (pending_is_indirect _ _ _ Hp) as [Hg Hi].
  destruct (multiple_three (fdata r) tn tg "obj" rest p' (set_floc off r) Hr eq_refl)
    as (s & q & Hm & Hrest).
  exists s, q. split; [exact Hrest|].
  cbn [loadindirect]. unfold mbind at 1, M_bind at 1. cbn [get_reader].
  rewrite Hg, (bind_run _ _ _ _ _ Hi), Hoff. cbn [negb].
  change (default 0 (Some off)) with off.
  destruct (off =? 0) eqn:E; [lia|].
  assert (Hh : read_header k off r = Ok true (set_floc q (set_tokstart s r))).
  { unfold read_header. unfold mbind at 1, M_bind at 1, modify at 1.
    rewrite (bind_run _ _ _ _ _ Hm). unfold header_ok.
    rewrite Hdn, Hin, Hdg, Hig. rewrite !bool_decide_eq_true_2 by reflexivity.
    cbn. destruct r; reflexivity. }
  rewrite (bind_run _ _ _ _ _ Hh). reflexivity.
Qed.

(** ... and when that value is a plain token, the token is stored and
    marked, and the load goes on to look for [endobj]. *)
Lemma load_plain_value (fuel : nat) (k : key) (p : loc) (off : Z) (tn tg tok : string)
    (rest : list string) (p' : Z) (r : reader) :
  pending k p r -> k ∈ deferred_objects r ->
  obj_offsets r !! k = Some off -> off <> 0 ->
  reads (fdata r) off (tn :: tg :: "obj" :: tok :: rest) p' ->
  Py.isdigit tn = true -> Py.int tn = Some (fst k) ->
  Py.isdigit tg = true -> Py.int tg = Some (snd k) ->
  special tok = None ->
  exists r1,
    loadindirect (S fuel) k r
    = finish_object (loadindirect fuel) k (Some (length (heap r))) r1 /\
    heap r1 = heap r ++ [HObj (PdfObject tok) (Some k)] /\
    indirect_objects r1 = <[k := Some (length (heap r))]> (indirect_objects r) /\
    deferred_objects r1 = deferred_objects r ∖ {[k]} /\
    log r1 = log r /\ fdata r1 = fdata r /\
    reads (fdata r) (floc r1) rest p'.
Proof.
  intros Hp Hd Hoff Hnz Hr Hdn Hin Hdg Hig Hsp.
  destruct (load_at_header fuel k p off tn tg _ p' r Hp Hoff Hnz Hr Hdn Hin Hdg Hig)
    as (s & q & Hrest & ->).
  destruct (reads_next _ _ _ _ _ (set_floc q (set_tokstart s r)) Hrest eq_refl eq_refl)
    as (s1 & p1 & Hn1 & _ & Hr1).
  rewrite (bind_run _ _ _ _ _ Hn1). unfold read_value. rewrite Hsp.
  unfold mbind at 1, M_bind at 1. unfold mbind at 1, M_bind at 1, alloc at 1.
  cbn [mret M_ret]. cbn [heap set_floc set_tokstart].
  unfold mbind at 1, M_bind at 1, table_set at 1, modify at 1.
  match goal with
  | |- context [ (deferred_remove k ≫= _) ?r0 ] =>
      rewrite (bind_run _ _ _ _ _ (deferred_remove_run k r0 Hd))
  end.
  match goal with
  | |- context [ (set_indirect (Some ?l) k ≫= _) ?r0 ] =>
      rewrite (bind_run _ _ _ _ _
                 (set_indirect_run l (HObj (PdfObject tok) None) k r0
                    ltac:(cbn; rewrite lookup_app_r by lia; rewrite Nat.sub_diag; reflexivity)))
  end.
  eexists. split; [reflexivity|]. cbn.
  split.
  { rewrite insert_app_r_alt by lia. rewrite Nat.sub_diag. reflexivity. }
  auto 10.
Qed.
End LoadFacts.

(** X17. A pending identity whose recorded offset leads to
    [N G obj token endobj], with [N G] the identity and the token a plain
    one, is loaded in one step: the token becomes a new object marked with
    the identity, the table maps the identity to it, the identity leaves
    the deferred set, and nothing is logged. *)
Theorem well_formed_object_is_loaded `{Tokenizer} (fuel : nat) (k : key) (p : loc)
    (off : Z) (tn tg tok : string) (p' : Z) (r : reader) :
  pending k p r -> k ∈ deferred_objects r ->
  obj_offsets r !! k = Some off -> off <> 0 ->
  reads (fdata r) off [tn; tg; "obj"; tok; "endobj"] p' ->
  Py.isdigit tn = true -> Py.int tn = Some (fst k) ->
  Py.isdigit tg = true -> Py.int tg = Some (snd k) ->
  special tok = None ->
  exists r',
    loadindirect (S fuel) k r = Ok (Some (length (heap r))) r' /\
    heap r' = heap r ++ [HObj (PdfObject tok) (Some k)] /\
    indirect_objects r' = <[k := Some (length (heap r))]> (indirect_objects r) /\
    deferred_objects r' = deferred_objects r ∖ {[k]} /\
    log r' = log r /\ floc r' = p'.
Proof.
  intros Hp Hd Hoff Hnz Hr Hdn Hin Hdg Hig Hsp.
  destruct (load_plain_value fuel k p off tn tg tok _ p' r Hp Hd Hoff Hnz Hr Hdn Hin Hdg Hig Hsp)
    as (r1 & -> & Hh & Ht & Hdf & Hl & Hf & Hr1).
  rewrite <- Hf in Hr1.
  destruct (reads_next _ _ _ _ _ r1 Hr1 eq_refl eq_refl) as (s2 & p2 & Hn2 & _ & Hr2).
  inversion Hr2; subst.
  unfold finish_object. rewrite (bind_run _ _ _ _ _ Hn2).
  cbn [String.eqb Ascii.eqb Bool.eqb]. cbn match.
  eexists. split; [reflexivity|]. cbn. auto.
Qed.

Lemma well_formed_object_is_loaded_witness :
  exists r',
    @loadindirect words 1 (7, 0) known_reference = Ok (Some 1%nat) r' /\
    heap r' = heap known_reference ++ [HObj (PdfObject "/Seven") (Some (7, 0))] /\
    indirect_objects r' = <[(7, 0) := Some 1%nat]> (indirect_objects known_reference) /\
    deferred_objects r' = deferred_objects known_reference ∖ {[(7, 0)]} /\
    log r' = [] /\ floc r' = 26.
Proof.
  apply (@well_formed_object_is_loaded words 0 (7, 0) 0%nat 5 "7" "0" "/Seven" 26
           known_reference).
  - split; [reflexivity|]. eexists. split; reflexivity.
  - unfold known_reference. cbn [deferred_objects]. apply elem_of_singleton. reflexivity.
  - reflexivity.
  - lia.
  - reads_run.
  - reflexivity.
  - reflexivity.
  - reflexivity.
  - reflexivity.
  - reflexivity.
Defined.

(** X18. When the value token of an object [N G obj token] of a pending
    identity ends with [endobj] glued to it and another token follows, the
    load logs the missing delimiter and answers a second new object: the
    token without its last six bytes, marked with the identity; the table
    maps the identity to this second object, and the identity leaves the
    deferred set. *)
Theorem glued_endobj_is_cut_off `{Tokenizer} (fuel : nat) (k : key) (p : loc)
    (off : Z) (tn tg tok following : string) (p' : Z) (r : reader) :
  pending k p r -> k ∈ deferred_objects r ->
  obj_offsets r !! k = Some off -> off <> 0 ->
  reads (fdata r) off [tn; tg; "obj"; tok; following] p' ->
  Py.isdigit tn = true -> Py.int tn = Some (fst k) ->
  Py.isdigit tg = true -> Py.int tg = Some (snd k) ->
  special tok = None ->
  Py.endswith tok "endobj" = true ->
  following <> "endobj" ->
  exists r',
    loadindirect (S fuel) k r = Ok (Some (S (length (heap r)))) r' /\
    heap r' = heap r ++ [HObj (PdfObject tok) (Some k);
                         HObj (PdfObject (Py.slice tok 0 (-6))) (Some k)] /\
    indirect_objects r' = <[k := Some (S (length (heap r)))]> (indirect_objects r) /\
    deferred_objects r' = deferred_objects r ∖ {[k]} /\
    log r' = log r ++ [Error "No space or delimiter before endobj"] /\
    floc r' = p'.
Proof.
  intros Hp Hd Hoff Hnz Hr Hdn Hin Hdg Hig Hsp Hend Hfol.
  destruct (load_plain_value fuel k p off tn tg tok _ p' r Hp Hd Hoff Hnz Hr Hdn Hin Hdg Hig Hsp)
    as (r1 & -> & Hh & Ht & Hdf & Hl & Hf & Hr1).
  rewrite <- Hf in Hr1.
  destruct (reads_next _ _ _ _ _ r1 Hr1 eq_refl eq_refl) as (s2 & p2 & Hn2 & _ & Hr2).
  inversion Hr2; subst.
  unfold finish_object. rewrite (bind_run _ _ _ _ _ Hn2).
  apply String.eqb_neq in Hfol. rewrite Hfol.
  set (r2 := set_floc p' (set_tokstart s2 r1)).
  assert (Ho : heap r2 !! length (heap r) = Some (HObj (PdfObject tok) (Some k))).
  { change (heap r2) with (heap r1). rewrite Hh.
    rewrite lookup_app_r by lia. rewrite Nat.sub_diag. reflexivity. }
  assert (Hderef : deref (length (heap r)) r2 = Ok (HObj (PdfObject tok) (Some k)) r2).
  { unfold deref. rewrite Ho. reflexivity. }
  cbn [is_dict]. unfold mbind at 1, M_bind at 1. unfold mbind at 1, M_bind at 1.
  rewrite Hderef. cbn [body mret M_ret andb].
  rewrite (bind_run _ _ _ _ _ Hderef). cbn [body]. rewrite Hend.
  unfold mbind at 1, M_bind at 1. unfold mbind at 1, M_bind at 1, error at 1, modify at 1.
  unfold alloc at 1.
  match goal with
  | |- context [ (set_indirect (Some ?l) k ≫= _) ?r0 ] =>
      rewrite (bind_run _ _ _ _ _
                 (set_indirect_run l (HObj (PdfObject (Py.slice tok 0 (-6))) None) k r0
                    ltac:(cbn; rewrite lookup_app_r by lia; rewrite Nat.sub_diag; reflexivity)))
  end.
  unfold mbind, M_bind, table_set, modify. cbn [mret M_ret].
  eexists. split.
  { cbn. rewrite Hh, length_app. cbn. rewrite Nat.add_1_r. reflexivity. }
  cbn. rewrite Ht, Hdf, Hl.
  split.
  { rewrite insert_app_r_alt by (rewrite length_app; cbn; lia).
    replace (S (length (heap r)) - length (heap r ++ [HObj (PdfObject tok) (Some k)]))%nat
      with 0%nat by (rewrite length_app; cbn; lia).
    cbn. rewrite <- app_assoc. reflexivity. }
  split.
  { rewrite insert_insert_eq. reflexivity. }
  auto.
Qed.

Lemma glued_endobj_is_cut_off_witness :
  exists r',
    @loadindirect words 1 (7, 0) glued_endobj = Ok (Some 2%nat) r' /\
    heap r' = heap glued_endobj ++ [HObj (PdfObject "42endobj") (Some (7, 0));
                                    HObj (PdfObject "42") (Some (7, 0))] /\
    indirect_objects r' = <[(7, 0) := Some 2%nat]> (indirect_objects glued_endobj) /\
    deferred_objects r' = deferred_objects glued_endobj ∖ {[(7, 0)]} /\
    log r' = [Error "No space or delimiter before endobj"] /\
    floc r' = 23.
Proof.
  apply (@glued_endobj_is_cut_off words 0 (7, 0) 0%nat 5 "7" "0" "42endobj" "8" 23
           glued_endobj).
  - split; [reflexivity|]. eexists. split; reflexivity.
  - unfold glued_endobj. cbn [deferred_objects]. apply elem_of_singleton. reflexivity.
  - reflexivity.
  - lia.
  - reads_run.
  - reflexivity.
  - reflexivity.
  - reflexivity.
  - reflexivity.
  - reflexivity.
  - reflexivity.
  - discriminate.
Defined.

(** X19. An object with nothing between [obj] and [endobj] makes the load
    raise AttributeError, after the table entry of the identity was set to
    None and the identity was taken off the deferred set; every later load
    of the identity answers None and changes nothing. *)
Theorem empty_object_load_raises `{Tokenizer} (fuel : nat) (k : key) (p : loc)
    (off : Z) (tn tg : string) (p' : Z) (r : reader) :
  pending k p r -> k ∈ deferred_objects r ->
  obj_offsets r !! k = Some off -> off <> 0 ->
  reads (fdata r) off [tn; tg; "obj"; "endobj"] p' ->
  Py.isdigit tn = true -> Py.int tn = Some (fst k) ->
  Py.isdigit tg = true -> Py.int tg = Some (snd k) ->
  exists r',
    loadindirect (S fuel) k r = Raise AttributeError r' /\
    heap r' = heap r /\
    indirect_objects r' = <[k := None]> (indirect_objects r) /\
    deferred_objects r' = deferred_objects r ∖ {[k]} /\
    log r' = log r /\
    forall fuel', loadindirect (S fuel') k r' = Ok None r'.
Proof.
  intros Hp Hd Hoff Hnz Hr Hdn Hin Hdg Hig.
  destruct (load_at_header fuel k p off tn tg _ p' r Hp Hoff Hnz Hr Hdn Hin Hdg Hig)
    as (s & q & Hrest & ->).
  destruct (reads_next _ _ _ _ _ (set_floc q (set_tokstart s r)) Hrest eq_refl eq_refl)
    as (s1 & p1 & Hn1 & _ & Hr1).
  rewrite (bind_run _ _ _ _ _ Hn1).
  change (read_value fuel "endobj") with empty_obj.
  unfold mbind at 1, M_bind at 1, empty_obj at 1. unfold mbind at 1, M_bind at 1, modify at 1.
  cbn [mret M_ret].
  unfold mbind at 1, M_bind at 1, table_set at 1, modify at 1.
  match goal with
  | |- context [ (deferred_remove k ≫= _) ?r0 ] =>
      rewrite (bind_run _ _ _ _ _ (deferred_remove_run k r0 Hd))
  end.
  eexists. split; [reflexivity|]. cbn.
  repeat (split; [reflexivity|]).
  intros fuel'. apply load_unregistered. unfold table_get. cbn.
  rewrite lookup_insert_eq. reflexivity.
Qed.

Lemma empty_object_load_raises_witness :
  exists r',
    @loadindirect words 1 (7, 0) empty_object = Raise AttributeError r' /\
    heap r' = heap empty_object /\
    indirect_objects r' = <[(7, 0) := None]> (indirect_objects empty_object) /\
    deferred_objects r' = deferred_objects empty_object ∖ {[(7, 0)]} /\
    log r' = [] /\
    forall fuel', @loadindirect words (S fuel') (7, 0) r' = Ok None r'.
Proof.
  apply (@empty_object_load_raises words 0 (7, 0) 0%nat 5 "7" "0" 19 empty_object).
  - split; [reflexivity|]. eexists. split; reflexivity.
  - unfold empty_object. cbn [deferred_objects]. apply elem_of_singleton. reflexivity.
  - reflexivity.
  - lia.
  - reads_run.
  - reflexivity.
  - reflexivity.
  - reflexivity.
  - reflexivity.
Defined.

(** ** Members of object streams *)

Section MemberFacts.
Context `{Tokenizer}.

Lemma resolved_evolves (k : key) (r r' : reader) :
  evolves r r' -> resolved k r -> resolved k r'.
Proof.
  intros E (l & Hs & Hd). exists l. split.
  - exact (ev_stored _ _ E _ _ Hs).
  - exact (ev_deferred _ _ E _ _ Hs Hd).
Qed.

(** One round of the member loop: the member is resolved, and what was
    resolved stays so. *)
Lemma expand_member_step (fuel : nat) (num offset : Z) (r r' : reader) :
  (modify (set_floc offset);;
   tok ← next;
   sobj ← read_value fuel tok;
   table_set (num, 0) sobj;;
   r ← get_reader;
   (if bool_decide ((num, 0) ∈ deferred_objects r) then deferred_remove (num, 0)
    else mret tt);;
   set_indirect sobj (num, 0)) r = Ok tt r' ->
  resolved (num, 0) r' /\ forall k, resolved k r -> resolved k r'.
Proof.
  intros Hrun.
  apply bind_Ok in Hrun as ([] & r1 & H1 & Hrun).
  pose proof (keeps_set_floc _ _ _ _ H1) as E1.
  apply bind_Ok in Hrun as (tok & r2 & H2 & Hrun).
  pose proof (evolves_trans _ _ _ E1 (keeps_next _ _ _ H2)) as E2.
  apply bind_Ok in Hrun as (sobj & r3 & H3 & Hrun).
  pose proof (evolves_trans _ _ _ E2 (keeps_read_value _ _ _ _ _ H3)) as E3.
  pose proof (read_value_fresh _ _ _ _ _ H3) as Hfresh.
  apply bind_Ok in Hrun as ([] & r4 & H4 & Hrun).
  apply modify_Ok in H4.
  apply bind_Ok in Hrun as (r4' & r4'' & Hg & Hrun).
  apply get_reader_Ok in Hg as [-> ->].
  apply bind_Ok in Hrun as ([] & r5 & H5 & Hrun).
  apply set_indirect_Ok in Hrun as (l & o & -> & Ho & ->).
  destruct (Hfresh l eq_refl) as (o3 & Ho3 & Hind3).
  assert (Hh45 : heap r5 = heap r3 /\ indirect_objects r5 = indirect_objects r4 /\
                 ((num, 0) ∉ deferred_objects r5) /\
                 (forall k, k ∉ deferred_objects r4 -> k ∉ deferred_objects r5)).
  { case_bool_decide as Hin.
    - apply deferred_remove_Ok in H5 as [_ ->]. subst r4. cbn.
      repeat split; try reflexivity; set_solver.
    - apply ret_Ok in H5 as [_ <-]. subst r4. cbn. repeat split; auto. }
  destruct Hh45 as (Hh & Ht & Hd & Hmono).
  assert (Ho' : o = o3) by (rewrite Hh in Ho; congruence). subst o3.
  assert (Hkey : resolved (num, 0) (set_heap (<[l := HObj (body o) (Some (num, 0))]> (heap r5)) r5)).
  { exists l. split; [|exact Hd]. split.
    - cbn. rewrite Ht. subst r4. cbn. rewrite lookup_insert_eq. reflexivity.
    - exists (HObj (body o) (Some (num, 0))). split; [|exact Hind3].
      cbn. apply list_lookup_insert_eq. apply lookup_lt_Some in Ho. exact Ho. }
  split; [exact Hkey|].
  intros k Hres. destruct (decide (k = (num, 0))) as [->|Hne]; [exact Hkey|].
  apply (resolved_evolves k r r3 E3) in Hres.
  destruct Hres as (l0 & [Hs1 (o0 & Hs2 & Hs3)] & Hnd).
  exists l0. split; [|apply Hmono; subst r4; exact Hnd]. split.
  - cbn. rewrite Ht. subst r4. cbn. rewrite lookup_insert_ne by congruence. exact Hs1.
  - cbn. rewrite Hh. destruct (decide (l0 = l)) as [->|Hl].
    + exists (HObj (body o) (Some (num, 0))). split.
      * apply list_lookup_insert_eq. apply lookup_lt_Some in Hs2. exact Hs2.
      * exact Hind3.
    + exists o0. split; [|exact Hs3]. rewrite list_lookup_insert_ne by congruence. exact Hs2.
Qed.

Lemma expand_members_resolved (fuel : nat) : forall members (r r' : reader),
  expand_members fuel members r = Ok tt r' ->
  (forall k, resolved k r -> resolved k r') /\
  (forall num off, (num, off) ∈ members -> resolved (num, 0) r').
Proof.
  induction members as [|[num offset] members IH]; intros r r' Hrun; cbn [expand_members] in Hrun.
  - apply ret_Ok in Hrun as [_ <-]. split; [auto|]. intros num off Hin. inversion Hin.
  - assert (Hsplit : exists r1,
              (modify (set_floc offset);;
               tok ← next;
               sobj ← read_value fuel tok;
               table_set (num, 0) sobj;;
               r ← get_reader;
               (if bool_decide ((num, 0) ∈ deferred_objects r) then deferred_remove (num, 0)
                else mret tt);;
               set_indirect sobj (num, 0)) r = Ok tt r1 /\
              expand_members fuel members r1 = Ok tt r').
    { unfold mbind, M_bind in Hrun |- *. unfold mbind, M_bind.
      repeat match type of Hrun with
             | match ?x with _ => _ end = _ => destruct x as [? ?| |] eqn:?; try discriminate Hrun
             end.
      match goal with u : unit |- _ => destruct u end.
      eexists. split; [reflexivity|exact Hrun]. }
    destruct Hsplit as (r1 & Hstep & Hrest).
    destruct (expand_member_step _ _ _ _ _ Hstep) as [Hkey Hkeep].
    destruct (IH _ _ Hrest) as [IH1 IH2].
    split; [intros k Hk; apply IH1, Hkeep, Hk|].
    intros n off Hin. apply elem_of_cons in Hin as [[= -> ->]|Hin].
    + apply IH1, Hkey.
    + exact (IH2 _ _ Hin).
Qed.
End MemberFacts.

(** X20. When the member loop of an object stream returns, every member
    number N it went through is resolved: the table holds a loaded value
    (not a placeholder) for (N, 0), and (N, 0) is not in the deferred
    set. *)
Theorem objstm_members_are_resolved `{Tokenizer} (fuel : nat) (members : list (Z * Z))
    (r r' : reader) (num off : Z) :
  expand_members fuel members r = Ok tt r' ->
  (num, off) ∈ members ->
  resolved (num, 0) r'.
Proof.
  intros Hrun Hin. exact (proj2 (expand_members_resolved fuel members r r' Hrun) num off Hin).
Qed.

Lemma objstm_members_are_resolved_witness :
  exists r',
    @expand_members words 3 [(3, 0); (4, 3)] (empty_reader "/A /B") = Ok tt r' /\
    resolved (4, 0) r'.
Proof.
  eexists. split; [vm_compute; reflexivity|].
  eapply (@objstm_members_are_resolved words 3 [(3, 0); (4, 3)] (empty_reader "/A /B") _ 4 3).
  - vm_compute. reflexivity.
  - apply elem_of_cons. right. apply elem_of_cons. left. reflexivity.
Defined.

(** ** A well-formed classic table *)

Section TableFacts.
Context `{Tokenizer}.

Lemma row_at_cons (first : Z) (to tg flag : string) rows (k : key) (o : Z) :
  row_at first ((to, tg, flag) :: rows) k o <->
  (flag = "n" /\ Py.int to = Some o /\ o <> 0 /\ Py.int tg = Some (snd k) /\ fst k = first)
  \/ row_at (first + 1) rows k o.
Proof.
  split.
  - intros (i & to' & tg' & Hi & Ho & Hnz & Hg & Hk). destruct i as [|i].
    + cbn in Hi. injection Hi as -> -> ->. left. repeat split; auto. lia.
    + right. exists i, to', tg'. cbn in Hi. repeat split; auto. lia.
  - intros [(-> & Ho & Hnz & Hg & Hk)|(i & to' & tg' & Hi & Ho & Hnz & Hg & Hk)].
    + exists 0%nat, to, tg. repeat split; auto. lia.
    + exists (S i), to', tg'. repeat split; auto. lia.
Qed.

Lemma row_at_later (first : Z) rows (k : key) (o : Z) :
  row_at first rows k o -> first <= fst k.
Proof. intros (i & to & tg & _ & _ & _ & _ & Hk). lia. Qed.

(** The entry loop on well-formed lines. *)
Lemma table_rows_good : forall rows first last tail p' (r : reader),
  reads (fdata r) (floc r) (row_tokens rows ++ tail) p' ->
  Forall good_row rows ->
  exists last' r',
    table_rows (length rows) first last r = Ok (true, last') r' /\
    reads (fdata r) (floc r') tail p' /\
    fdata r' = fdata r /\ log r' = log r /\
    forall k o,
      obj_offsets r' !! k = Some o <->
      obj_offsets r !! k = Some o \/ (obj_offsets r !! k = None /\ row_at first rows k o).
Proof.
  induction rows as [|[[to tg] flag] rows IH]; intros first last tail p' r Hr Hgood.
  - exists last, r. cbn. repeat split; auto.
    + intros [Hk|[_ (i & to & tg & Hi & _)]]; [exact Hk|]. rewrite lookup_nil in Hi. discriminate.
  - apply Forall_cons in Hgood as [([o Ho] & [g Hg] & Hflag) Hgood].
    cbn [row_tokens app] in Hr.
    destruct (reads_next _ _ _ _ _ r Hr eq_refl eq_refl) as (s1 & p1 & Hn1 & _ & Hr1).
    set (r1 := set_floc p1 (set_tokstart s1 r)) in *.
    destruct (reads_next _ _ _ _ _ r1 Hr1 eq_refl eq_refl) as (s2 & p2 & Hn2 & _ & Hr2).
    set (r2 := set_floc p2 (set_tokstart s2 r1)) in *.
    destruct (reads_next _ _ _ _ _ r2 Hr2 eq_refl eq_refl) as (s3 & p3 & Hn3 & _ & Hr3).
    set (r3 := set_floc p3 (set_tokstart s3 r2)) in *.
    assert (Hentry : exists r4,
              table_entry first r = Ok tt r4 /\ fdata r4 = fdata r /\ floc r4 = p3 /\
              log r4 = log r /\
              obj_offsets r4 =
                (if String.eqb flag "n" && negb (o =? 0)
                 then setdefault (first, g) o (obj_offsets r) else obj_offsets r)).
    { unfold table_entry, mbind, M_bind, int_of_token.
      rewrite Hn1, Ho. cbn [mret M_ret]. rewrite Hn2, Hg. cbn [mret M_ret]. rewrite Hn3.
      destruct Hflag as [-> | ->]; cbn [String.eqb Ascii.eqb Bool.eqb andb negb].
      - destruct (o =? 0); cbn [negb]; eexists; (split; [reflexivity|]); cbn; auto.
      - eexists. split; [reflexivity|]. cbn. auto. }
    destruct Hentry as (r4 & He & Hf4 & Hp4 & Hl4 & Ho4).
    cbn [length table_rows]. unfold mbind at 1, M_bind at 1, attempt at 1. rewrite He.
    rewrite <- Hf4, <- Hp4 in Hr3.
    destruct (IH (first + 1) (Some first) tail p' r4 Hr3 Hgood)
      as (last' & r' & Hrun & Hrt & Hf & Hl & Hoffs).
    exists last', r'. split; [exact Hrun|].
    split; [rewrite <- Hf4; exact Hrt|]. split; [congruence|]. split; [congruence|].
    intros k x. rewrite Hoffs, row_at_cons, Ho4. clear Hoffs IH.
    destruct (String.eqb flag "n") eqn:Efl; cbn [andb].
    + apply String.eqb_eq in Efl. subst flag.
      destruct (o =? 0) eqn:Ez; cbn [negb].
      * apply Z.eqb_eq in Ez. subst o.
        split.
        -- intros [Hk|[Hk Hrow]]; [left; exact Hk|right; split; [exact Hk|right; exact Hrow]].
        -- intros [Hk|[Hk [(_ & Hx & Hnz & _)|Hrow]]]; [left; exact Hk| |right; auto].
           congruence.
      * apply Z.eqb_neq in Ez. unfold setdefault.
        destruct (obj_offsets r !! (first, g)) as [y|] eqn:Ey.
        -- split.
           ++ intros [Hk|[Hk Hrow]]; [left; exact Hk|right; split; [exact Hk|right; exact Hrow]].
           ++ intros [Hk|[Hk [(_ & Hx & Hnz & Hgk & Hfk)|Hrow]]]; [left; exact Hk| |right; auto].
              exfalso. destruct k as [k1 k2]. cbn in *. subst k1.
              assert (g = k2) by congruence. subst k2. congruence.
        -- destruct (decide (k = (first, g))) as [->|Hne].
           ++ rewrite lookup_insert_eq, Ey. split.
              ** intros [[= <-]|[Hk _]]; [|discriminate].
                 right. split; [reflexivity|]. left. cbn. auto.
              ** intros [Hk|[_ [(_ & Hx & _)|Hrow]]]; [discriminate| |].
                 --- left. congruence.
                 --- apply row_at_later in Hrow. cbn in Hrow. lia.
           ++ rewrite lookup_insert_ne by congruence. split.
              ** intros [Hk|[Hk Hrow]]; [left; exact Hk|right; split; [exact Hk|right; exact Hrow]].
              ** intros [Hk|[Hk [(_ & Hx & Hnz & Hgk & Hfk)|Hrow]]]; [left; exact Hk| |right; auto].
                 exfalso. apply Hne. destruct k as [k1 k2]. cbn in *. congruence.
    + split.
      * intros [Hk|[Hk Hrow]]; [left; exact Hk|right; split; [exact Hk|right; exact Hrow]].
      * intros [Hk|[Hk [(-> & _)|Hrow]]]; [left; exact Hk|discriminate|right; auto].
Qed.
End TableFacts.

(** The strict loop on one well-formed subsection followed by [trailer]. *)
Lemma parse_table_good `{Tokenizer} (fuel : nat) (ts tc : string)
    (first : Z) (rows : list (string * string * string)) (tail : list string)
    (p' : Z) (r : reader) :
  reads (fdata r) (floc r) (ts :: tc :: row_tokens rows ++ "trailer" :: tail) p' ->
  Py.int ts = Some first ->
  Py.int tc = Some (Z.of_nat (length rows)) ->
  Forall good_row rows ->
  exists r',
    parse_xref_table (S (S fuel)) r = Ok tt r' /\
    reads (fdata r) (floc r') tail p' /\
    fdata r' = fdata r /\ log r' = log r /\
    forall k o,
      obj_offsets r' !! k = Some o <->
      obj_offsets r !! k = Some o \/ (obj_offsets r !! k = None /\ row_at first rows k o).
Proof.
  intros Hr Hts Htc Hgood.
  assert (Hnt : String.eqb ts "trailer" = false).
  { destruct (String.eqb ts "trailer") eqn:E; [|reflexivity].
    apply String.eqb_eq in E. subst ts. discriminate Hts. }
  destruct (reads_next _ _ _ _ _ r Hr eq_refl eq_refl) as (s1 & p1 & Hn1 & _ & Hr1).
  set (r1 := set_floc p1 (set_tokstart s1 r)) in *.
  destruct (reads_next _ _ _ _ _ r1 Hr1 eq_refl eq_refl) as (s2 & p2 & Hn2 & _ & Hr2).
  set (r2 := set_floc p2 (set_tokstart s2 r1)) in *.
  destruct (table_rows_good rows first None ("trailer" :: tail) p' r2 Hr2 Hgood)
    as (last' & r3 & Hrows & Hr3 & Hf3 & Hl3 & Hoffs).
  change (fdata r2) with (fdata r) in Hr3, Hf3. rewrite <- Hf3 in Hr3.
  destruct (reads_next _ _ _ _ _ r3 Hr3 eq_refl eq_refl) as (s4 & p4 & Hn4 & _ & Hr4).
  exists (set_floc p4 (set_tokstart s4 r3)).
  split; [|split; [rewrite <- Hf3; exact Hr4|split; [exact Hf3|split; [exact Hl3|exact Hoffs]]]].
  unfold parse_xref_table. unfold mbind at 1, M_bind at 1, get_reader at 1.
  assert (Hstrict : table_strict (S (S fuel)) None r
                    = Ok (true, last') (set_floc p4 (set_tokstart s4 r3))).
  { cbn [table_strict]. unfold mbind at 1, M_bind at 1, attempt at 1. rewrite Hn1, Hnt, Hts.
    unfold mbind at 1, M_bind at 1, attempt at 1.
    unfold mbind at 1, M_bind at 1. rewrite Hn2. unfold int_of_token. rewrite Htc.
    cbn [mret M_ret]. rewrite Nat2Z.id.
    rewrite (bind_run _ _ _ _ _ Hrows).
    unfold mbind at 1, M_bind at 1, attempt at 1. rewrite Hn4. reflexivity. }
  rewrite (bind_run _ _ _ _ _ Hstrict). reflexivity.
Qed.

(** X21. A classic table of one subsection [first count] whose [count]
    entry lines are all readable, followed by [trailer], is parsed by the
    strict loop alone: nothing is logged, the cursor ends behind [trailer],
    and afterwards an identity has the offset it had before or, when it had
    none, the offset of the in-use line with a nonzero offset that lists
    it (line i lists object number first + i). *)
Theorem well_formed_table_is_recorded `{Tokenizer} (fuel : nat) (ts tc : string)
    (first : Z) (rows : list (string * string * string)) (p' : Z) (r : reader) :
  reads (fdata r) (floc r) (ts :: tc :: row_tokens rows ++ ["trailer"]) p' ->
  Py.int ts = Some first ->
  Py.int tc = Some (Z.of_nat (length rows)) ->
  Forall good_row rows ->
  exists r',
    parse_xref_table (S (S fuel)) r = Ok tt r' /\
    floc r' = p' /\ log r' = log r /\
    forall k o,
      obj_offsets r' !! k = Some o <->
      obj_offsets r !! k = Some o \/ (obj_offsets r !! k = None /\ row_at first rows k o).
Proof.
  intros Hr Hts Htc Hgood.
  destruct (parse_table_good fuel ts tc first rows [] p' r Hr Hts Htc Hgood)
    as (r' & Hrun & Hrest & _ & Hl & Hoffs).
  exists r'. inversion Hrest; subst. auto.
Qed.

Lemma well_formed_table_is_recorded_witness :
  exists r',
    @parse_xref_table words 2 (set_floc 4 one_subsection) = Ok tt r' /\
    floc r' = 73 /\ log r' = [] /\
    forall k o,
      obj_offsets r' !! k = Some o <->
      obj_offsets (set_floc 4 one_subsection) !! k = Some o \/
      (obj_offsets (set_floc 4 one_subsection) !! k = None /\
       row_at 4 [("0000000017", "00000", "n"); ("0000000000", "65535", "f");
                 ("0000000081", "00002", "n")] k o).
Proof.
  apply (@well_formed_table_is_recorded words 0 "4" "3" 4
           [("0000000017", "00000", "n"); ("0000000000", "65535", "f");
            ("0000000081", "00002", "n")] 73 (set_floc 4 one_subsection)).
  - reads_run.
  - reflexivity.
  - reflexivity.
  - repeat constructor; eexists; reflexivity.
Defined.

(** X22. A classic section: [xref], one well-formed subsection, [trailer]
    and a trailer dictionary of plain name/value pairs.  [parsexref] records
    the offsets of the table as above and answers the trailer dictionary,
    which holds the last value given for each name; nothing is logged. *)
Theorem classic_section_is_parsed `{Tokenizer} `{Uncompress} (fuel : nat)
    (load : key -> M pyval) (ts tc : string) (first : Z)
    (rows : list (string * string * string)) (pairs : list (string * string))
    (p' : Z) (r : reader) :
  reads (fdata r) (floc r)
        ("xref" :: ts :: tc :: row_tokens rows ++
         "trailer" :: "<<" :: pair_tokens pairs ++ [">>"]) p' ->
  Py.int ts = Some first ->
  Py.int tc = Some (Z.of_nat (length rows)) ->
  Forall good_row rows ->
  Forall (fun kv => startswith_slash (fst kv) = true /\ special (snd kv) = None) pairs ->
  (length pairs < S (S fuel))%nat ->
  exists l d r',
    parsexref (S (S fuel)) load r = Ok (Some l) r' /\
    heap r' !! l = Some (HObj (PdfDict d None) None) /\
    (forall k, entry_text r' d k = last_value pairs k) /\
    log r' = log r /\ floc r' = p' /\
    forall k o,
      obj_offsets r' !! k = Some o <->
      obj_offsets r !! k = Some o \/ (obj_offsets r !! k = None /\ row_at first rows k o).
Proof.
  intros Hr Hts Htc Hgood Hpairs Hfuel.
  destruct (reads_next _ _ _ _ _ r Hr eq_refl eq_refl) as (s1 & p1 & Hn1 & _ & Hr1).
  set (r1 := set_floc p1 (set_tokstart s1 r)) in *.
  destruct (parse_table_good fuel ts tc first rows _ p' r1 Hr1 Hts Htc Hgood)
    as (r2 & Htab & Hr2 & Hf2 & Hl2 & Hoffs).
  change (fdata r1) with (fdata r) in Hr2, Hf2. rewrite <- Hf2 in Hr2.
  destruct (reads_next _ _ _ _ _ r2 Hr2 eq_refl eq_refl) as (s3 & p3 & Hn3 & _ & Hr3).
  set (r3 := set_floc p3 (set_tokstart s3 r2)) in *.
  destruct (readdict_plain (S (S fuel)) pairs p' r3 Hr3 Hpairs Hfuel)
    as (l & d & r' & Hrun & Hl & Htxt & _ & Hlog & _ & _ & Hfloc).
  exists l, d, r'.
  split.
  { unfold parsexref. rewrite (bind_run _ _ _ _ _ Hn1).
    change (Py.isdigit "xref") with false. cbn match.
    change (String.eqb "xref" "xref") with true. cbn match.
    rewrite (bind_run _ _ _ _ _ Htab). rewrite (bind_run _ _ _ _ _ Hn3).
    change (String.eqb "<<" "<<") with true. cbn [negb].
    unfold mbind at 1, M_bind at 1. cbn [mret M_ret]. exact Hrun. }
  split; [exact Hl|]. split; [exact Htxt|]. split; [rewrite Hlog; exact Hl2|].
  split; [exact Hfloc|].
  intros k o. rewrite (ev_offsets _ _ (keeps_readdict _ _ _ _ Hrun)).
  exact (Hoffs k o).
Qed.

Lemma classic_section_is_parsed_witness :
  exists l d r',
    @parsexref words no_filters 3 no_load one_subsection = Ok (Some l) r' /\
    heap r' !! l = Some (HObj (PdfDict d None) None) /\
    (forall k, entry_text r' d k = last_value [("/Size", "7"); ("/Root", "/none")] k) /\
    log r' = log one_subsection /\ floc r' = 99 /\
    forall k o,
      obj_offsets r' !! k = Some o <->
      obj_offsets one_subsection !! k = Some o \/
      (obj_offsets one_subsection !! k = None /\
       row_at 4 [("0000000017", "00000", "n"); ("0000000000", "65535", "f");
                 ("0000000081", "00002", "n")] k o).
Proof.
  apply (@classic_section_is_parsed words no_filters 1 no_load "4" "3" 4
           [("0000000017", "00000", "n"); ("0000000000", "65535", "f");
            ("0000000081", "00002", "n")] [("/Size", "7"); ("/Root", "/none")]
           99 one_subsection).
  - reads_run.
  - reflexivity.
  - reflexivity.
  - repeat constructor; eexists; reflexivity.
  - repeat constructor.
  - cbn. lia.
Defined.

(** X23. An [R] in an array that holds fewer than two values makes
    [readarray] raise IndexError: there is no pair to pop. *)
Theorem R_without_pair_raises `{Tokenizer} (fuel : nat) (result : list pyval)
    (s p : Z) (r : reader) :
  (length result < 2)%nat ->
  tok_next (fdata r) (floc r) = Some ("R", s, p) ->
  readarray (S fuel) result r = Raise IndexError (set_floc p (set_tokstart s r)).
Proof.
  intros Hlen Htok. cbn [readarray]. unfold mbind at 1, M_bind at 1, iter_next.
  rewrite Htok. change (in_bracket_R "R") with true. cbn match.
  change (String.eqb "R" "]") with false. cbn match.
  destruct result as [|v [|w result]]; [| |cbn in Hlen; lia]; reflexivity.
Qed.

Lemma R_without_pair_raises_witness :
  @readarray words 1 [] (empty_reader "R ]")
  = Raise IndexError (set_floc 1 (set_tokstart 0 (empty_reader "R ]"))).
Proof.
  apply (@R_without_pair_raises words 0 [] 0 1 (empty_reader "R ]")).
  - cbn. lia.
  - reflexivity.
Defined.

(** ** What escapes from the table parser *)

Section TableRaises.
Context `{Tokenizer}.

Lemma attempt_never_raises {A} (m : M A) : never_raises (attempt m).
Proof. intros r e r'. unfold attempt. destruct (m r); discriminate. Qed.

Lemma table_rows_never_raises cnt : forall objnum last,
  never_raises (table_rows cnt objnum last).
Proof.
  induction cnt as [|cnt IH]; intros objnum last r e r'; cbn [table_rows].
  - discriminate.
  - unfold mbind, M_bind.
    destruct (attempt (table_entry objnum) r) as [[u|] r1|e1 r1|] eqn:E; try discriminate.
    + apply IH.
    + exfalso. exact (attempt_never_raises _ _ _ _ E).
Qed.

Lemma table_strict_never_raises fuel : forall last,
  never_raises (table_strict fuel last).
Proof.
  induction fuel as [|fuel IH]; intros last r e r'; cbn [table_strict].
  - discriminate.
  - unfold mbind at 1, M_bind at 1.
    destruct (attempt next r) as [[tok|] r1|e1 r1|] eqn:E1; try discriminate.
    + destruct (String.eqb tok "trailer"); [discriminate|].
      destruct (Py.int tok) as [startobj|]; [|discriminate].
      unfold mbind at 1, M_bind at 1.
      destruct (attempt (next ≫= int_of_token) r1) as [[cnt|] r2|e2 r2|] eqn:E2;
        try discriminate.
      * unfold mbind at 1, M_bind at 1.
        destruct (table_rows (Z.to_nat cnt) startobj last r2) as [[ok last'] r3|e3 r3|] eqn:E3;
          try discriminate.
        -- destruct ok; [apply IH|discriminate].
        -- exfalso. exact (table_rows_never_raises _ _ _ _ _ _ E3).
      * exfalso. exact (attempt_never_raises _ _ _ _ E2).
    + exfalso. exact (attempt_never_raises _ _ _ _ E1).
Qed.
End TableRaises.

(** X24. The only exception that escapes from [parse_xref_table] is the
    parse error [Invalid table format], and it leaves the cursor where the
    table started: whatever the strict loop or the tolerant re-scan raise
    is caught. *)
Theorem table_parser_raises_only_invalid_format `{Tokenizer} (fuel : nat)
    (r r' : reader) (e : exn) :
  parse_xref_table fuel r = Raise e r' ->
  e = PdfParseError "Invalid table format" /\ floc r' = floc r.
Proof.
  intros Hrun. unfold parse_xref_table in Hrun.
  unfold mbind at 1, M_bind at 1, get_reader at 1 in Hrun.
  unfold mbind at 1, M_bind at 1 in Hrun.
  destruct (table_strict fuel None r) as [[returned objnum] r1|e1 r1|] eqn:E1;
    [| |discriminate].
  - destruct returned; [discriminate|].
    unfold mbind at 1, M_bind at 1 in Hrun.
    match type of Hrun with
    | match attempt ?m r1 with _ => _ end = _ =>
        destruct (attempt m r1) as [[t|] r2|e2 r2|] eqn:E2
    end; try discriminate.
    + injection Hrun as <- <-. split; reflexivity.
    + exfalso. exact (attempt_never_raises _ _ _ _ E2).
  - exfalso. exact (table_strict_never_raises _ _ _ _ _ E1).
Qed.

Lemma table_parser_raises_only_invalid_format_witness :
  exists r',
    @parse_xref_table words 3 broken_table
      = Raise (PdfParseError "Invalid table format") r' /\
    PdfParseError "Invalid table format" = PdfParseError "Invalid table format" /\
    floc r' = floc broken_table.
Proof.
  eexists. split; [vm_compute; reflexivity|].
  eapply (@table_parser_raises_only_invalid_format words 3 broken_table).
  vm_compute. reflexivity.
Defined.
